(** * The CRM back end: data-access layer and its route handlers

    A shallow embedding of [backend/app]: the SQLAlchemy models
    ([app/models]), the pydantic update schemas ([app/schemas]), the CRUD
    functions ([app/crud]) and the route handlers that the properties below
    depend on ([app/api]).

    Conventions of the embedding.
    - The PostgreSQL database behind the [Session] is a record of four
      tables; a table is the list of its rows in storage order.
    - Python [int] is [Z]; a [DateTime] column is a [Z] (a time stamp
      without time zone, in microseconds); a [Numeric(10, 2)] column is a
      [Z] counting hundredths.
    - A [str] is the sequence of its characters, written as a [string]; the
      text fields of a payload are within the length of their column, which
      the schemas check ([max_length], [EmailStr]).
    - A nullable column and an [Optional[...]] argument are [option].
    - A function that can raise returns an [outcome]; the store it leaves
      behind is returned next to it where the function writes.
    - What SQL leaves to the database -- the order of rows that ORDER BY
      does not separate, the order of the groups of a GROUP BY -- is an
      argument of the query, its [scan_order]. *)

From Stdlib Require Import Ascii String ZArith List Bool Lia Permutation Sorted.
Import ListNotations.
Local Open Scope string_scope.
Local Open Scope list_scope.
Local Open Scope Z_scope.

Set Implicit Arguments.

(** ** Exceptions *)

Inductive exn : Type :=
| IntegrityError              (* sqlalchemy.exc.IntegrityError, at commit *)
| DataError                   (* sqlalchemy.exc.DataError: a value out of range *)
| ProgrammingError            (* the statement is rejected by PostgreSQL *)
| HTTPException (status_code : Z).

Inductive outcome (A : Type) : Type :=
| Returned (a : A)
| Raised (e : exn).
Arguments Raised {A} e.

Definition bind {A B} (m : outcome A) (k : A -> outcome B) : outcome B :=
  match m with
  | Returned a => k a
  | Raised e => Raised e
  end.

Notation "x <- m ;; k" := (bind m (fun x => k))
  (at level 61, m at next level, right associativity).

(** ** Python truthiness, as used by [if x:] on optional arguments *)

Definition truthy_int (x : option Z) : option Z :=
  match x with
  | Some z => if z =? 0 then None else Some z
  | None => None
  end.

Definition truthy_str (x : option string) : option string :=
  match x with
  | Some s => if String.eqb s "" then None else Some s
  | None => None
  end.

Definition truthy_list {A} (x : option (list A)) : option (list A) :=
  match x with
  | Some [] => None
  | Some l => Some l
  | None => None
  end.

(** ** Enumerations ([app/models]) *)

Module ContactStatus.
Inductive t := lead | prospect | client | lost | archived.
Definition eqb (a b : t) : bool :=
  match a, b with
  | lead, lead | prospect, prospect | client, client
  | lost, lost | archived, archived => true
  | _, _ => false
  end.
(** Declaration order of the enum, the sort order of the database type. *)
Definition members : list t := [lead; prospect; client; lost; archived].
End ContactStatus.

Module InteractionType.
Inductive t := call | email | meeting | note | other.
Definition eqb (a b : t) : bool :=
  match a, b with
  | call, call | email, email | meeting, meeting
  | note, note | other, other => true
  | _, _ => false
  end.
Definition members : list t := [call; email; meeting; note; other].
End InteractionType.

Module ProposalStatus.
Inductive t := draft | submitted | won | lost | ignored | expired.
Definition eqb (a b : t) : bool :=
  match a, b with
  | draft, draft | submitted, submitted | won, won
  | lost, lost | ignored, ignored | expired, expired => true
  | _, _ => false
  end.
(** Iteration order of [for status in ProposalStatus]. *)
Definition members : list t := [draft; submitted; won; lost; ignored; expired].
End ProposalStatus.

Module ActionStatus.
Inductive t := pending | completed | cancelled.
Definition eqb (a b : t) : bool :=
  match a, b with
  | pending, pending | completed, completed | cancelled, cancelled => true
  | _, _ => false
  end.
Definition members : list t := [pending; completed; cancelled].
End ActionStatus.

Module ActionPriority.
Inductive t := low | medium | high | urgent.
Definition eqb (a b : t) : bool :=
  match a, b with
  | low, low | medium, medium | high, high | urgent, urgent => true
  | _, _ => false
  end.
Definition members : list t := [low; medium; high; urgent].
(** [Enum(ActionPriority)] is a native PostgreSQL enum: its values sort in
    the order the labels are declared. *)
Definition sort_key (p : t) : Z :=
  match p with
  | low => 0
  | medium => 1
  | high => 2
  | urgent => 3
  end.
End ActionPriority.

Module ActionType.
Inductive t := call | meeting | follow_up | email | other.
Definition eqb (a b : t) : bool :=
  match a, b with
  | call, call | meeting, meeting | follow_up, follow_up
  | email, email | other, other => true
  | _, _ => false
  end.
Definition members : list t := [call; meeting; follow_up; email; other].
End ActionType.

(** ** Rows ([app/models]) *)

Module Contact.
Record t := mk {
  id : Z;
  first_name : string;
  last_name : string;
  email : option string;            (* unique=True *)
  phone : option string;
  company : option string;
  job_title : option string;
  status : ContactStatus.t;
  source : option string;
  owner_id : option Z;
  tags : option (list string);      (* ARRAY(String), nullable *)
  notes : option string;
  next_action : option Z;
  created_at : Z;
  updated_at : Z                    (* onupdate=func.now() *)
}.
End Contact.

Module Interaction.
Record t := mk {
  id : Z;
  contact_id : Z;                   (* ForeignKey contacts.id, CASCADE *)
  type : InteractionType.t;
  occurred_at : Z;
  summary : string;
  outcome : option string;
  created_by : option string;
  created_at : Z;
  updated_at : Z
}.
End Interaction.

Module Proposal.
Record t := mk {
  id : Z;
  contact_id : Z;                   (* ForeignKey contacts.id, CASCADE *)
  title : string;
  description : option string;
  value : option Z;                 (* Numeric(10, 2), in hundredths *)
  status : ProposalStatus.t;
  applied_at : option Z;
  created_at : Z;
  updated_at : Z;
  expires_at : option Z
}.
End Proposal.

Module Action.
Record t := mk {
  id : Z;
  contact_id : Z;                   (* ForeignKey contacts.id, CASCADE *)
  proposal_id : option Z;           (* ForeignKey proposals.id, CASCADE *)
  interaction_id : option Z;        (* ForeignKey interactions.id, CASCADE *)
  title : string;
  description : option string;
  status : ActionStatus.t;
  completed_at : option Z;
  created_at : Z;
  updated_at : Z;
  due_at : option Z;
  action_type : ActionType.t;
  assigned_to : option Z;
  priority : ActionPriority.t
}.
End Action.

(** ** The database behind a [Session] *)

Record Store := mkStore {
  contacts : list Contact.t;
  interactions : list Interaction.t;
  proposals : list Proposal.t;
  actions : list Action.t
}.

(** ** Query building blocks *)

(** [Query.first()]. *)
Definition first {A} (rows : list A) : option A := hd_error rows.

(** [Query.count()]. *)
Definition count {A} (rows : list A) : Z := Z.of_nat (length rows).

(** The order in which one execution of a query reads the rows.  SQL does
    not fix it, and it may differ from one execution to the next.
    [read scan rows] rearranges [rows]: going from the last row to the
    first, each row is put [k] places deep into the rows already placed,
    [k] being its entry in [scan].  Every rearrangement of [rows] is
    [read scan rows] for some [scan], and [read [] rows] is [rows]. *)
Definition scan_order : Type := list nat.

Fixpoint place {A} (k : nat) (x : A) (l : list A) : list A :=
  match k, l with
  | S k', y :: l' => y :: place k' x l'
  | _, _ => x :: l
  end.

Fixpoint read {A} (scan : scan_order) (rows : list A) : list A :=
  match rows with
  | [] => []
  | x :: l => place (hd 0%nat scan) x (read (tl scan) l)
  end.

(** Sorting: [precedes a b] says that [a] may stand before [b]; rows that
    [precedes] does not separate stay in the order they have. *)
Fixpoint insert_row {A} (precedes : A -> A -> bool) (x : A) (l : list A) : list A :=
  match l with
  | [] => [x]
  | y :: l' => if precedes x y then x :: l else y :: insert_row precedes x l'
  end.

Fixpoint sort_rows {A} (precedes : A -> A -> bool) (rows : list A) : list A :=
  match rows with
  | [] => []
  | x :: l => insert_row precedes x (sort_rows precedes l)
  end.

(** [ORDER BY]: the rows sorted, those with equal sort keys in the order
    in which this execution read them. *)
Definition order_by {A} (precedes : A -> A -> bool) (scan : scan_order) (rows : list A)
  : list A :=
  sort_rows precedes (read scan rows).

(** OFFSET and LIMIT are PostgreSQL [bigint]s. *)
Definition bigint_max : Z := 9223372036854775807.

(** [.offset(skip).limit(limit).all()]; PostgreSQL rejects a negative
    OFFSET or LIMIT and one beyond [bigint]. *)
Definition offset_limit {A} (skip limit : Z) (rows : list A) : outcome (list A) :=
  if (skip <? 0) || (limit <? 0) || (bigint_max <? skip) || (bigint_max <? limit)
  then Raised DataError
  else Returned (firstn (Z.to_nat limit) (skipn (Z.to_nat skip) rows)).

(** Comparison of a nullable column with a value: NULL never satisfies a
    WHERE clause. *)
Definition col_test {A} (p : A -> bool) (c : option A) : bool :=
  match c with
  | Some v => p v
  | None => false
  end.

(** [ORDER BY col DESC] on a NOT NULL timestamp column. *)
Definition desc {A} (key : A -> Z) (a b : A) : bool := key b <=? key a.

(** The items of a list query, or nothing when it raised. *)
Definition items {A} (r : outcome (list A * Z)) : list A :=
  match r with
  | Returned (l, _) => l
  | Raised _ => []
  end.

(** ** Update and create payloads ([app/schemas])

    A pydantic model remembers which of its fields the caller supplied;
    [model_dump(exclude_unset=True)] is the dict of exactly those.  Such a
    dict has one slot per declared field of the schema, [Provided v] when
    the key is present (with [v = None] for an explicit null) and [Omitted]
    when it is not.  Keys the schema does not declare are dropped by
    pydantic and never reach the dict. *)

Inductive field (A : Type) : Type :=
| Omitted
| Provided (v : A).
Arguments Omitted {A}.

(** A Python [datetime] of a payload.  It is naive, and then the time stamp
    it writes, or it carries a UTC offset.  What an offset-aware datetime
    stores in a [DateTime] column (a time stamp without time zone) is its
    instant read in the time zone of the database session; [aware t] is the
    offset-aware datetime of which PostgreSQL makes the time stamp [t]. *)
Inductive datetime : Type :=
| naive (t : Z)
| aware (t : Z).

(** The time stamp PostgreSQL stores for a datetime. *)
Definition timestamp (d : datetime) : Z :=
  match d with
  | naive t => t
  | aware t => t
  end.

(** [d == column] in Python, for a loaded column value: an offset-aware
    datetime is never equal to a naive one. *)
Definition datetime_eqb (d : datetime) (column : Z) : bool :=
  match d with
  | naive t => t =? column
  | aware _ => false
  end.

Module ContactCreate.
Record t := mk {
  first_name : string;
  last_name : string;
  email : option string;
  phone : option string;
  company : option string;
  job_title : option string;
  status : ContactStatus.t;
  source : option string;
  owner_id : option Z;
  tags : list string;
  notes : option string;
  next_action : option datetime
}.
End ContactCreate.

Module InteractionCreate.
Record t := mk {
  contact_id : Z;
  type : InteractionType.t;
  occurred_at : datetime;
  summary : string;
  outcome : option string;
  created_by : option string
}.
End InteractionCreate.

Module ProposalCreate.
Record t := mk {
  contact_id : Z;
  title : string;
  description : option string;
  value : option Z;
  status : ProposalStatus.t;
  applied_at : option datetime;
  expires_at : option datetime
}.
End ProposalCreate.

Module ActionCreate.
Record t := mk {
  contact_id : Z;
  proposal_id : option Z;
  interaction_id : option Z;
  title : string;
  description : option string;
  status : ActionStatus.t;
  priority : ActionPriority.t;
  action_type : ActionType.t;
  due_at : option datetime;
  assigned_to : option Z
}.
End ActionCreate.


Module ContactUpdate.
Record t := mk {
  first_name : field (option string);
  last_name : field (option string);
  email : field (option string);
  phone : field (option string);
  company : field (option string);
  job_title : field (option string);
  status : field (option ContactStatus.t);
  source : field (option string);
  owner_id : field (option Z);
  tags : field (option (list string));
  notes : field (option string);
  next_action : field (option datetime)
}.
End ContactUpdate.

Module InteractionUpdate.
Record t := mk {
  type : field (option InteractionType.t);
  occurred_at : field (option datetime);
  summary : field (option string);
  outcome : field (option string);
  created_by : field (option string)
}.
End InteractionUpdate.

Module ProposalUpdate.
Record t := mk {
  title : field (option string);
  description : field (option string);
  value : field (option Z);
  status : field (option ProposalStatus.t);
  applied_at : field (option datetime);
  expires_at : field (option datetime)
}.
End ProposalUpdate.

Module ActionUpdate.
Record t := mk {
  title : field (option string);
  description : field (option string);
  status : field (option ActionStatus.t);
  priority : field (option ActionPriority.t);
  action_type : field (option ActionType.t);
  due_at : field (option datetime);
  completed_at : field (option datetime);
  assigned_to : field (option Z);
  proposal_id : field (option Z);
  interaction_id : field (option Z)
}.
End ActionUpdate.

(** ** Writing through the ORM *)

(** [setattr(row, field, value)] for a key of the dict, on a nullable
    column. *)
Definition setattr {A} (slot : field (option A)) (current : option A) : option A :=
  match slot with
  | Provided v => v
  | Omitted => current
  end.

(** The same on a NOT NULL column.  The assignment of [None] itself
    passes; the UPDATE sent by [db.commit()] then violates the constraint.
    Nothing touches the store in between, so the model raises here. *)
Definition setattr_not_null {A} (slot : field (option A)) (current : A) : outcome A :=
  match slot with
  | Provided (Some v) => Returned v
  | Provided None => Raised IntegrityError
  | Omitted => Returned current
  end.

(** The two again, for a column whose type turns the Python value [v] into
    the stored value [store v]. *)
Definition setattr_as {P A} (store : P -> A) (slot : field (option P))
    (current : option A) : option A :=
  match slot with
  | Provided (Some v) => Some (store v)
  | Provided None => None
  | Omitted => current
  end.

Definition setattr_not_null_as {P A} (store : P -> A) (slot : field (option P))
    (current : A) : outcome A :=
  match slot with
  | Provided (Some v) => Returned (store v)
  | Provided None => Raised IntegrityError
  | Omitted => Returned current
  end.

(** The unit of work: at the flush an attribute that was set counts as
    changed when its value differs from the loaded one ([==] in Python,
    [eqb] here); an UPDATE is emitted, and [onupdate=func.now()] fires,
    only when some attribute changed. *)
Definition differs {P A} (eqb : P -> A -> bool) (slot : field (option P))
    (current : option A) : bool :=
  match slot, current with
  | Omitted, _ => false
  | Provided None, None => false
  | Provided (Some v), Some c => negb (eqb v c)
  | Provided None, Some _ => true
  | Provided (Some _), None => true
  end.

Definition differs_not_null {P A} (eqb : P -> A -> bool) (slot : field (option P))
    (current : A) : bool :=
  match slot with
  | Omitted => false
  | Provided None => true
  | Provided (Some v) => negb (eqb v current)
  end.

(** [==] on lists of strings. *)
Definition tags_eqb (l1 l2 : list string) : bool :=
  if list_eq_dec string_dec l1 l2 then true else false.

(** ** Ranges of the column types *)

(** An [Integer] column is a PostgreSQL [integer]. *)
Definition fits_integer (v : Z) : bool := (-2147483648 <=? v) && (v <=? 2147483647).

(** A Decimal, in hundredths, that a [Numeric(10, 2)] column can hold. *)
Definition fits_numeric_10_2 (v : Z) : bool := Z.abs v <? 10000000000.

(** A value written into a column, NULL or within the range. *)
Definition in_range {A} (fits : A -> bool) (v : option A) : bool :=
  match v with
  | Some x => fits x
  | None => true
  end.

(** A changed attribute whose new value its column cannot hold: the UPDATE
    that writes it fails with a DataError, before any constraint is
    looked at. *)
Definition overflows {A} (fits : A -> bool) (eqb : A -> A -> bool)
    (slot : field (option A)) (current : option A) : bool :=
  differs eqb slot current
  && match slot with
     | Provided v => negb (in_range fits v)
     | Omitted => false
     end.

(** [CAST(... AS VARCHAR(n))]: the first [n] characters. *)
Fixpoint varchar (n : nat) (s : string) : string :=
  match n, s with
  | S n', String c s' => String c (varchar n' s')
  | _, _ => EmptyString
  end.

(** The bind cast of a value for [Contact.tags], an [ARRAY(String(10))]:
    [CAST(... AS VARCHAR(10)[])] cuts every element. *)
Definition varchar_10_array (tags : list string) : list string :=
  map (varchar 10) tags.

(** ** LIKE and ILIKE *)

(** [textlike value pattern] is [value LIKE pattern]: [%] stands for any
    sequence of characters, [_] for any one character, and a backslash
    takes the next character of the pattern literally.  (PostgreSQL
    raises on a pattern that ends in a single backslash; a pattern
    [%term%] never does.) *)
Definition percent : ascii := ascii_of_nat 37.
Definition underscore : ascii := ascii_of_nat 95.
Definition backslash : ascii := ascii_of_nat 92.

Fixpoint textlike_from (pattern : string) : string -> bool :=
  match pattern with
  | EmptyString =>
      fun value => match value with
                   | EmptyString => true
                   | String _ _ => false
                   end
  | String p rest =>
      if Ascii.eqb p percent then
        fix any (value : string) : bool :=
          textlike_from rest value
          || match value with
             | EmptyString => false
             | String _ value' => any value'
             end
      else if Ascii.eqb p underscore then
        fun value => match value with
                     | EmptyString => false
                     | String _ value' => textlike_from rest value'
                     end
      else if Ascii.eqb p backslash then
        match rest with
        | EmptyString => fun _ => false
        | String q rest' =>
            fun value => match value with
                         | EmptyString => false
                         | String c value' => Ascii.eqb q c && textlike_from rest' value'
                         end
        end
      else
        fun value => match value with
                     | EmptyString => false
                     | String c value' => Ascii.eqb p c && textlike_from rest value'
                     end
  end.

Definition textlike (value pattern : string) : bool := textlike_from pattern value.

(** Lower case, of the letters A to Z. *)
Definition lower (c : ascii) : ascii :=
  let n := nat_of_ascii c in
  if ((65 <=? n) && (n <=? 90))%nat then ascii_of_nat (n + 32) else c.

Fixpoint lower_string (s : string) : string :=
  match s with
  | EmptyString => EmptyString
  | String c s' => String (lower c) (lower_string s')
  end.

(** [texticlike value pattern] is [value ILIKE pattern]: LIKE on the lower
    case of both. *)
Definition texticlike (value pattern : string) : bool :=
  textlike (lower_string value) (lower_string pattern).

(** A foreign key holds when it is NULL or names a row of the parent
    table. *)
Definition references {A} (id : A -> Z) (parent : list A) (fk : option Z) : bool :=
  match fk with
  | Some k => existsb (fun r => id r =? k) parent
  | None => true
  end.

(** ** Grouped queries and the dicts built from them *)

(** [db.query(select_col, aggregate).group_by(group_col).all()].  PostgreSQL
    rejects the statement when the plain column of the select list is not
    the grouped one.  Otherwise there is one result row per value of the
    grouped column that occurs; [labels] lists the values of the column's
    type, and the result rows come in the order in which this execution
    produces the groups. *)
Definition select_group_by {R S G A} (select_col group_col : string)
    (select : R -> S) (group : R -> G) (labels : list G) (eqb : G -> G -> bool)
    (aggregate : list R -> A) (scan : scan_order) (rows : list R)
  : outcome (list (S * A)) :=
if String.eqb select_col group_col
then Returned
       (read scan
          (flat_map (fun g => match filter (fun r => eqb (group r) g) rows with
                              | [] => []
                              | r :: rest => [(select r, aggregate (r :: rest))]
                              end)
                    labels))
else Raised ProgrammingError.

(** [func.sum(column)]: NULL when no row has a value. *)
Definition sql_sum {R} (column : R -> option Z) (rows : list R) : option Z :=
fold_left (fun acc r => match column r, acc with
                        | Some v, Some s => Some (s + v)
                        | Some v, None => Some v
                        | None, _ => acc
                        end)
          rows None.

(** A Python dict: its items in insertion order, keys distinct. *)
Definition dict (K V : Type) : Type := list (K * V).

Fixpoint dict_set {K V} (eqb : K -> K -> bool) (d : dict K V) (k : K) (v : V) : dict K V :=
match d with
| [] => [(k, v)]
| (k', v') :: d' => if eqb k' k then (k, v) :: d' else (k', v') :: dict_set eqb d' k v
end.

(** [d.get(k, default)]. *)
Fixpoint dict_get {K V} (eqb : K -> K -> bool) (d : dict K V) (k : K) (default : V) : V :=
match d with
| [] => default
| (k', v') :: d' => if eqb k' k then v' else dict_get eqb d' k default
end.

(** [d.values()]. *)
Definition values {K V} (d : dict K V) : list V := map snd d.

(** [{key: f(x) for key, x in results}]. *)
Definition dict_comprehension {K X V} (eqb : K -> K -> bool) (f : X -> V)
    (results : list (K * X)) : dict K V :=
fold_left (fun d kx => dict_set eqb d (fst kx) (f (snd kx))) results [].

(** [sum(d.values())] on ints. *)
Definition sum (l : list Z) : Z := fold_left Z.add l 0.

(** ** The unit of work: UPDATE and DELETE as the session flushes them *)

Definition with_contacts (db : Store) (rows : list Contact.t) : Store :=
mkStore rows (interactions db) (proposals db) (actions db).

Definition with_interactions (db : Store) (rows : list Interaction.t) : Store :=
mkStore (contacts db) rows (proposals db) (actions db).

Definition with_proposals (db : Store) (rows : list Proposal.t) : Store :=
mkStore (contacts db) (interactions db) rows (actions db).

Definition with_actions (db : Store) (rows : list Action.t) : Store :=
mkStore (contacts db) (interactions db) (proposals db) rows.

(** [UPDATE table SET ... WHERE table.id = key]. *)
Definition update_where_id {A} (id : A -> Z) (key : Z) (row : A) (rows : list A) : list A :=
map (fun r => if id r =? key then row else r) rows.

(** [DELETE FROM table WHERE table.id = key]. *)
Definition delete_where_id {A} (id : A -> Z) (key : Z) (rows : list A) : list A :=
filter (fun r => negb (id r =? key)) rows.

(** Rows of a child table whose foreign key [fk] names [key]. *)
Definition fk_is (key : Z) (fk : option Z) : bool :=
match fk with
| Some k => k =? key
| None => false
end.

(** [db.delete(interaction)]: [Interaction.actions] cascades
    ("all, delete-orphan"), and so does the foreign key
    [actions.interaction_id] (ondelete CASCADE). *)
Definition delete_interaction_row (db : Store) (i : Interaction.t) : Store :=
let db := with_actions db
            (filter (fun a => negb (fk_is (Interaction.id i) (Action.interaction_id a)))
                    (actions db)) in
with_interactions db (delete_where_id Interaction.id (Interaction.id i) (interactions db)).

(** [db.delete(proposal)]: [Proposal.actions] cascades, and so does the
    foreign key [actions.proposal_id]. *)
Definition delete_proposal_row (db : Store) (p : Proposal.t) : Store :=
let db := with_actions db
            (filter (fun a => negb (fk_is (Proposal.id p) (Action.proposal_id a)))
                    (actions db)) in
with_proposals db (delete_where_id Proposal.id (Proposal.id p) (proposals db)).

(** [db.delete(contact)]: [Contact.interactions], [Contact.proposals] and
    [Contact.actions] cascade, each child being deleted through the session
    with its own cascades; the three foreign keys on [contacts.id] cascade
    too. *)
Definition delete_contact_row (db : Store) (c : Contact.t) : Store :=
let key := Contact.id c in
let db := fold_left delete_interaction_row
            (filter (fun i => Interaction.contact_id i =? key) (interactions db)) db in
let db := fold_left delete_proposal_row
            (filter (fun p => Proposal.contact_id p =? key) (proposals db)) db in
let db := with_actions db
            (filter (fun a => negb (Action.contact_id a =? key)) (actions db)) in
with_contacts db (delete_where_id Contact.id key (contacts db)).

(** ** Time arithmetic *)

(** [timedelta(days=days)] on the time line, which counts microseconds;
    [days] is within the range of [timedelta] and the sums and differences
    taken with it stay within the range of [datetime]. *)
Definition timedelta_days (days : Z) : Z := days * 86400000000.


(** ** [app/crud/contact.py] *)

Module contact_crud.

Definition get_contact (db : Store) (contact_id : Z) : option Contact.t :=
  first (filter (fun c => Contact.id c =? contact_id) (contacts db)).

Definition get_contact_by_email (db : Store) (email : string) : option Contact.t :=
  first (filter (fun c => col_test (String.eqb email) (Contact.email c)) (contacts db)).

(** [Contact.tags.contains(tags)] is PostgreSQL's [@>] with the bound
    value cast to the type of the column: every element of the right-hand
    array, cut to 10 characters, occurs in the column. *)
Definition contains (column : list string) (tags : list string) : bool :=
  forallb (fun t => existsb (String.eqb t) column) (varchar_10_array tags).

Section Search.
(** [ilike column_value pattern] is PostgreSQL's [ILIKE] operator. *)
Variable ilike : string -> string -> bool.

(** The [query] of [get_contacts] once its filters are applied. *)
Definition get_contacts_query (db : Store)
    (status : option ContactStatus.t) (search : option string)
    (tags : option (list string)) : list Contact.t :=
  let query := contacts db in
  let query :=
    match status with
    | Some s => filter (fun c => ContactStatus.eqb (Contact.status c) s) query
    | None => query
    end in
  let query :=
    match truthy_str search with
    | Some s =>
        let search_pattern := ("%" ++ s ++ "%")%string in
        filter (fun c =>
                  ilike (Contact.first_name c) search_pattern
                  || ilike (Contact.last_name c) search_pattern
                  || col_test (fun e => ilike e search_pattern) (Contact.email c)
                  || col_test (fun e => ilike e search_pattern) (Contact.company c))
               query
    | None => query
    end in
  let query :=
    match truthy_list tags with
    | Some ts => filter (fun c => col_test (fun column => contains column ts) (Contact.tags c)) query
    | None => query
    end in
  query.

Definition get_contacts (db : Store) (scan : scan_order) (skip limit : Z)
    (status : option ContactStatus.t) (search : option string)
    (tags : option (list string)) : outcome (list Contact.t * Z) :=
  let query := get_contacts_query db status search tags in
  let total := count query in
  contacts <- offset_limit skip limit (order_by (desc Contact.created_at) scan query) ;;
  Returned (contacts, total).
End Search.

(** [new_id] is the value drawn from the [contacts.id] sequence and [now]
    the value of [func.now()] in the INSERT.  [db_contact] is the row as
    the INSERT writes it: the tags are cut by their bind cast.  The INSERT
    fails with a DataError on an integer out of range, and otherwise with
    an IntegrityError on a taken id or email. *)
Definition create_contact (db : Store) (now new_id : Z) (contact : ContactCreate.t)
  : Store * outcome Contact.t :=
let db_contact :=
  Contact.mk new_id
    (ContactCreate.first_name contact) (ContactCreate.last_name contact)
    (ContactCreate.email contact) (ContactCreate.phone contact)
    (ContactCreate.company contact) (ContactCreate.job_title contact)
    (ContactCreate.status contact) (ContactCreate.source contact)
    (ContactCreate.owner_id contact)
    (Some (varchar_10_array (ContactCreate.tags contact)))
    (ContactCreate.notes contact)
    (option_map timestamp (ContactCreate.next_action contact))
    now now in
if negb (fits_integer new_id)
   || negb (in_range fits_integer (ContactCreate.owner_id contact))
then (db, Raised DataError)
else if existsb (fun c => Contact.id c =? new_id) (contacts db)
        || col_test (fun e => existsb (fun c => col_test (String.eqb e) (Contact.email c))
                                      (contacts db))
                    (Contact.email db_contact)
then (db, Raised IntegrityError)
else (with_contacts db (contacts db ++ [db_contact]), Returned db_contact).

(** The loop [for field, value in update_data.items(): setattr(...)], read
    as the row that the UPDATE of the changed attributes leaves: the tags
    are cut by their bind cast, a datetime is stored as a time stamp. *)
Definition setattrs (db_contact : Contact.t) (update_data : ContactUpdate.t)
  : outcome Contact.t :=
first_name <- setattr_not_null (ContactUpdate.first_name update_data)
                               (Contact.first_name db_contact) ;;
last_name <- setattr_not_null (ContactUpdate.last_name update_data)
                              (Contact.last_name db_contact) ;;
status <- setattr_not_null (ContactUpdate.status update_data)
                           (Contact.status db_contact) ;;
Returned
  (Contact.mk (Contact.id db_contact) first_name last_name
     (setattr (ContactUpdate.email update_data) (Contact.email db_contact))
     (setattr (ContactUpdate.phone update_data) (Contact.phone db_contact))
     (setattr (ContactUpdate.company update_data) (Contact.company db_contact))
     (setattr (ContactUpdate.job_title update_data) (Contact.job_title db_contact))
     status
     (setattr (ContactUpdate.source update_data) (Contact.source db_contact))
     (setattr (ContactUpdate.owner_id update_data) (Contact.owner_id db_contact))
     (setattr_as varchar_10_array (ContactUpdate.tags update_data) (Contact.tags db_contact))
     (setattr (ContactUpdate.notes update_data) (Contact.notes db_contact))
     (setattr_as timestamp (ContactUpdate.next_action update_data)
                 (Contact.next_action db_contact))
     (Contact.created_at db_contact) (Contact.updated_at db_contact)).

(** Whether the loop left an attribute with a value other than the loaded
    one. *)
Definition modified (db_contact : Contact.t) (update_data : ContactUpdate.t) : bool :=
differs_not_null String.eqb (ContactUpdate.first_name update_data)
                 (Contact.first_name db_contact)
|| differs_not_null String.eqb (ContactUpdate.last_name update_data)
                    (Contact.last_name db_contact)
|| differs String.eqb (ContactUpdate.email update_data) (Contact.email db_contact)
|| differs String.eqb (ContactUpdate.phone update_data) (Contact.phone db_contact)
|| differs String.eqb (ContactUpdate.company update_data) (Contact.company db_contact)
|| differs String.eqb (ContactUpdate.job_title update_data) (Contact.job_title db_contact)
|| differs_not_null ContactStatus.eqb (ContactUpdate.status update_data)
                    (Contact.status db_contact)
|| differs String.eqb (ContactUpdate.source update_data) (Contact.source db_contact)
|| differs Z.eqb (ContactUpdate.owner_id update_data) (Contact.owner_id db_contact)
|| differs tags_eqb (ContactUpdate.tags update_data) (Contact.tags db_contact)
|| differs String.eqb (ContactUpdate.notes update_data) (Contact.notes db_contact)
|| differs datetime_eqb (ContactUpdate.next_action update_data)
           (Contact.next_action db_contact).

(** Whether a changed attribute is out of the range of its column. *)
Definition out_of_range (db_contact : Contact.t) (update_data : ContactUpdate.t) : bool :=
overflows fits_integer Z.eqb (ContactUpdate.owner_id update_data)
          (Contact.owner_id db_contact).

Definition set_updated_at (c : Contact.t) (now : Z) : Contact.t :=
Contact.mk (Contact.id c) (Contact.first_name c) (Contact.last_name c)
  (Contact.email c) (Contact.phone c) (Contact.company c) (Contact.job_title c)
  (Contact.status c) (Contact.source c) (Contact.owner_id c) (Contact.tags c)
  (Contact.notes c) (Contact.next_action c) (Contact.created_at c) now.

(** [db.commit(); db.refresh(db_contact)] after the attribute writes:
    [loaded] is the row as read and [update_data] what was written over
    it.  Nothing is sent when no attribute changed.  Otherwise the UPDATE
    fails with a DataError on a value out of range, with an IntegrityError
    on a null in a NOT NULL column or on the email of another contact, or
    it stores the row with [updated_at] refreshed. *)
Definition commit_update (db : Store) (now : Z) (loaded : Contact.t)
    (update_data : ContactUpdate.t) : Store * outcome (option Contact.t) :=
if negb (modified loaded update_data) then (db, Returned (Some loaded))
else if out_of_range loaded update_data then (db, Raised DataError)
else
  match setattrs loaded update_data with
  | Raised e => (db, Raised e)
  | Returned edited =>
      if col_test (fun e => existsb (fun c => negb (Contact.id c =? Contact.id loaded)
                                              && col_test (String.eqb e) (Contact.email c))
                                    (contacts db))
                  (Contact.email edited)
      then (db, Raised IntegrityError)
      else
        let stored := set_updated_at edited now in
        (with_contacts db
           (update_where_id Contact.id (Contact.id loaded) stored (contacts db)),
         Returned (Some stored))
  end.

Definition update_contact (db : Store) (now : Z) (contact_id : Z)
    (contact_update : ContactUpdate.t) : Store * outcome (option Contact.t) :=
match get_contact db contact_id with
| None => (db, Returned None)
| Some db_contact =>
    let update_data := contact_update in
    commit_update db now db_contact update_data
end.

Definition delete_contact (db : Store) (contact_id : Z) : Store * bool :=
match get_contact db contact_id with
| None => (db, false)
| Some db_contact => (delete_contact_row db db_contact, true)
end.

Definition get_contacts_by_status (db : Store) (scan : scan_order)
    (status : ContactStatus.t) (skip limit : Z) : outcome (list Contact.t) :=
offset_limit skip limit
  (order_by (desc Contact.created_at) scan
     (filter (fun c => ContactStatus.eqb (Contact.status c) status) (contacts db))).

Section SearchTerm.
Variable ilike : string -> string -> bool.

End SearchTerm.

Definition count_contacts_by_status (db : Store) (scan : scan_order)
  : outcome (dict ContactStatus.t Z) :=
results <- select_group_by "status" "status" Contact.status Contact.status
             ContactStatus.members ContactStatus.eqb (@count Contact.t) scan
             (contacts db) ;;
Returned (dict_comprehension ContactStatus.eqb (fun count => count) results).

End contact_crud.

(** ** [app/crud/interaction.py] *)

Module interaction_crud.

Definition get_interaction (db : Store) (interaction_id : Z) : option Interaction.t :=
  first (filter (fun i => Interaction.id i =? interaction_id) (interactions db)).

(** A [datetime] is always truthy, so [if start_date:] only tests for
    [None]. *)
Definition get_interactions_query (db : Store) (contact_id : option Z)
    (interaction_type : option InteractionType.t)
    (start_date end_date : option Z) : list Interaction.t :=
  let query := interactions db in
  let query :=
    match truthy_int contact_id with
    | Some c => filter (fun i => Interaction.contact_id i =? c) query
    | None => query
    end in
  let query :=
    match interaction_type with
    | Some t => filter (fun i => InteractionType.eqb (Interaction.type i) t) query
    | None => query
    end in
  let query :=
    match start_date with
    | Some d => filter (fun i => d <=? Interaction.occurred_at i) query
    | None => query
    end in
  let query :=
    match end_date with
    | Some d => filter (fun i => Interaction.occurred_at i <=? d) query
    | None => query
    end in
  query.

Definition get_interactions (db : Store) (scan : scan_order) (skip limit : Z)
    (contact_id : option Z) (interaction_type : option InteractionType.t)
    (start_date end_date : option Z) : outcome (list Interaction.t * Z) :=
  let query := get_interactions_query db contact_id interaction_type start_date end_date in
  let total := count query in
  interactions <- offset_limit skip limit
                    (order_by (desc Interaction.occurred_at) scan query) ;;
  Returned (interactions, total).

Definition setattrs (db_interaction : Interaction.t) (update_data : InteractionUpdate.t)
  : outcome Interaction.t :=
type <- setattr_not_null (InteractionUpdate.type update_data)
                         (Interaction.type db_interaction) ;;
occurred_at <- setattr_not_null_as timestamp (InteractionUpdate.occurred_at update_data)
                                   (Interaction.occurred_at db_interaction) ;;
summary <- setattr_not_null (InteractionUpdate.summary update_data)
                            (Interaction.summary db_interaction) ;;
Returned
  (Interaction.mk (Interaction.id db_interaction) (Interaction.contact_id db_interaction)
     type occurred_at summary
     (setattr (InteractionUpdate.outcome update_data) (Interaction.outcome db_interaction))
     (setattr (InteractionUpdate.created_by update_data)
              (Interaction.created_by db_interaction))
     (Interaction.created_at db_interaction) (Interaction.updated_at db_interaction)).

Definition set_updated_at (i : Interaction.t) (now : Z) : Interaction.t :=
Interaction.mk (Interaction.id i) (Interaction.contact_id i) (Interaction.type i)
  (Interaction.occurred_at i) (Interaction.summary i) (Interaction.outcome i)
  (Interaction.created_by i) (Interaction.created_at i) now.

Definition modified (db_interaction : Interaction.t) (update_data : InteractionUpdate.t)
  : bool :=
differs_not_null InteractionType.eqb (InteractionUpdate.type update_data)
                 (Interaction.type db_interaction)
|| differs_not_null datetime_eqb (InteractionUpdate.occurred_at update_data)
                    (Interaction.occurred_at db_interaction)
|| differs_not_null String.eqb (InteractionUpdate.summary update_data)
                    (Interaction.summary db_interaction)
|| differs String.eqb (InteractionUpdate.outcome update_data)
           (Interaction.outcome db_interaction)
|| differs String.eqb (InteractionUpdate.created_by update_data)
           (Interaction.created_by db_interaction).

(** [db.commit(); db.refresh(db_interaction)]: nothing is sent when no
    attribute changed; otherwise the UPDATE fails on a null in a NOT NULL
    column or stores the row with [updated_at] refreshed. *)
Definition commit_update (db : Store) (now : Z) (loaded : Interaction.t)
    (update_data : InteractionUpdate.t) : Store * outcome (option Interaction.t) :=
if negb (modified loaded update_data) then (db, Returned (Some loaded))
else
  match setattrs loaded update_data with
  | Raised e => (db, Raised e)
  | Returned edited =>
      let stored := set_updated_at edited now in
      (with_interactions db
         (update_where_id Interaction.id (Interaction.id loaded) stored (interactions db)),
       Returned (Some stored))
  end.

Definition update_interaction (db : Store) (now : Z) (interaction_id : Z)
    (interaction_update : InteractionUpdate.t) : Store * outcome (option Interaction.t) :=
match get_interaction db interaction_id with
| None => (db, Returned None)
| Some db_interaction =>
    let update_data := interaction_update in
    commit_update db now db_interaction update_data
end.

Definition delete_interaction (db : Store) (interaction_id : Z) : Store * bool :=
match get_interaction db interaction_id with
| None => (db, false)
| Some db_interaction => (delete_interaction_row db db_interaction, true)
end.

(** [new_id] is the value drawn from the [interactions.id] sequence and
    [now] the value of [func.now()] in the INSERT.  The INSERT fails with a
    DataError on an integer out of range, and otherwise with an
    IntegrityError on a taken id or on a [contact_id] that names no
    contact. *)
Definition create_interaction (db : Store) (now new_id : Z)
    (interaction : InteractionCreate.t) : Store * outcome Interaction.t :=
let db_interaction :=
  Interaction.mk new_id
    (InteractionCreate.contact_id interaction) (InteractionCreate.type interaction)
    (timestamp (InteractionCreate.occurred_at interaction))
    (InteractionCreate.summary interaction)
    (InteractionCreate.outcome interaction) (InteractionCreate.created_by interaction)
    now now in
if negb (fits_integer new_id)
   || negb (fits_integer (InteractionCreate.contact_id interaction))
then (db, Raised DataError)
else if existsb (fun i => Interaction.id i =? new_id) (interactions db)
        || negb (references Contact.id (contacts db)
                            (Some (Interaction.contact_id db_interaction)))
then (db, Raised IntegrityError)
else (with_interactions db (interactions db ++ [db_interaction]), Returned db_interaction).

Definition get_interactions_by_contact (db : Store) (scan : scan_order)
    (contact_id : Z) (skip limit : Z) : outcome (list Interaction.t) :=
offset_limit skip limit
  (order_by (desc Interaction.occurred_at) scan
     (filter (fun i => Interaction.contact_id i =? contact_id) (interactions db))).

(** [now] is the value of [datetime.now()] at the call. *)
Definition get_recent_interactions (db : Store) (scan : scan_order) (now : Z)
    (days limit : Z) : outcome (list Interaction.t) :=
let cutoff_date := now - timedelta_days days in
offset_limit 0 limit
  (order_by (desc Interaction.occurred_at) scan
     (filter (fun i => cutoff_date <=? Interaction.occurred_at i) (interactions db))).

Definition count_interactions_by_type (db : Store) (scan : scan_order)
    (contact_id : option Z) : outcome (dict InteractionType.t Z) :=
let query := interactions db in
let query :=
  match truthy_int contact_id with
  | Some c => filter (fun i => Interaction.contact_id i =? c) query
  | None => query
  end in
results <- select_group_by "type" "type" Interaction.type Interaction.type
             InteractionType.members InteractionType.eqb (@count Interaction.t) scan
             query ;;
Returned (dict_comprehension InteractionType.eqb (fun count => count) results).

End interaction_crud.

(** ** [app/crud/proposal.py] *)

Module proposal_crud.

Definition get_proposal (db : Store) (proposal_id : Z) : option Proposal.t :=
  first (filter (fun p => Proposal.id p =? proposal_id) (proposals db)).

Section Bounds.
(** [min_value] and [max_value] are Python floats; [numeric_ge v b] and
    [numeric_le v b] are PostgreSQL's [>=] and [<=] between a NUMERIC
    column value [v] (in hundredths) and such a bound. *)
Variable float : Type.
Variable numeric_ge numeric_le : Z -> float -> bool.

Definition get_proposals_query (db : Store) (contact_id : option Z)
    (status : option ProposalStatus.t)
    (min_value max_value : option float) : list Proposal.t :=
  let query := proposals db in
  let query :=
    match truthy_int contact_id with
    | Some c => filter (fun p => Proposal.contact_id p =? c) query
    | None => query
    end in
  let query :=
    match status with
    | Some s => filter (fun p => ProposalStatus.eqb (Proposal.status p) s) query
    | None => query
    end in
  let query :=
    match min_value with
    | Some b => filter (fun p => col_test (fun v => numeric_ge v b) (Proposal.value p)) query
    | None => query
    end in
  let query :=
    match max_value with
    | Some b => filter (fun p => col_test (fun v => numeric_le v b) (Proposal.value p)) query
    | None => query
    end in
  query.

Definition get_proposals (db : Store) (scan : scan_order) (skip limit : Z)
    (contact_id : option Z) (status : option ProposalStatus.t)
    (min_value max_value : option float) : outcome (list Proposal.t * Z) :=
  let query := get_proposals_query db contact_id status min_value max_value in
  let total := count query in
  proposals <- offset_limit skip limit (order_by (desc Proposal.created_at) scan query) ;;
  Returned (proposals, total).
End Bounds.

Definition setattrs (db_proposal : Proposal.t) (update_data : ProposalUpdate.t)
  : outcome Proposal.t :=
title <- setattr_not_null (ProposalUpdate.title update_data)
                          (Proposal.title db_proposal) ;;
status <- setattr_not_null (ProposalUpdate.status update_data)
                           (Proposal.status db_proposal) ;;
Returned
  (Proposal.mk (Proposal.id db_proposal) (Proposal.contact_id db_proposal) title
     (setattr (ProposalUpdate.description update_data) (Proposal.description db_proposal))
     (setattr (ProposalUpdate.value update_data) (Proposal.value db_proposal))
     status
     (setattr_as timestamp (ProposalUpdate.applied_at update_data)
                 (Proposal.applied_at db_proposal))
     (Proposal.created_at db_proposal) (Proposal.updated_at db_proposal)
     (setattr_as timestamp (ProposalUpdate.expires_at update_data)
                 (Proposal.expires_at db_proposal))).

Definition set_updated_at (p : Proposal.t) (now : Z) : Proposal.t :=
Proposal.mk (Proposal.id p) (Proposal.contact_id p) (Proposal.title p)
  (Proposal.description p) (Proposal.value p) (Proposal.status p)
  (Proposal.applied_at p) (Proposal.created_at p) now (Proposal.expires_at p).

Definition modified (db_proposal : Proposal.t) (update_data : ProposalUpdate.t) : bool :=
differs_not_null String.eqb (ProposalUpdate.title update_data) (Proposal.title db_proposal)
|| differs String.eqb (ProposalUpdate.description update_data)
           (Proposal.description db_proposal)
|| differs Z.eqb (ProposalUpdate.value update_data) (Proposal.value db_proposal)
|| differs_not_null ProposalStatus.eqb (ProposalUpdate.status update_data)
                    (Proposal.status db_proposal)
|| differs datetime_eqb (ProposalUpdate.applied_at update_data)
           (Proposal.applied_at db_proposal)
|| differs datetime_eqb (ProposalUpdate.expires_at update_data)
           (Proposal.expires_at db_proposal).

Definition out_of_range (db_proposal : Proposal.t) (update_data : ProposalUpdate.t)
  : bool :=
overflows fits_numeric_10_2 Z.eqb (ProposalUpdate.value update_data)
          (Proposal.value db_proposal).

(** [db.commit(); db.refresh(db_proposal)]: nothing is sent when no
    attribute changed; otherwise the UPDATE fails with a DataError on a
    value out of range, with an IntegrityError on a null in a NOT NULL
    column, or stores the row with [updated_at] refreshed. *)
Definition commit_update (db : Store) (now : Z) (loaded : Proposal.t)
    (update_data : ProposalUpdate.t) : Store * outcome (option Proposal.t) :=
if negb (modified loaded update_data) then (db, Returned (Some loaded))
else if out_of_range loaded update_data then (db, Raised DataError)
else
  match setattrs loaded update_data with
  | Raised e => (db, Raised e)
  | Returned edited =>
      let stored := set_updated_at edited now in
      (with_proposals db
         (update_where_id Proposal.id (Proposal.id loaded) stored (proposals db)),
       Returned (Some stored))
  end.

Definition update_proposal (db : Store) (now : Z) (proposal_id : Z)
    (proposal_update : ProposalUpdate.t) : Store * outcome (option Proposal.t) :=
match get_proposal db proposal_id with
| None => (db, Returned None)
| Some db_proposal =>
    let update_data := proposal_update in
    commit_update db now db_proposal update_data
end.

Definition delete_proposal (db : Store) (proposal_id : Z) : Store * bool :=
match get_proposal db proposal_id with
| None => (db, false)
| Some db_proposal => (delete_proposal_row db db_proposal, true)
end.

Definition count_proposals_by_status (db : Store) (scan : scan_order)
    (contact_id : option Z) : outcome (dict ProposalStatus.t Z) :=
let query := proposals db in
let query :=
  match truthy_int contact_id with
  | Some c => filter (fun p => Proposal.contact_id p =? c) query
  | None => query
  end in
results <- select_group_by "status" "status" Proposal.status Proposal.status
             ProposalStatus.members ProposalStatus.eqb (@count Proposal.t) scan query ;;
Returned (dict_comprehension ProposalStatus.eqb (fun count => count) results).

Section Floats.
(** Python's [float]: [float_of_decimal v] is [float(total)] for the
    Decimal worth [v] hundredths, [zero] is the literal [0.0]. *)
Variable float : Type.
Variable float_of_decimal : Z -> float.
Variable zero : float.

(** [float(total) if total else 0.0]: NULL and a zero Decimal are falsy. *)
Definition float_or_zero (total : option Z) : float :=
match total with
| Some v => if v =? 0 then zero else float_of_decimal v
| None => zero
end.

Definition get_total_value_by_status (db : Store) (scan : scan_order)
    (contact_id : option Z) : outcome (dict ProposalStatus.t float) :=
let query := proposals db in
let query :=
  match truthy_int contact_id with
  | Some c => filter (fun p => Proposal.contact_id p =? c) query
  | None => query
  end in
results <- select_group_by "status" "status" Proposal.status Proposal.status
             ProposalStatus.members ProposalStatus.eqb (sql_sum Proposal.value) scan
             query ;;
Returned (dict_comprehension ProposalStatus.eqb float_or_zero results).
End Floats.

(** [new_id] is the value drawn from the [proposals.id] sequence and [now]
    the value of [func.now()] in the INSERT.  The INSERT fails with a
    DataError on an integer or a value out of the column's range, and
    otherwise with an IntegrityError on a taken id or on a [contact_id]
    that names no contact. *)
Definition create_proposal (db : Store) (now new_id : Z) (proposal : ProposalCreate.t)
  : Store * outcome Proposal.t :=
let db_proposal :=
  Proposal.mk new_id
    (ProposalCreate.contact_id proposal) (ProposalCreate.title proposal)
    (ProposalCreate.description proposal) (ProposalCreate.value proposal)
    (ProposalCreate.status proposal)
    (option_map timestamp (ProposalCreate.applied_at proposal))
    now now (option_map timestamp (ProposalCreate.expires_at proposal)) in
if negb (fits_integer new_id)
   || negb (fits_integer (ProposalCreate.contact_id proposal))
   || negb (in_range fits_numeric_10_2 (ProposalCreate.value proposal))
then (db, Raised DataError)
else if existsb (fun p => Proposal.id p =? new_id) (proposals db)
        || negb (references Contact.id (contacts db) (Some (Proposal.contact_id db_proposal)))
then (db, Raised IntegrityError)
else (with_proposals db (proposals db ++ [db_proposal]), Returned db_proposal).

Definition get_proposals_by_contact (db : Store) (scan : scan_order) (contact_id : Z)
    (skip limit : Z) : outcome (list Proposal.t) :=
offset_limit skip limit
  (order_by (desc Proposal.created_at) scan
     (filter (fun p => Proposal.contact_id p =? contact_id) (proposals db))).

Definition get_proposals_by_status (db : Store) (scan : scan_order)
    (status : ProposalStatus.t) (skip limit : Z) : outcome (list Proposal.t) :=
offset_limit skip limit
  (order_by (desc Proposal.created_at) scan
     (filter (fun p => ProposalStatus.eqb (Proposal.status p) status) (proposals db))).

(** [ORDER BY expires_at DESC] on the nullable column: PostgreSQL puts NULL
    first in descending order. *)
Definition desc_nulls_first (x y : option Z) : bool :=
match x, y with
| Some u, Some v => v <=? u
| None, _ => true
| Some _, None => false
end.

(** [Proposal.status.in_([...])]. *)
Definition in_ (status : ProposalStatus.t) (among : list ProposalStatus.t) : bool :=
existsb (ProposalStatus.eqb status) among.

(** [now] is the value of [datetime.now(timezone.utc)] at the call. *)
Definition get_expired_proposals (db : Store) (scan : scan_order) (now : Z) (limit : Z)
  : outcome (list Proposal.t) :=
offset_limit 0 limit
  (order_by (fun a b => desc_nulls_first (Proposal.expires_at a) (Proposal.expires_at b))
     scan
     (filter (fun p => col_test (fun e => e <? now) (Proposal.expires_at p)
                       && in_ (Proposal.status p)
                              [ProposalStatus.draft; ProposalStatus.submitted])
             (proposals db))).

End proposal_crud.

(** ** [app/crud/action.py] *)

Module action_crud.

Definition get_action (db : Store) (action_id : Z) : option Action.t :=
  first (filter (fun a => Action.id a =? action_id) (actions db)).

(** [ORDER BY due_at ASC]: PostgreSQL puts NULL last in ascending order. *)
Definition asc_nulls_last (x y : option Z) : bool :=
  match x, y with
  | Some u, Some v => u <=? v
  | Some _, None => true
  | None, Some _ => false
  | None, None => true
  end.

(** [order_by(Action.priority.desc(), Action.due_at.asc())]. *)
Definition priority_desc_due_at_asc (a b : Action.t) : bool :=
  let ka := ActionPriority.sort_key (Action.priority a) in
  let kb := ActionPriority.sort_key (Action.priority b) in
  (kb <? ka) || ((ka =? kb) && asc_nulls_last (Action.due_at a) (Action.due_at b)).

(** [now] is the value of [datetime.now(timezone.utc)] at the call. *)
Definition get_actions_query (db : Store) (now : Z) (contact_id : option Z)
    (status : option ActionStatus.t) (priority : option ActionPriority.t)
    (action_type : option ActionType.t) (assigned_to : option Z)
    (overdue_only : bool) : list Action.t :=
  let query := actions db in
  let query :=
    match truthy_int contact_id with
    | Some c => filter (fun a => Action.contact_id a =? c) query
    | None => query
    end in
  let query :=
    match status with
    | Some s => filter (fun a => ActionStatus.eqb (Action.status a) s) query
    | None => query
    end in
  let query :=
    match priority with
    | Some p => filter (fun a => ActionPriority.eqb (Action.priority a) p) query
    | None => query
    end in
  let query :=
    match action_type with
    | Some t => filter (fun a => ActionType.eqb (Action.action_type a) t) query
    | None => query
    end in
  let query :=
    match truthy_int assigned_to with
    | Some u => filter (fun a => col_test (fun v => v =? u) (Action.assigned_to a)) query
    | None => query
    end in
  let query :=
    if overdue_only
    then filter (fun a => ActionStatus.eqb (Action.status a) ActionStatus.pending
                          && col_test (fun d => d <? now) (Action.due_at a)) query
    else query in
  query.

Definition get_actions (db : Store) (scan : scan_order) (now : Z) (skip limit : Z)
    (contact_id : option Z)
    (status : option ActionStatus.t) (priority : option ActionPriority.t)
    (action_type : option ActionType.t) (assigned_to : option Z)
    (overdue_only : bool) : outcome (list Action.t * Z) :=
  let query := get_actions_query db now contact_id status priority action_type
                                 assigned_to overdue_only in
  let total := count query in
  actions <- offset_limit skip limit (order_by priority_desc_due_at_asc scan query) ;;
  Returned (actions, total).

Definition setattrs (db_action : Action.t) (update_data : ActionUpdate.t)
  : outcome Action.t :=
title <- setattr_not_null (ActionUpdate.title update_data) (Action.title db_action) ;;
status <- setattr_not_null (ActionUpdate.status update_data) (Action.status db_action) ;;
priority <- setattr_not_null (ActionUpdate.priority update_data)
                             (Action.priority db_action) ;;
action_type <- setattr_not_null (ActionUpdate.action_type update_data)
                                (Action.action_type db_action) ;;
Returned
  (Action.mk (Action.id db_action) (Action.contact_id db_action)
     (setattr (ActionUpdate.proposal_id update_data) (Action.proposal_id db_action))
     (setattr (ActionUpdate.interaction_id update_data) (Action.interaction_id db_action))
     title
     (setattr (ActionUpdate.description update_data) (Action.description db_action))
     status
     (setattr_as timestamp (ActionUpdate.completed_at update_data)
                 (Action.completed_at db_action))
     (Action.created_at db_action) (Action.updated_at db_action)
     (setattr_as timestamp (ActionUpdate.due_at update_data) (Action.due_at db_action))
     action_type
     (setattr (ActionUpdate.assigned_to update_data) (Action.assigned_to db_action))
     priority).

Definition set_updated_at (a : Action.t) (now : Z) : Action.t :=
Action.mk (Action.id a) (Action.contact_id a) (Action.proposal_id a)
  (Action.interaction_id a) (Action.title a) (Action.description a) (Action.status a)
  (Action.completed_at a) (Action.created_at a) now (Action.due_at a)
  (Action.action_type a) (Action.assigned_to a) (Action.priority a).

Definition modified (db_action : Action.t) (update_data : ActionUpdate.t) : bool :=
differs_not_null String.eqb (ActionUpdate.title update_data) (Action.title db_action)
|| differs String.eqb (ActionUpdate.description update_data) (Action.description db_action)
|| differs_not_null ActionStatus.eqb (ActionUpdate.status update_data)
                    (Action.status db_action)
|| differs_not_null ActionPriority.eqb (ActionUpdate.priority update_data)
                    (Action.priority db_action)
|| differs_not_null ActionType.eqb (ActionUpdate.action_type update_data)
                    (Action.action_type db_action)
|| differs datetime_eqb (ActionUpdate.due_at update_data) (Action.due_at db_action)
|| differs datetime_eqb (ActionUpdate.completed_at update_data)
           (Action.completed_at db_action)
|| differs Z.eqb (ActionUpdate.assigned_to update_data) (Action.assigned_to db_action)
|| differs Z.eqb (ActionUpdate.proposal_id update_data) (Action.proposal_id db_action)
|| differs Z.eqb (ActionUpdate.interaction_id update_data)
           (Action.interaction_id db_action).

Definition out_of_range (db_action : Action.t) (update_data : ActionUpdate.t) : bool :=
overflows fits_integer Z.eqb (ActionUpdate.assigned_to update_data)
          (Action.assigned_to db_action)
|| overflows fits_integer Z.eqb (ActionUpdate.proposal_id update_data)
             (Action.proposal_id db_action)
|| overflows fits_integer Z.eqb (ActionUpdate.interaction_id update_data)
             (Action.interaction_id db_action).

(** [db.commit(); db.refresh(db_action)]: nothing is sent when no attribute
    changed; otherwise the UPDATE fails with a DataError on an integer out
    of range, with an IntegrityError on a null in a NOT NULL column or on
    an optional foreign key that names no row, or stores the row with
    [updated_at] refreshed. *)
Definition commit_update (db : Store) (now : Z) (loaded : Action.t)
    (update_data : ActionUpdate.t) : Store * outcome (option Action.t) :=
if negb (modified loaded update_data) then (db, Returned (Some loaded))
else if out_of_range loaded update_data then (db, Raised DataError)
else
  match setattrs loaded update_data with
  | Raised e => (db, Raised e)
  | Returned edited =>
      if negb (references Proposal.id (proposals db) (Action.proposal_id edited))
         || negb (references Interaction.id (interactions db)
                             (Action.interaction_id edited))
      then (db, Raised IntegrityError)
      else
        let stored := set_updated_at edited now in
        (with_actions db (update_where_id Action.id (Action.id loaded) stored (actions db)),
         Returned (Some stored))
  end.

(** [update_data["completed_at"] = value]. *)
Definition set_completed_at (update_data : ActionUpdate.t) (value : option datetime)
  : ActionUpdate.t :=
ActionUpdate.mk (ActionUpdate.title update_data) (ActionUpdate.description update_data)
  (ActionUpdate.status update_data) (ActionUpdate.priority update_data)
  (ActionUpdate.action_type update_data) (ActionUpdate.due_at update_data)
  (Provided value)
  (ActionUpdate.assigned_to update_data) (ActionUpdate.proposal_id update_data)
  (ActionUpdate.interaction_id update_data).

(** ["status" in update_data and update_data["status"] == ActionStatus.completed]. *)
Definition status_is_completed (update_data : ActionUpdate.t) : bool :=
match ActionUpdate.status update_data with
| Provided (Some s) => ActionStatus.eqb s ActionStatus.completed
| _ => false
end.

(** [datetime.now(timezone.utc)] is offset-aware; [now] is the time stamp
    that PostgreSQL makes of it.  [db_now] is the value of [func.now()] in
    the UPDATE. *)
Definition update_action (db : Store) (now db_now : Z) (action_id : Z)
    (action_update : ActionUpdate.t) : Store * outcome (option Action.t) :=
match get_action db action_id with
| None => (db, Returned None)
| Some db_action =>
    let update_data := action_update in
    let update_data :=
      if status_is_completed update_data
      then match Action.completed_at db_action with
           | None => set_completed_at update_data (Some (aware now))
           | Some _ => update_data
           end
      else update_data in
    commit_update db db_now db_action update_data
end.

Definition delete_action (db : Store) (action_id : Z) : Store * bool :=
match get_action db action_id with
| None => (db, false)
| Some db_action =>
    (with_actions db (delete_where_id Action.id (Action.id db_action) (actions db)), true)
end.

Definition count_actions_by_status (db : Store) (scan : scan_order)
    (contact_id : option Z) : outcome (dict ActionStatus.t Z) :=
let query := actions db in
let query :=
  match truthy_int contact_id with
  | Some c => filter (fun a => Action.contact_id a =? c) query
  | None => query
  end in
results <- select_group_by "status" "status" Action.status Action.status
             ActionStatus.members ActionStatus.eqb (@count Action.t) scan query ;;
Returned (dict_comprehension ActionStatus.eqb (fun count => count) results).

(** The select list is [Action.status, func.count(Action.id)], the
    grouping is by [Action.action_type]; the keys of the dict are what the
    first column of the result rows holds. *)
Definition count_actions_by_type (db : Store) (scan : scan_order)
    (contact_id : option Z) : outcome (dict ActionStatus.t Z) :=
let query := actions db in
let query :=
  match truthy_int contact_id with
  | Some c => filter (fun a => Action.contact_id a =? c) query
  | None => query
  end in
results <- select_group_by "status" "action_type" Action.status Action.action_type
             ActionType.members ActionType.eqb (@count Action.t) scan query ;;
Returned (dict_comprehension ActionStatus.eqb (fun count => count) results).

Definition count_actions_by_priority (db : Store) (scan : scan_order)
    (contact_id : option Z) : outcome (dict ActionPriority.t Z) :=
let query := filter (fun a => ActionStatus.eqb (Action.status a) ActionStatus.pending)
                    (actions db) in
let query :=
  match truthy_int contact_id with
  | Some c => filter (fun a => Action.contact_id a =? c) query
  | None => query
  end in
results <- select_group_by "priority" "priority" Action.priority Action.priority
             ActionPriority.members ActionPriority.eqb (@count Action.t) scan query ;;
Returned (dict_comprehension ActionPriority.eqb (fun count => count) results).

(** [new_id] is the value drawn from the [actions.id] sequence and [now]
    the value of [func.now()] in the INSERT.  The INSERT fails with a
    DataError on an integer out of range, and otherwise with an
    IntegrityError on a taken id or when one of the three foreign keys
    names no row. *)
Definition create_action (db : Store) (now new_id : Z) (action : ActionCreate.t)
  : Store * outcome Action.t :=
let db_action :=
  Action.mk new_id
    (ActionCreate.contact_id action) (ActionCreate.proposal_id action)
    (ActionCreate.interaction_id action) (ActionCreate.title action)
    (ActionCreate.description action) (ActionCreate.status action)
    None now now (option_map timestamp (ActionCreate.due_at action))
    (ActionCreate.action_type action)
    (ActionCreate.assigned_to action) (ActionCreate.priority action) in
if negb (fits_integer new_id)
   || negb (fits_integer (ActionCreate.contact_id action))
   || negb (in_range fits_integer (ActionCreate.proposal_id action))
   || negb (in_range fits_integer (ActionCreate.interaction_id action))
   || negb (in_range fits_integer (ActionCreate.assigned_to action))
then (db, Raised DataError)
else if existsb (fun a => Action.id a =? new_id) (actions db)
        || negb (references Contact.id (contacts db) (Some (Action.contact_id db_action)))
        || negb (references Proposal.id (proposals db) (Action.proposal_id db_action))
        || negb (references Interaction.id (interactions db)
                            (Action.interaction_id db_action))
then (db, Raised IntegrityError)
else (with_actions db (actions db ++ [db_action]), Returned db_action).

Definition get_actions_by_contact (db : Store) (scan : scan_order) (contact_id : Z)
    (skip limit : Z) : outcome (list Action.t) :=
offset_limit skip limit
  (order_by priority_desc_due_at_asc scan
     (filter (fun a => Action.contact_id a =? contact_id) (actions db))).

Definition get_pending_actions (db : Store) (scan : scan_order) (contact_id : option Z)
    (limit : Z) : outcome (list Action.t) :=
let query := filter (fun a => ActionStatus.eqb (Action.status a) ActionStatus.pending)
                    (actions db) in
let query :=
  match truthy_int contact_id with
  | Some c => filter (fun a => Action.contact_id a =? c) query
  | None => query
  end in
offset_limit 0 limit (order_by priority_desc_due_at_asc scan query).

(** [now] is the value of [datetime.now(timezone.utc)] at the call. *)
Definition get_overdue_actions (db : Store) (scan : scan_order) (now : Z)
    (contact_id : option Z) (limit : Z) : outcome (list Action.t) :=
let query := filter (fun a => ActionStatus.eqb (Action.status a) ActionStatus.pending
                              && col_test (fun d => d <? now) (Action.due_at a))
                    (actions db) in
let query :=
  match truthy_int contact_id with
  | Some c => filter (fun a => Action.contact_id a =? c) query
  | None => query
  end in
offset_limit 0 limit (order_by priority_desc_due_at_asc scan query).

Definition get_upcoming_actions (db : Store) (scan : scan_order) (now : Z) (days : Z)
    (contact_id : option Z) (limit : Z) : outcome (list Action.t) :=
let future_date := now + timedelta_days days in
let query := filter (fun a => ActionStatus.eqb (Action.status a) ActionStatus.pending
                              && col_test (fun d => now <=? d) (Action.due_at a)
                              && col_test (fun d => d <=? future_date) (Action.due_at a))
                    (actions db) in
let query :=
  match truthy_int contact_id with
  | Some c => filter (fun a => Action.contact_id a =? c) query
  | None => query
  end in
offset_limit 0 limit (order_by priority_desc_due_at_asc scan query).

End action_crud.

(** ** [app/api/contacts.py] *)

Module contacts_api.

Definition create_contact (db : Store) (now new_id : Z) (contact : ContactCreate.t)
  : Store * outcome Contact.t :=
match truthy_str (ContactCreate.email contact) with
| Some email =>
    match contact_crud.get_contact_by_email db email with
    | Some existing => (db, Raised (HTTPException 400))
    | None => contact_crud.create_contact db now new_id contact
    end
| None => contact_crud.create_contact db now new_id contact
end.

(** [contact_update.email] reads the field's default, [None], when the
    caller did not supply it. *)
Definition email_attr (contact_update : ContactUpdate.t) : option string :=
match ContactUpdate.email contact_update with
| Provided v => v
| Omitted => None
end.

Definition update_contact (db : Store) (now : Z) (contact_id : Z)
    (contact_update : ContactUpdate.t) : Store * outcome Contact.t :=
let conflict :=
  match truthy_str (email_attr contact_update) with
  | Some email =>
      match contact_crud.get_contact_by_email db email with
      | Some existing => negb (Contact.id existing =? contact_id)
      | None => false
      end
  | None => false
  end in
if conflict then (db, Raised (HTTPException 400))
else
  match contact_crud.update_contact db now contact_id contact_update with
  | (db', Returned (Some updated)) => (db', Returned updated)
  | (db', Returned None) => (db', Raised (HTTPException 404))
  | (db', Raised e) => (db', Raised e)
  end.

Definition get_contact (db : Store) (contact_id : Z) : outcome Contact.t :=
match contact_crud.get_contact db contact_id with
| None => Raised (HTTPException 404)
| Some contact => Returned contact
end.

Definition delete_contact (db : Store) (contact_id : Z) : Store * outcome unit :=
let (db', success) := contact_crud.delete_contact db contact_id in
if success then (db', Returned tt) else (db', Raised (HTTPException 404)).

Record ContactStats := mkContactStats {
  total : Z;
  by_status : dict ContactStatus.t Z
}.

Definition get_contact_stats (db : Store) (scan : scan_order) : outcome ContactStats :=
counts <- contact_crud.count_contacts_by_status db scan ;;
Returned (mkContactStats (sum (values counts)) counts).

End contacts_api.

(** ** [app/api/proposals.py] *)

Module proposals_api.

Section Floats.
Variable float : Type.
Variable float_of_decimal : Z -> float.
Variable zero : float.
(** [number] is a Python int or float and [sum_floats] the builtin [sum]
    on a list of floats (the int [0] on the empty list). *)
Variable number : Type.
Variable sum_floats : list float -> number.

Record StatusStats := mkStatusStats {
  count : Z;
  total_value : float
}.

Record Stats := mkStats {
  total_count : Z;
  stats_total_value : number;
  by_status : dict ProposalStatus.t StatusStats
}.

(** [scan_counts] and [scan_totals] are the orders in which the two
    grouped queries return their groups. *)
Definition get_proposal_stats (db : Store) (scan_counts scan_totals : scan_order)
    (contact_id : option Z) : outcome Stats :=
_ <- match truthy_int contact_id with
     | Some c =>
         match contact_crud.get_contact db c with
         | None => Raised (HTTPException 404)
         | Some contact => Returned tt
         end
     | None => Returned tt
     end ;;
counts <- proposal_crud.count_proposals_by_status db scan_counts contact_id ;;
totals <- proposal_crud.get_total_value_by_status float_of_decimal zero db scan_totals
            contact_id ;;
Returned
  (mkStats (sum (values counts)) (sum_floats (values totals))
     (map (fun status =>
             (status,
              mkStatusStats (dict_get ProposalStatus.eqb counts status 0)
                            (dict_get ProposalStatus.eqb totals status zero)))
          ProposalStatus.members)).
End Floats.

Definition create_proposal (db : Store) (now new_id : Z) (proposal : ProposalCreate.t)
  : Store * outcome Proposal.t :=
match contact_crud.get_contact db (ProposalCreate.contact_id proposal) with
| None => (db, Raised (HTTPException 404))
| Some contact => proposal_crud.create_proposal db now new_id proposal
end.

(** [(skip // limit) + 1 if limit > 0 else 1]. *)
Definition page_number (skip limit : Z) : Z :=
if 0 <? limit then skip / limit + 1 else 1.

Module ProposalListResponse.
Record t := mk {
  items : list Proposal.t;
  total : Z;
  page : Z;
  page_size : Z
}.
End ProposalListResponse.

Section Bounds.
Variable float : Type.
Variable numeric_ge numeric_le : Z -> float -> bool.

Definition list_proposals (db : Store) (scan : scan_order) (skip limit : Z)
    (contact_id : option Z)
    (status : option ProposalStatus.t) (min_value max_value : option float)
  : outcome ProposalListResponse.t :=
r <- proposal_crud.get_proposals numeric_ge numeric_le db scan skip limit contact_id
       status min_value max_value ;;
let (proposals, total) := r in
let page := page_number skip limit in
Returned (ProposalListResponse.mk proposals total page limit).
End Bounds.

Definition get_proposal (db : Store) (proposal_id : Z) : outcome Proposal.t :=
match proposal_crud.get_proposal db proposal_id with
| None => Raised (HTTPException 404)
| Some proposal => Returned proposal
end.

Definition update_proposal (db : Store) (now : Z) (proposal_id : Z)
    (proposal_update : ProposalUpdate.t) : Store * outcome Proposal.t :=
match proposal_crud.update_proposal db now proposal_id proposal_update with
| (db', Returned (Some updated)) => (db', Returned updated)
| (db', Returned None) => (db', Raised (HTTPException 404))
| (db', Raised e) => (db', Raised e)
end.

Definition delete_proposal (db : Store) (proposal_id : Z) : Store * outcome unit :=
let (db', success) := proposal_crud.delete_proposal db proposal_id in
if success then (db', Returned tt) else (db', Raised (HTTPException 404)).

Definition get_contact_proposals (db : Store) (scan : scan_order) (contact_id : Z)
    (skip limit : Z) : outcome (list Proposal.t) :=
match contact_crud.get_contact db contact_id with
| None => Raised (HTTPException 404)
| Some contact => proposal_crud.get_proposals_by_contact db scan contact_id skip limit
end.

End proposals_api.

(** ** [app/api/interactions.py] *)

Module interactions_api.

Definition get_recent_interactions (db : Store) (scan : scan_order) (now : Z)
    (days limit : Z) : outcome (list Interaction.t) :=
interaction_crud.get_recent_interactions db scan now days limit.

Record InteractionStats := mkInteractionStats {
  total : Z;
  by_type : dict InteractionType.t Z
}.

Definition get_interaction_stats (db : Store) (scan : scan_order)
    (contact_id : option Z) : outcome InteractionStats :=
_ <- match truthy_int contact_id with
     | Some c =>
         match contact_crud.get_contact db c with
         | None => Raised (HTTPException 404)
         | Some contact => Returned tt
         end
     | None => Returned tt
     end ;;
counts <- interaction_crud.count_interactions_by_type db scan contact_id ;;
Returned (mkInteractionStats (sum (values counts)) counts).

Definition create_interaction (db : Store) (now new_id : Z)
    (interaction : InteractionCreate.t) : Store * outcome Interaction.t :=
match contact_crud.get_contact db (InteractionCreate.contact_id interaction) with
| None => (db, Raised (HTTPException 404))
| Some contact => interaction_crud.create_interaction db now new_id interaction
end.

Definition get_interaction (db : Store) (interaction_id : Z) : outcome Interaction.t :=
match interaction_crud.get_interaction db interaction_id with
| None => Raised (HTTPException 404)
| Some interaction => Returned interaction
end.

Definition update_interaction (db : Store) (now : Z) (interaction_id : Z)
    (interaction_update : InteractionUpdate.t) : Store * outcome Interaction.t :=
match interaction_crud.update_interaction db now interaction_id interaction_update with
| (db', Returned (Some updated)) => (db', Returned updated)
| (db', Returned None) => (db', Raised (HTTPException 404))
| (db', Raised e) => (db', Raised e)
end.

Definition delete_interaction (db : Store) (interaction_id : Z) : Store * outcome unit :=
let (db', success) := interaction_crud.delete_interaction db interaction_id in
if success then (db', Returned tt) else (db', Raised (HTTPException 404)).

Definition get_contact_interactions (db : Store) (scan : scan_order) (contact_id : Z)
    (skip limit : Z) : outcome (list Interaction.t) :=
match contact_crud.get_contact db contact_id with
| None => Raised (HTTPException 404)
| Some contact =>
    interaction_crud.get_interactions_by_contact db scan contact_id skip limit
end.

End interactions_api.

(** ** [app/api/actions.py] *)

Module actions_api.

Definition create_action (db : Store) (now new_id : Z) (action : ActionCreate.t)
  : Store * outcome Action.t :=
match contact_crud.get_contact db (ActionCreate.contact_id action) with
| None => (db, Raised (HTTPException 404))
| Some contact => action_crud.create_action db now new_id action
end.

Definition get_action (db : Store) (action_id : Z) : outcome Action.t :=
match action_crud.get_action db action_id with
| None => Raised (HTTPException 404)
| Some action => Returned action
end.

Definition update_action (db : Store) (now db_now : Z) (action_id : Z)
    (action_update : ActionUpdate.t) : Store * outcome Action.t :=
match action_crud.update_action db now db_now action_id action_update with
| (db', Returned (Some updated)) => (db', Returned updated)
| (db', Returned None) => (db', Raised (HTTPException 404))
| (db', Raised e) => (db', Raised e)
end.

Definition delete_action (db : Store) (action_id : Z) : Store * outcome unit :=
let (db', success) := action_crud.delete_action db action_id in
if success then (db', Returned tt) else (db', Raised (HTTPException 404)).

Definition get_contact_actions (db : Store) (scan : scan_order) (contact_id : Z)
    (skip limit : Z) : outcome (list Action.t) :=
match contact_crud.get_contact db contact_id with
| None => Raised (HTTPException 404)
| Some contact => action_crud.get_actions_by_contact db scan contact_id skip limit
end.

End actions_api.

(** ** Vocabulary of the properties *)

(** [filtered_set passes table filtered]: [filtered] is [table] without
    the rows that do not pass, nothing added and nothing else taken
    away. *)
Inductive filtered_set {A} (passes : A -> Prop) : list A -> list A -> Prop :=
| filtered_nil : filtered_set passes [] []
| filtered_keep (x : A) (table filtered : list A) :
    passes x -> filtered_set passes table filtered ->
    filtered_set passes (x :: table) (x :: filtered)
| filtered_drop (x : A) (table filtered : list A) :
    ~ passes x -> filtered_set passes table filtered ->
    filtered_set passes (x :: table) filtered.








(** A slot of the payload that was omitted leaves its column as it was. *)
Definition kept {A B} (slot : field A) (before after : B) : Prop :=
slot = Omitted -> after = before.

(** [a] stands before [b] in "priority descending, then due_at ascending
    with NULL last". *)
Definition before_or_level (a b : Action.t) : Prop :=
ActionPriority.sort_key (Action.priority b) < ActionPriority.sort_key (Action.priority a)
\/ (Action.priority a = Action.priority b
    /\ match Action.due_at a, Action.due_at b with
       | Some x, Some y => x <= y
       | Some _, None => True
       | None, Some _ => False
       | None, None => True
       end).


(** What a partial update leaves alone, entity by entity: the columns no
    schema exposes, and each column whose slot the payload omits. *)
Definition contact_frame (u : ContactUpdate.t) (before after : Contact.t) : Prop :=
Contact.id after = Contact.id before
/\ Contact.created_at after = Contact.created_at before
/\ kept (ContactUpdate.first_name u) (Contact.first_name before) (Contact.first_name after)
/\ kept (ContactUpdate.last_name u) (Contact.last_name before) (Contact.last_name after)
/\ kept (ContactUpdate.email u) (Contact.email before) (Contact.email after)
/\ kept (ContactUpdate.phone u) (Contact.phone before) (Contact.phone after)
/\ kept (ContactUpdate.company u) (Contact.company before) (Contact.company after)
/\ kept (ContactUpdate.job_title u) (Contact.job_title before) (Contact.job_title after)
/\ kept (ContactUpdate.status u) (Contact.status before) (Contact.status after)
/\ kept (ContactUpdate.source u) (Contact.source before) (Contact.source after)
/\ kept (ContactUpdate.owner_id u) (Contact.owner_id before) (Contact.owner_id after)
/\ kept (ContactUpdate.tags u) (Contact.tags before) (Contact.tags after)
/\ kept (ContactUpdate.notes u) (Contact.notes before) (Contact.notes after)
/\ kept (ContactUpdate.next_action u) (Contact.next_action before)
        (Contact.next_action after).

Definition interaction_frame (u : InteractionUpdate.t) (before after : Interaction.t)
  : Prop :=
Interaction.id after = Interaction.id before
/\ Interaction.contact_id after = Interaction.contact_id before
/\ Interaction.created_at after = Interaction.created_at before
/\ kept (InteractionUpdate.type u) (Interaction.type before) (Interaction.type after)
/\ kept (InteractionUpdate.occurred_at u) (Interaction.occurred_at before)
        (Interaction.occurred_at after)
/\ kept (InteractionUpdate.summary u) (Interaction.summary before)
        (Interaction.summary after)
/\ kept (InteractionUpdate.outcome u) (Interaction.outcome before)
        (Interaction.outcome after)
/\ kept (InteractionUpdate.created_by u) (Interaction.created_by before)
        (Interaction.created_by after).

Definition proposal_frame (u : ProposalUpdate.t) (before after : Proposal.t) : Prop :=
Proposal.id after = Proposal.id before
/\ Proposal.contact_id after = Proposal.contact_id before
/\ Proposal.created_at after = Proposal.created_at before
/\ kept (ProposalUpdate.title u) (Proposal.title before) (Proposal.title after)
/\ kept (ProposalUpdate.description u) (Proposal.description before)
        (Proposal.description after)
/\ kept (ProposalUpdate.value u) (Proposal.value before) (Proposal.value after)
/\ kept (ProposalUpdate.status u) (Proposal.status before) (Proposal.status after)
/\ kept (ProposalUpdate.applied_at u) (Proposal.applied_at before)
        (Proposal.applied_at after)
/\ kept (ProposalUpdate.expires_at u) (Proposal.expires_at before)
        (Proposal.expires_at after).

(** For an Action, [completed_at] is kept when omitted unless the update
    completes an Action that has no completion time yet. *)
Definition action_frame (u : ActionUpdate.t) (before after : Action.t) : Prop :=
Action.id after = Action.id before
/\ Action.contact_id after = Action.contact_id before
/\ Action.created_at after = Action.created_at before
/\ kept (ActionUpdate.title u) (Action.title before) (Action.title after)
/\ kept (ActionUpdate.description u) (Action.description before)
        (Action.description after)
/\ kept (ActionUpdate.status u) (Action.status before) (Action.status after)
/\ kept (ActionUpdate.priority u) (Action.priority before) (Action.priority after)
/\ kept (ActionUpdate.action_type u) (Action.action_type before)
        (Action.action_type after)
/\ kept (ActionUpdate.due_at u) (Action.due_at before) (Action.due_at after)
/\ kept (ActionUpdate.assigned_to u) (Action.assigned_to before)
        (Action.assigned_to after)
/\ kept (ActionUpdate.proposal_id u) (Action.proposal_id before)
        (Action.proposal_id after)
/\ kept (ActionUpdate.interaction_id u) (Action.interaction_id before)
        (Action.interaction_id after)
/\ (action_crud.status_is_completed u = false \/ Action.completed_at before <> None ->
    kept (ActionUpdate.completed_at u) (Action.completed_at before)
         (Action.completed_at after)).

(** The payload as [update_action] hands it to the commit: with the stamp
    when it completes an Action that has no completion time yet. *)
Definition stamped (old : Action.t) (now : Z) (u : ActionUpdate.t) : ActionUpdate.t :=
if action_crud.status_is_completed u
then match Action.completed_at old with
     | None => action_crud.set_completed_at u (Some (aware now))
     | Some _ => u
     end
else u.



(** The unique index on [contacts.email]: two rows with the same non-null
    email are the same contact. *)
Definition emails_unique (db : Store) : Prop :=
forall c1 c2 e,
  In c1 (contacts db) -> In c2 (contacts db) ->
  Contact.email c1 = Some e -> Contact.email c2 = Some e ->
  Contact.id c1 = Contact.id c2.

(** The payload [{"email": email}]. *)
Definition only_email (email : string) : ContactUpdate.t :=
ContactUpdate.mk Omitted Omitted (Provided (Some email)) Omitted Omitted Omitted Omitted
  Omitted Omitted Omitted Omitted Omitted.

(** The "Conflict" condition of the contact routes. *)
Definition Conflict : exn := HTTPException 400.

(** The rows of one group of a grouped query, and the labels whose group
    is not empty. *)
Definition group_rows {R K} (eqb : K -> K -> bool) (key : R -> K) (rows : list R)
    (g : K) : list R :=
filter (fun r => eqb (key r) g) rows.

Definition occurring {R K} (eqb : K -> K -> bool) (key : R -> K) (rows : list R)
    (labels : list K) : list K :=
filter (fun g => match group_rows eqb key rows g with
                 | [] => false
                 | _ :: _ => true
                 end)
       labels.


Definition with_status (s : ProposalStatus.t) (rows : list Proposal.t) : list Proposal.t :=
group_rows ProposalStatus.eqb Proposal.status rows s.

(** The values of the rows that have one. *)
Definition non_null_values (rows : list Proposal.t) : list Z :=
flat_map (fun p => match Proposal.value p with
                   | Some v => [v]
                   | None => []
                   end)
         rows.

(** ** A small store, used to run the functions *)

Module sample.

Definition ada : Contact.t :=
Contact.mk 1 "Ada" "Lovelace" (Some "x@example.com") None (Some "Analytical") None
  ContactStatus.client None None (Some ["vip"; "tech"]) None None 10 10.

Definition bob : Contact.t :=
Contact.mk 2 "Bob" "Noether" None None None None
  ContactStatus.lead None None (Some ["vip"]) None None 20 20.

Definition call1 : Interaction.t :=
Interaction.mk 1 1 InteractionType.call 11 "Intro call" None None 11 11.

Definition mail1 : Interaction.t :=
Interaction.mk 2 1 InteractionType.email 12 "Sent the offer" None None 12 12.

Definition note2 : Interaction.t :=
Interaction.mk 3 2 InteractionType.note 21 "Met at the fair" None None 21 21.

Definition draft1 : Proposal.t :=
Proposal.mk 1 1 "Audit" None (Some 500000) ProposalStatus.draft None 13 13 None.

Definition draft2 : Proposal.t :=
Proposal.mk 2 1 "Migration" None (Some 700000) ProposalStatus.draft None 14 14 None.

Definition won1 : Proposal.t :=
Proposal.mk 3 1 "Support" None (Some 1500000) ProposalStatus.won None 15 15 None.

Definition follow_up1 : Action.t :=
Action.mk 1 1 (Some 1) None "Send the audit plan" None ActionStatus.pending None 16 16
  (Some 40) ActionType.follow_up None ActionPriority.high.

Definition call2 : Action.t :=
Action.mk 2 2 None (Some 3) "Call back" None ActionStatus.pending None 22 22
  None ActionType.call None ActionPriority.urgent.

Definition done1 : Action.t :=
Action.mk 3 1 None (Some 1) "Write the minutes" None ActionStatus.completed (Some 5) 17 17
  (Some 30) ActionType.other None ActionPriority.high.

Definition db : Store :=
mkStore [ada; bob] [call1; mail1; note2] [draft1; draft2; won1]
  [follow_up1; call2; done1].

(** The payload [{"status": "completed"}]. *)
Definition complete : ActionUpdate.t :=
ActionUpdate.mk Omitted Omitted (Provided (Some ActionStatus.completed)) Omitted Omitted
  Omitted Omitted Omitted Omitted Omitted.

(** The payload [{"status": "completed", "completed_at": 9}], with a naive
    datetime. *)
Definition complete_at_9 : ActionUpdate.t :=
ActionUpdate.mk Omitted Omitted (Provided (Some ActionStatus.completed)) Omitted Omitted
  Omitted (Provided (Some (naive 9))) Omitted Omitted Omitted.

(** The payload [{"outcome": "Signed"}]. *)
Definition signed : InteractionUpdate.t :=
InteractionUpdate.mk Omitted Omitted Omitted (Provided (Some "Signed")) Omitted.

(** The payload [{"status": "submitted"}]. *)
Definition submit : ProposalUpdate.t :=
ProposalUpdate.mk Omitted Omitted Omitted (Provided (Some ProposalStatus.submitted))
  Omitted Omitted.

(** The payload [{"company": null}]. *)
Definition clear_company : ContactUpdate.t :=
ContactUpdate.mk Omitted Omitted Omitted Omitted (Provided None) Omitted Omitted
  Omitted Omitted Omitted Omitted Omitted.

(** A new contact with the given email and nothing else of note. *)
Definition new_contact (email : option string) : ContactCreate.t :=
ContactCreate.mk "Cy" "Turing" email None None None ContactStatus.lead None None []
  None None.

End sample.

(** ** A store with a contact whose tag was cut when it was stored *)

Module tagged.

Definition eve : Contact.t :=
Contact.mk 3 "Eve" "Hopper" None None None None
  ContactStatus.prospect None None (Some ["enterprise"]) None None 30 30.

Definition db : Store :=
mkStore [sample.ada; sample.bob; eve] [] [] [].

End tagged.

(** ** A second store, with expiry dates *)

Module fixtures.

Definition offer_open : Proposal.t :=
Proposal.mk 4 1 "Retainer" None (Some 250000) ProposalStatus.submitted (Some 18) 18 18
  (Some 50).

Definition offer_won : Proposal.t :=
Proposal.mk 5 1 "Workshop" None None ProposalStatus.won (Some 19) 19 19 (Some 50).

Definition offer_later : Proposal.t :=
Proposal.mk 6 2 "Training" None (Some 90000) ProposalStatus.draft None 23 23 (Some 200).

Definition db : Store :=
mkStore (contacts sample.db) (interactions sample.db)
  (proposals sample.db ++ [offer_open; offer_won; offer_later]) (actions sample.db).

End fixtures.

(** The pair a list query returned, or the empty page. *)
Definition items_total {A} (r : outcome (list A * Z)) : list A * Z :=
match r with
| Returned p => p
| Raised _ => ([], 0)
end.




(** What a payload's datetimes and tags are to the unit of work.  A naive
    datetime is equal to the time stamp read back; an offset-aware one
    never is.  Tags of at most 10 characters are stored as sent; a longer
    one is stored cut, and is not equal to what is read back. *)
Definition is_naive (slot : field (option datetime)) : Prop :=
forall d, slot = Provided (Some d) -> exists t, d = naive t.

Definition is_aware (slot : field (option datetime)) : Prop :=
exists t, slot = Provided (Some (aware t)).

Definition tags_fit (slot : field (option (list string))) : Prop :=
forall tags t, slot = Provided (Some tags) -> In t tags -> (String.length t <= 10)%nat.

Definition tags_cut (slot : field (option (list string))) : Prop :=
exists tags t, slot = Provided (Some tags) /\ In t tags /\ (10 < String.length t)%nat.

(** A [tags] column as PostgreSQL can hold it: no element is longer than
    10 characters. *)
Definition tags_column (column : option (list string)) : Prop :=
forall tags t, column = Some tags -> In t tags -> (String.length t <= 10)%nat.

(** The payload [{"expires_at": "1970-01-01T00:01:30+00:00"}], an
    offset-aware datetime. *)
Definition expires_aware : ProposalUpdate.t :=
ProposalUpdate.mk Omitted Omitted Omitted Omitted Omitted (Provided (Some (aware 90))).

(** The payload [{"tags": ["enterprise-customer", "vip"]}]. *)
Definition retag_long : ContactUpdate.t :=
ContactUpdate.mk Omitted Omitted Omitted Omitted Omitted Omitted Omitted Omitted Omitted
  (Provided (Some ["enterprise-customer"; "vip"])) Omitted Omitted.

(** The payload [{"status": "completed", "due_at":
    "1970-01-01T00:00:40+00:00"}], with an offset-aware datetime. *)
Definition complete_due_aware : ActionUpdate.t :=
ActionUpdate.mk Omitted Omitted (Provided (Some ActionStatus.completed)) Omitted Omitted
  (Provided (Some (aware 40))) Omitted Omitted Omitted Omitted.








(** Payloads that supply nothing. *)
Definition no_contact_change : ContactUpdate.t :=
ContactUpdate.mk Omitted Omitted Omitted Omitted Omitted Omitted Omitted Omitted Omitted
  Omitted Omitted Omitted.

Definition no_interaction_change : InteractionUpdate.t :=
InteractionUpdate.mk Omitted Omitted Omitted Omitted Omitted.

Definition no_proposal_change : ProposalUpdate.t :=
ProposalUpdate.mk Omitted Omitted Omitted Omitted Omitted Omitted.

Definition no_action_change : ActionUpdate.t :=
ActionUpdate.mk Omitted Omitted Omitted Omitted Omitted Omitted Omitted Omitted Omitted
  Omitted.

(** Payloads for new rows. *)
Module payloads.



Definition task (contact_id : Z) (proposal_id : option Z) (status : ActionStatus.t)
  : ActionCreate.t :=
ActionCreate.mk contact_id proposal_id None "Prepare" None status ActionPriority.medium
  ActionType.other None None.

End payloads.

(** ** Integrity of a store *)

(** Primary keys: no two rows of a table share an id. *)
Definition pk_unique (db : Store) : Prop :=
NoDup (map Contact.id (contacts db))
/\ NoDup (map Interaction.id (interactions db))
/\ NoDup (map Proposal.id (proposals db))
/\ NoDup (map Action.id (actions db)).

(** Foreign keys: every reference names a row of the parent table. *)
Definition fk_consistent (db : Store) : Prop :=
(forall i, In i (interactions db) ->
   references Contact.id (contacts db) (Some (Interaction.contact_id i)) = true)
/\ (forall p, In p (proposals db) ->
      references Contact.id (contacts db) (Some (Proposal.contact_id p)) = true)
/\ (forall a, In a (actions db) ->
      references Contact.id (contacts db) (Some (Action.contact_id a)) = true
      /\ references Proposal.id (proposals db) (Action.proposal_id a) = true
      /\ references Interaction.id (interactions db) (Action.interaction_id a) = true).

(** ** Vocabulary of the grouped counts *)

(** The rows an optional contact scope leaves, as the code reads it: a
    [contact_id] of 0 is no scope. *)
Definition in_scope {A} (contact_id_of : A -> Z) (contact_id : option Z) (rows : list A)
  : list A :=
match truthy_int contact_id with
| Some c => filter (fun a => contact_id_of a =? c) rows
| None => rows
end.

(** [d] is the sparse count of [rows] by [key]: its keys are distinct and
    are exactly the values that occur, each maps to the number of rows
    that have it (a missing key reads as 0), and the counts add up to the
    number of rows. *)
Definition grouped_counts {R K} (eqb : K -> K -> bool) (key : R -> K) (rows : list R)
    (d : dict K Z) : Prop :=
NoDup (map fst d)
/\ (forall g, In g (map fst d) <-> exists r, In r rows /\ key r = g)
/\ (forall g, dict_get eqb d g 0 = count (filter (fun r => eqb (key r) g) rows))
/\ sum (values d) = count rows.
(** * Properties *)

(** ** The order in which rows are read *)

Lemma place_perm {A} (k : nat) (x : A) (l : list A) : Permutation (place k x l) (x :: l).
Proof.
  revert l; induction k as [|k IH]; intros [|y l]; simpl; try apply Permutation_refl.
  apply Permutation_trans with (y :: x :: l); [now apply perm_skip|apply perm_swap].
Qed.

Lemma read_perm {A} (scan : scan_order) (rows : list A) :
  Permutation (read scan rows) rows.
Proof.
  revert scan; induction rows as [|x l IH]; intros scan; simpl; [apply perm_nil|].
  apply Permutation_trans with (x :: read (tl scan) l);
    [apply place_perm|now apply perm_skip].
Qed.

Lemma read_storage_order {A} (rows : list A) : read [] rows = rows.
Proof. induction rows as [|x l IH]; simpl; [reflexivity|now rewrite IH]. Qed.

Lemma place_at {A} (x : A) (l1 l2 : list A) :
  place (length l1) x (l1 ++ l2) = l1 ++ x :: l2.
Proof.
  induction l1 as [|y l1 IH]; simpl; [now destruct l2|now rewrite IH].
Qed.

(** Every rearrangement of the rows is the order of some execution. *)
Lemma read_complete {A} (rows rows' : list A) :
  Permutation rows rows' -> exists scan, read scan rows = rows'.
Proof.
  revert rows'; induction rows as [|x l IH]; intros rows' Hp.
  - apply Permutation_nil in Hp. subst. now exists [].
  - assert (Hx : In x rows') by (apply (Permutation_in _ Hp); now left).
    apply in_split in Hx. destruct Hx as (l1 & l2 & ->).
    apply Permutation_cons_app_inv in Hp.
    destruct (IH _ Hp) as [scan Hs].
    exists (length l1 :: scan). simpl. rewrite Hs. apply place_at.
Qed.

(** ** Ordering and pagination *)

Section OrderBy.
Context {A : Type} (precedes : A -> A -> bool).

Lemma insert_row_perm (x : A) (l : list A) :
  Permutation (insert_row precedes x l) (x :: l).
Proof.
  induction l as [|y l IH]; simpl.
  - apply Permutation_refl.
  - destruct (precedes x y).
    + apply Permutation_refl.
    + apply Permutation_trans with (y :: x :: l).
      * now apply perm_skip.
      * apply perm_swap.
Qed.

Lemma sort_rows_perm (l : list A) : Permutation (sort_rows precedes l) l.
Proof.
  induction l as [|x l IH]; simpl.
  - apply perm_nil.
  - apply Permutation_trans with (x :: sort_rows precedes l).
    + apply insert_row_perm.
    + now apply perm_skip.
Qed.

Lemma order_by_perm (scan : scan_order) (l : list A) :
  Permutation (order_by precedes scan l) l.
Proof.
  unfold order_by.
  apply Permutation_trans with (read scan l); [apply sort_rows_perm|apply read_perm].
Qed.

(** Rows that are sorted as they are read come out as they are read. *)
Lemma sort_rows_sorted_id (l : list A) :
  StronglySorted (fun a b => precedes a b = true) l -> sort_rows precedes l = l.
Proof.
  induction 1 as [|x l Hs IH Hall]; simpl; [reflexivity|].
  rewrite IH. destruct l as [|y l]; [reflexivity|]. simpl.
  inversion Hall as [|? ? Hxy _]; subst. now rewrite Hxy.
Qed.

Hypothesis precedes_total : forall a b, precedes a b = true \/ precedes b a = true.
Hypothesis precedes_trans :
  forall a b c, precedes a b = true -> precedes b c = true -> precedes a c = true.

Lemma insert_row_sorted (x : A) (l : list A) :
  StronglySorted (fun a b => precedes a b = true) l ->
  StronglySorted (fun a b => precedes a b = true) (insert_row precedes x l).
Proof.
  induction 1 as [|y l Hs IH Hall]; simpl.
  - constructor; constructor.
  - destruct (precedes x y) eqn:E.
    + constructor.
      * now constructor.
      * constructor; [exact E|].
        rewrite Forall_forall in Hall |- *.
        intros z Hz. eapply precedes_trans; eauto.
    + constructor; [exact IH|].
      assert (Hyx : precedes y x = true).
      { destruct (precedes_total x y) as [H|H]; congruence. }
      rewrite Forall_forall in Hall |- *.
      intros z Hz.
      apply (Permutation_in _ (insert_row_perm x l)) in Hz.
      destruct Hz as [<-|Hz]; auto.
Qed.

Lemma sort_rows_sorted (l : list A) :
  StronglySorted (fun a b => precedes a b = true) (sort_rows precedes l).
Proof.
  induction l; simpl.
  - constructor.
  - now apply insert_row_sorted.
Qed.

Lemma order_by_sorted (scan : scan_order) (l : list A) :
  StronglySorted (fun a b => precedes a b = true) (order_by precedes scan l).
Proof. apply sort_rows_sorted. Qed.
End OrderBy.

(** The model of ORDER BY leaves out no answer that SQL allows: every
    sorted rearrangement of the rows is the result of some execution. *)
Lemma order_by_complete {A} (precedes : A -> A -> bool) (rows sorted : list A) :
  Permutation rows sorted ->
  StronglySorted (fun a b => precedes a b = true) sorted ->
  exists scan, order_by precedes scan rows = sorted.
Proof.
  intros Hp Hs. destruct (read_complete Hp) as [scan E].
  exists scan. unfold order_by. rewrite E. now apply sort_rows_sorted_id.
Qed.



Lemma StronglySorted_skipn {A} (R : A -> A -> Prop) (n : nat) (l : list A) :
  StronglySorted R l -> StronglySorted R (skipn n l).
Proof.
  revert l; induction n as [|n IH]; intros l H; simpl; [exact H|].
  destruct l; [constructor|].
  inversion H; subst. now apply IH.
Qed.

Lemma StronglySorted_firstn {A} (R : A -> A -> Prop) (n : nat) (l : list A) :
  StronglySorted R l -> StronglySorted R (firstn n l).
Proof.
  revert l; induction n as [|n IH]; intros l H; simpl; [constructor|].
  destruct l; [constructor|].
  inversion H as [|? ? Hs Hall]; subst. constructor.
  - now apply IH.
  - rewrite Forall_forall in Hall |- *.
    intros z Hz. apply Hall.
    rewrite <- (firstn_skipn n l). apply in_or_app. now left.
Qed.

Lemma StronglySorted_nth {A} (R : A -> A -> Prop) (l : list A) :
  StronglySorted R l ->
  forall i j a b, (i < j)%nat -> nth_error l i = Some a -> nth_error l j = Some b -> R a b.
Proof.
  induction 1 as [|x l Hs IH Hall]; intros i j a b Hij Ha Hb.
  - destruct i; discriminate.
  - destruct j as [|j]; [lia|].
    destruct i as [|i]; simpl in *.
    + injection Ha as <-. rewrite Forall_forall in Hall.
      apply Hall. eapply nth_error_In; eauto.
    + apply (IH i j a b); [lia | exact Ha | exact Hb].
Qed.


(** What [offset_limit] does, by the range of its arguments. *)
Lemma offset_limit_spec {A} (skip limit : Z) (l : list A) :
  (0 <= skip <= bigint_max /\ 0 <= limit <= bigint_max
   /\ offset_limit skip limit l
      = Returned (firstn (Z.to_nat limit) (skipn (Z.to_nat skip) l)))
  \/ ((skip < 0 \/ limit < 0 \/ bigint_max < skip \/ bigint_max < limit)
      /\ offset_limit skip limit l = Raised DataError).
Proof.
  unfold offset_limit.
  destruct (Z.ltb_spec skip 0), (Z.ltb_spec limit 0), (Z.ltb_spec bigint_max skip),
    (Z.ltb_spec bigint_max limit); cbn [orb];
    first [left; split; [lia|split; [lia|reflexivity]] | right; split; [lia|reflexivity]].
Qed.

Lemma offset_limit_in_range {A} (skip limit : Z) (l : list A) :
  0 <= skip <= bigint_max -> 0 <= limit <= bigint_max ->
  offset_limit skip limit l = Returned (firstn (Z.to_nat limit) (skipn (Z.to_nat skip) l)).
Proof.
  intros Hs Hl. destruct (offset_limit_spec skip limit l) as [(_ & _ & E)|[H _]];
    [exact E|lia].
Qed.




(** The filtered set is what it says: a row of the table is in it as often
    as in the table when it passes, and not at all when it does not. *)
Lemma filtered_set_In {A} (passes : A -> Prop) (table filtered : list A) :
  filtered_set passes table filtered ->
  forall x, In x filtered <-> In x table /\ passes x.
Proof.
  induction 1 as [|x l l' Hx _ IH|x l l' Hx _ IH]; intros y; simpl.
  - tauto.
  - rewrite IH. split.
    + intros [<-|[H1 H2]]; auto.
    + intros [[<-|H1] H2]; auto.
  - rewrite IH. split.
    + intros [H1 H2]; auto.
    + intros [[<-|H1] H2]; [contradiction|auto].
Qed.

Lemma filtered_set_unique {A} (passes : A -> Prop) (table l1 l2 : list A) :
  filtered_set passes table l1 -> filtered_set passes table l2 -> l1 = l2.
Proof.
  intros H1; revert l2.
  induction H1 as [|x l l' Hx _ IH|x l l' Hx _ IH]; intros l2 H2;
    inversion H2; subst; try contradiction; try reflexivity.
  - f_equal. now apply IH.
  - now apply IH.
Qed.




(** ** What the filters of the list queries select *)

Lemma ContactStatus_eqb_eq (a b : ContactStatus.t) :
  ContactStatus.eqb a b = true <-> a = b.
Proof. destruct a, b; simpl; split; intros H; try reflexivity; discriminate. Qed.

Lemma InteractionType_eqb_eq (a b : InteractionType.t) :
  InteractionType.eqb a b = true <-> a = b.
Proof. destruct a, b; simpl; split; intros H; try reflexivity; discriminate. Qed.

Lemma ProposalStatus_eqb_eq (a b : ProposalStatus.t) :
  ProposalStatus.eqb a b = true <-> a = b.
Proof. destruct a, b; simpl; split; intros H; try reflexivity; discriminate. Qed.

Lemma ActionStatus_eqb_eq (a b : ActionStatus.t) : ActionStatus.eqb a b = true <-> a = b.
Proof. destruct a, b; simpl; split; intros H; try reflexivity; discriminate. Qed.

Lemma ActionPriority_eqb_eq (a b : ActionPriority.t) :
  ActionPriority.eqb a b = true <-> a = b.
Proof. destruct a, b; simpl; split; intros H; try reflexivity; discriminate. Qed.

Lemma ActionType_eqb_eq (a b : ActionType.t) : ActionType.eqb a b = true <-> a = b.
Proof. destruct a, b; simpl; split; intros H; try reflexivity; discriminate. Qed.

Lemma col_test_true {A} (p : A -> bool) (c : option A) :
  col_test p c = true <-> exists v, c = Some v /\ p v = true.
Proof.
  destruct c as [v|]; simpl.
  - split; [eauto|]. intros (v' & E & H). now injection E as ->.
  - split; [discriminate|]. intros (v' & E & _). discriminate.
Qed.

Lemma truthy_str_some (e : string) : e <> "" -> truthy_str (Some e) = Some e.
Proof.
  intros H. unfold truthy_str. apply String.eqb_neq in H. now rewrite H.
Qed.

Lemma truthy_str_inv (x : option string) (e : string) :
  truthy_str x = Some e -> x = Some e /\ e <> "".
Proof.
  destruct x as [s|]; simpl; [|discriminate].
  destruct (String.eqb_spec s ""); [discriminate|].
  intros H. injection H as <-. now split.
Qed.

Lemma optional_filter_In {A V} (p : A -> V -> bool) (o : option V) (query : list A)
    (x : A) :
  In x match o with
       | Some v => filter (fun a => p a v) query
       | None => query
       end
  <-> In x query /\ forall v, o = Some v -> p x v = true.
Proof.
  destruct o as [v|].
  - rewrite filter_In. split.
    + intros [H E]. split; [exact H|]. intros v' Hv. now injection Hv as <-.
    + intros [H E]. split; [exact H|]. now apply E.
  - split; [|tauto]. intros H. split; [exact H|]. discriminate.
Qed.

Lemma truthy_int_some (x : option Z) (c : Z) :
  truthy_int x = Some c <-> x = Some c /\ c <> 0.
Proof.
  destruct x as [z|]; simpl.
  - destruct (Z.eqb_spec z 0); split.
    + discriminate.
    + intros [E Hc]. injection E as ->. contradiction.
    + intros E. injection E as ->. now split.
    + intros [E _]. exact E.
  - split; [discriminate|]. intros [E _]. discriminate.
Qed.

Lemma truthy_list_some {A} (x : option (list A)) (l : list A) :
  truthy_list x = Some l <-> x = Some l /\ l <> [].
Proof.
  destruct x as [[|a l']|]; simpl; split; try discriminate.
  - intros [E H]. injection E as <-. contradiction.
  - intros E. injection E as <-. split; [reflexivity|discriminate].
  - intros [E _]. exact E.
  - intros [E _]. discriminate.
Qed.

Lemma truthy_str_iff (x : option string) (e : string) :
  truthy_str x = Some e <-> x = Some e /\ e <> "".
Proof.
  split; [apply truthy_str_inv|]. intros [-> H]. now apply truthy_str_some.
Qed.

Lemma contains_spec (column tags : list string) :
  contact_crud.contains column tags = true
  <-> forall t, In t tags -> In (varchar 10 t) column.
Proof.
  unfold contact_crud.contains, varchar_10_array. rewrite forallb_forall.
  split.
  - intros H t Ht. apply (in_map (varchar 10)) in Ht. apply H in Ht.
    apply existsb_exists in Ht. destruct Ht as (x & Hx & E).
    apply String.eqb_eq in E. now subst.
  - intros H t' Ht. apply in_map_iff in Ht. destruct Ht as (t & <- & Ht).
    apply existsb_exists. exists (varchar 10 t).
    split; [now apply H|apply String.eqb_refl].
Qed.

(** A string of at most [n] characters is not cut by [VARCHAR(n)]. *)
Lemma varchar_short (n : nat) (s : string) :
  (String.length s <= n)%nat -> varchar n s = s.
Proof.
  revert s; induction n as [|n IH]; intros [|c s] H; simpl in *;
    try reflexivity; try lia.
  rewrite IH by lia. reflexivity.
Qed.

Lemma varchar_length (n : nat) (s : string) : (String.length (varchar n s) <= n)%nat.
Proof.
  revert s; induction n as [|n IH]; intros [|c s]; simpl; try lia.
  specialize (IH s). lia.
Qed.

Lemma varchar_idempotent (n : nat) (s : string) : varchar n (varchar n s) = varchar n s.
Proof. apply varchar_short, varchar_length. Qed.

Lemma get_contacts_query_In (ilike : string -> string -> bool) (db : Store)
    (status : option ContactStatus.t) (search : option string)
    (tags : option (list string)) (c : Contact.t) :
  In c (contact_crud.get_contacts_query ilike db status search tags)
  <-> In c (contacts db)
      /\ (forall s, status = Some s -> Contact.status c = s)
      /\ (forall t, search = Some t -> t <> "" ->
            let pattern := ("%" ++ t ++ "%")%string in
            ilike (Contact.first_name c) pattern = true
            \/ ilike (Contact.last_name c) pattern = true
            \/ (exists e, Contact.email c = Some e /\ ilike e pattern = true)
            \/ (exists e, Contact.company c = Some e /\ ilike e pattern = true))
      /\ (forall ts, tags = Some ts -> ts <> [] ->
            exists column, Contact.tags c = Some column
                           /\ forall t, In t ts -> In (varchar 10 t) column).
Proof.
  unfold contact_crud.get_contacts_query. cbv zeta.
  rewrite (optional_filter_In
             (fun c ts => col_test (fun column => contact_crud.contains column ts)
                                   (Contact.tags c))).
  rewrite (optional_filter_In
             (fun c s => ilike (Contact.first_name c) ("%" ++ s ++ "%")%string
                         || ilike (Contact.last_name c) ("%" ++ s ++ "%")%string
                         || col_test (fun e => ilike e ("%" ++ s ++ "%")%string)
                                     (Contact.email c)
                         || col_test (fun e => ilike e ("%" ++ s ++ "%")%string)
                                     (Contact.company c))).
  rewrite (optional_filter_In (fun c s => ContactStatus.eqb (Contact.status c) s)).
  setoid_rewrite truthy_list_some. setoid_rewrite truthy_str_iff.
  setoid_rewrite ContactStatus_eqb_eq.
  split.
  - intros (((H & Hs) & Hq) & Ht). repeat split; auto.
    + intros t Et Hn. specialize (Hq t (conj Et Hn)).
      rewrite !orb_true_iff, !col_test_true in Hq. cbv zeta. tauto.
    + intros ts Et Hn. specialize (Ht ts (conj Et Hn)).
      apply col_test_true in Ht. destruct Ht as (column & Ec & Hc).
      exists column. split; [exact Ec|]. now apply contains_spec.
  - intros (H & Hs & Hq & Ht). repeat split; auto.
    + intros t [Et Hn]. specialize (Hq t Et Hn). cbv zeta in Hq.
      rewrite !orb_true_iff, !col_test_true. tauto.
    + intros ts [Et Hn]. destruct (Ht ts Et Hn) as (column & Ec & Hc).
      apply col_test_true. exists column. split; [exact Ec|]. now apply contains_spec.
Qed.

Lemma get_interactions_query_In (db : Store) (contact_id : option Z)
    (interaction_type : option InteractionType.t) (start_date end_date : option Z)
    (i : Interaction.t) :
  In i (interaction_crud.get_interactions_query db contact_id interaction_type
          start_date end_date)
  <-> In i (interactions db)
      /\ (forall c, contact_id = Some c -> c <> 0 -> Interaction.contact_id i = c)
      /\ (forall t, interaction_type = Some t -> Interaction.type i = t)
      /\ (forall d, start_date = Some d -> d <= Interaction.occurred_at i)
      /\ (forall d, end_date = Some d -> Interaction.occurred_at i <= d).
Proof.
  unfold interaction_crud.get_interactions_query. cbv zeta.
  rewrite (optional_filter_In (fun i d => Interaction.occurred_at i <=? d)).
  rewrite (optional_filter_In (fun i d => d <=? Interaction.occurred_at i)).
  rewrite (optional_filter_In (fun i t => InteractionType.eqb (Interaction.type i) t)).
  rewrite (optional_filter_In (fun i c => Interaction.contact_id i =? c)).
  setoid_rewrite truthy_int_some. setoid_rewrite InteractionType_eqb_eq.
  setoid_rewrite Z.eqb_eq. setoid_rewrite Z.leb_le.
  split.
  - intros ((((H & Hc) & Ht) & Hs) & He). repeat split; auto.
  - intros (H & Hc & Ht & Hs & He). repeat split; auto.
    intros c [Ec Hn]. now apply Hc.
Qed.

Lemma get_proposals_query_In (float : Type) (numeric_ge numeric_le : Z -> float -> bool)
    (db : Store) (contact_id : option Z) (status : option ProposalStatus.t)
    (min_value max_value : option float) (p : Proposal.t) :
  In p (proposal_crud.get_proposals_query numeric_ge numeric_le db contact_id status
          min_value max_value)
  <-> In p (proposals db)
      /\ (forall c, contact_id = Some c -> c <> 0 -> Proposal.contact_id p = c)
      /\ (forall s, status = Some s -> Proposal.status p = s)
      /\ (forall b, min_value = Some b ->
            exists v, Proposal.value p = Some v /\ numeric_ge v b = true)
      /\ (forall b, max_value = Some b ->
            exists v, Proposal.value p = Some v /\ numeric_le v b = true).
Proof.
  unfold proposal_crud.get_proposals_query. cbv zeta.
  rewrite (optional_filter_In
             (fun p b => col_test (fun v => numeric_le v b) (Proposal.value p))).
  rewrite (optional_filter_In
             (fun p b => col_test (fun v => numeric_ge v b) (Proposal.value p))).
  rewrite (optional_filter_In (fun p s => ProposalStatus.eqb (Proposal.status p) s)).
  rewrite (optional_filter_In (fun p c => Proposal.contact_id p =? c)).
  setoid_rewrite truthy_int_some. setoid_rewrite ProposalStatus_eqb_eq.
  setoid_rewrite Z.eqb_eq. setoid_rewrite col_test_true.
  split.
  - intros ((((H & Hc) & Hs) & Hmin) & Hmax). repeat split; auto.
  - intros (H & Hc & Hs & Hmin & Hmax). repeat split; auto.
    intros c [Ec Hn]. now apply Hc.
Qed.

Lemma get_actions_query_In (db : Store) (now : Z) (contact_id : option Z)
    (status : option ActionStatus.t) (priority : option ActionPriority.t)
    (action_type : option ActionType.t) (assigned_to : option Z) (overdue_only : bool)
    (a : Action.t) :
  In a (action_crud.get_actions_query db now contact_id status priority action_type
          assigned_to overdue_only)
  <-> In a (actions db)
      /\ (forall c, contact_id = Some c -> c <> 0 -> Action.contact_id a = c)
      /\ (forall s, status = Some s -> Action.status a = s)
      /\ (forall p, priority = Some p -> Action.priority a = p)
      /\ (forall t, action_type = Some t -> Action.action_type a = t)
      /\ (forall u, assigned_to = Some u -> u <> 0 -> Action.assigned_to a = Some u)
      /\ (overdue_only = true ->
          Action.status a = ActionStatus.pending
          /\ exists d, Action.due_at a = Some d /\ d < now).
Proof.
  unfold action_crud.get_actions_query. cbv zeta.
  assert (Hov : forall q,
             In a (if overdue_only
                   then filter (fun a => ActionStatus.eqb (Action.status a)
                                           ActionStatus.pending
                                         && col_test (fun d => d <? now) (Action.due_at a)) q
                   else q)
             <-> In a q /\ (overdue_only = true ->
                            Action.status a = ActionStatus.pending
                            /\ exists d, Action.due_at a = Some d /\ d < now)).
  { intros q. destruct overdue_only.
    - rewrite filter_In, andb_true_iff, ActionStatus_eqb_eq, col_test_true.
      split.
      + intros (H & Hp & d & Hd & Hlt). apply Z.ltb_lt in Hlt. eauto 8.
      + intros (H & Hs). destruct (Hs eq_refl) as (Hp & d & Hd & Hlt).
        apply Z.ltb_lt in Hlt. eauto 8.
    - split; [|tauto]. intros H. split; [exact H|discriminate]. }
  rewrite Hov.
  rewrite (optional_filter_In (fun a u => col_test (fun v => v =? u) (Action.assigned_to a))).
  rewrite (optional_filter_In (fun a t => ActionType.eqb (Action.action_type a) t)).
  rewrite (optional_filter_In (fun a p => ActionPriority.eqb (Action.priority a) p)).
  rewrite (optional_filter_In (fun a s => ActionStatus.eqb (Action.status a) s)).
  rewrite (optional_filter_In (fun a c => Action.contact_id a =? c)).
  setoid_rewrite truthy_int_some. setoid_rewrite ActionType_eqb_eq.
  setoid_rewrite ActionPriority_eqb_eq. setoid_rewrite ActionStatus_eqb_eq.
  setoid_rewrite Z.eqb_eq. setoid_rewrite col_test_true.
  split.
  - intros (((((( H & Hc) & Hs) & Hp) & Ht) & Hu) & Ho).
    repeat split; auto.
    + intros u Eu Hn. destruct (Hu u (conj Eu Hn)) as (v & Hv & E).
      apply Z.eqb_eq in E. now subst.
    + now apply Ho.
    + now apply Ho.
  - intros (H & Hc & Hs & Hp & Ht & Hu & Ho).
    repeat split; auto.
    + intros c [Ec Hn]. now apply Hc.
    + intros u [Eu Hn]. exists u. split; [now apply Hu|apply Z.eqb_refl].
    + now apply Ho.
    + now apply Ho.
Qed.

(** ** The sort orders of the list queries *)

Lemma desc_total {A} (key : A -> Z) (a b : A) :
  desc key a b = true \/ desc key b a = true.
Proof. unfold desc. rewrite !Z.leb_le. lia. Qed.

Lemma desc_trans {A} (key : A -> Z) (a b c : A) :
  desc key a b = true -> desc key b c = true -> desc key a c = true.
Proof. unfold desc. rewrite !Z.leb_le. lia. Qed.

Lemma asc_nulls_last_total (x y : option Z) :
  action_crud.asc_nulls_last x y = true \/ action_crud.asc_nulls_last y x = true.
Proof.
  destruct x as [u|], y as [v|]; simpl; auto.
  destruct (Z.leb_spec u v); [now left|right].
  apply Z.leb_le. lia.
Qed.

Lemma asc_nulls_last_trans (x y z : option Z) :
  action_crud.asc_nulls_last x y = true ->
  action_crud.asc_nulls_last y z = true ->
  action_crud.asc_nulls_last x z = true.
Proof.
  destruct x as [u|], y as [v|], z as [w|]; simpl; try congruence.
  rewrite !Z.leb_le. lia.
Qed.

Lemma priority_order_spec (a b : Action.t) :
  action_crud.priority_desc_due_at_asc a b = true <->
  ActionPriority.sort_key (Action.priority b) < ActionPriority.sort_key (Action.priority a)
  \/ (ActionPriority.sort_key (Action.priority a) = ActionPriority.sort_key (Action.priority b)
      /\ action_crud.asc_nulls_last (Action.due_at a) (Action.due_at b) = true).
Proof.
  unfold action_crud.priority_desc_due_at_asc.
  rewrite orb_true_iff, andb_true_iff, Z.ltb_lt, Z.eqb_eq. reflexivity.
Qed.

Lemma priority_order_total (a b : Action.t) :
  action_crud.priority_desc_due_at_asc a b = true
  \/ action_crud.priority_desc_due_at_asc b a = true.
Proof.
  rewrite !priority_order_spec.
  destruct (Z.lt_total (ActionPriority.sort_key (Action.priority a))
                       (ActionPriority.sort_key (Action.priority b))) as [H|[H|H]].
  - right; now left.
  - destruct (asc_nulls_last_total (Action.due_at a) (Action.due_at b)).
    + left; right; now split.
    + right; right; now split.
  - left; now left.
Qed.

Lemma priority_order_trans (a b c : Action.t) :
  action_crud.priority_desc_due_at_asc a b = true ->
  action_crud.priority_desc_due_at_asc b c = true ->
  action_crud.priority_desc_due_at_asc a c = true.
Proof.
  rewrite !priority_order_spec.
  intros [H1|[H1 D1]] [H2|[H2 D2]]; try (left; lia).
  right; split; [lia|]. eapply asc_nulls_last_trans; eauto.
Qed.

Lemma sort_key_inj (p q : ActionPriority.t) :
  ActionPriority.sort_key p = ActionPriority.sort_key q -> p = q.
Proof. destruct p, q; simpl; intros H; try reflexivity; discriminate. Qed.

Lemma precedes_before_or_level (a b : Action.t) :
  action_crud.priority_desc_due_at_asc a b = true -> before_or_level a b.
Proof.
  rewrite priority_order_spec. intros [H|[H D]]; [now left|right].
  split; [now apply sort_key_inj|].
  destruct (Action.due_at a), (Action.due_at b); simpl in D; auto.
  - now apply Z.leb_le.
  - discriminate.
Qed.



(** ** Pagination of the list queries *)







(** Pages of the sample store, run: two contacts tagged [vip], one per
    page, newest first; a request beyond the end is empty, a request
    outside the bigints is refused. *)
Example get_contacts_pages :
  contact_crud.get_contacts texticlike sample.db [] 0 1 None None (Some ["vip"])
  = Returned ([sample.bob], 2)
  /\ contact_crud.get_contacts texticlike sample.db [] 1 1 None None (Some ["vip"])
     = Returned ([sample.ada], 2)
  /\ contact_crud.get_contacts texticlike sample.db [] 2 1 None None (Some ["vip"])
     = Returned ([], 2)
  /\ contact_crud.get_contacts texticlike sample.db [] (-1) 1 None None (Some ["vip"])
     = Raised DataError.
Proof. repeat split. Qed.


(** ** The order of the Action list *)

(** C6. The page returned by [get_actions], for any Actions and any
    filters, is ordered by priority descending in the order
    urgent > high > medium > low, ties broken by [due_at] ascending with a
    null [due_at] after every non-null one: of two rows of the page, the
    earlier has the higher priority, or the same priority and a [due_at]
    that is not later (null counting as latest). *)
Theorem get_actions_page_ordered
    (db : Store) (scan : scan_order) (now skip limit : Z) (contact_id : option Z)
    (status : option ActionStatus.t) (priority : option ActionPriority.t)
    (action_type : option ActionType.t) (assigned_to : option Z) (overdue_only : bool)
    (page : list Action.t) (total : Z) :
  action_crud.get_actions db scan now skip limit contact_id status priority action_type
    assigned_to overdue_only = Returned (page, total) ->
  (forall i j a b, (i < j)%nat ->
     nth_error page i = Some a -> nth_error page j = Some b -> before_or_level a b)
  /\ ActionPriority.sort_key ActionPriority.low < ActionPriority.sort_key ActionPriority.medium
     < ActionPriority.sort_key ActionPriority.high
  /\ ActionPriority.sort_key ActionPriority.high < ActionPriority.sort_key ActionPriority.urgent.
Proof.
  intros Hq. split; [|simpl; lia].
  unfold action_crud.get_actions in Hq.
  match type of Hq with context [offset_limit skip limit ?l] =>
    destruct (offset_limit_spec skip limit l) as [(_ & _ & E)|[_ E]]; rewrite E in Hq
  end; simpl in Hq; [|discriminate].
  injection Hq as <- _.
  intros i j a b Hij Ha Hb.
  apply precedes_before_or_level.
  revert i j a b Hij Ha Hb.
  apply StronglySorted_nth, StronglySorted_firstn, StronglySorted_skipn.
  apply order_by_sorted.
  - exact priority_order_total.
  - exact priority_order_trans.
Qed.

Lemma get_actions_page_ordered_witness :
  action_crud.get_actions sample.db [] 100 0 10 None None None None None false
  = Returned ([sample.call2; sample.done1; sample.follow_up1], 3)
  /\ before_or_level sample.call2 sample.done1
  /\ before_or_level sample.done1 sample.follow_up1.
Proof.
  pose proof (@get_actions_page_ordered sample.db [] 100 0 10 None None None None None false
                [sample.call2; sample.done1; sample.follow_up1] 3 eq_refl) as [H _].
  split; [reflexivity|]. split.
  - apply (H 0%nat 1%nat); [lia | reflexivity | reflexivity].
  - apply (H 1%nat 2%nat); [lia | reflexivity | reflexivity].
Defined.

(** ** The tag filter of the Contact list *)






(** ** Partial updates *)

Lemma first_filter_some {A} (p : A -> bool) (rows : list A) (x : A) :
  first (filter p rows) = Some x -> In x rows /\ p x = true.
Proof.
  intros H. apply filter_In.
  destruct (filter p rows) as [|y l]; [discriminate|].
  injection H as ->. now left.
Qed.

Lemma first_filter_updated {A} (id : A -> Z) (key : Z) (stored loaded : A)
    (rows : list A) :
  first (filter (fun r => id r =? key) rows) = Some loaded ->
  id stored = key ->
  first (filter (fun r => id r =? key) (update_where_id id key stored rows)) = Some stored.
Proof.
  intros H Hid. induction rows as [|r rows IH]; [discriminate|].
  simpl in *. destruct (id r =? key) eqn:E.
  - simpl. rewrite Hid, Z.eqb_refl. reflexivity.
  - simpl. rewrite E. now apply IH.
Qed.

Ltac slots :=
  repeat match goal with
         | H : context [setattr_not_null ?s _] |- _ =>
             is_var s; destruct s as [|[?|]]; cbn [setattr_not_null bind] in H
         | H : context [setattr_not_null_as _ ?s _] |- _ =>
             is_var s; destruct s as [|[?|]]; cbn [setattr_not_null_as bind] in H
         end.

Ltac frame :=
  unfold kept; repeat split; intros;
  repeat match goal with
         | E : ?s = Omitted |- _ => first [discriminate E | subst s | clear E]
         end;
  reflexivity.

Lemma contact_setattrs_frame (u : ContactUpdate.t) (old edited : Contact.t) :
  contact_crud.setattrs old u = Returned edited ->
  contact_frame u old edited /\ Contact.updated_at edited = Contact.updated_at old.
Proof.
  destruct u as [f l e ph co jt st so ow tg nt na].
  unfold contact_crud.setattrs, contact_frame; cbn [ContactUpdate.first_name
    ContactUpdate.last_name ContactUpdate.email ContactUpdate.phone ContactUpdate.company
    ContactUpdate.job_title ContactUpdate.status ContactUpdate.source
    ContactUpdate.owner_id ContactUpdate.tags ContactUpdate.notes
    ContactUpdate.next_action].
  intros H. slots; try discriminate; injection H as <-; simpl; frame.
Qed.

Lemma interaction_setattrs_frame (u : InteractionUpdate.t) (old edited : Interaction.t) :
  interaction_crud.setattrs old u = Returned edited ->
  interaction_frame u old edited
  /\ Interaction.updated_at edited = Interaction.updated_at old.
Proof.
  destruct u as [ty oc su ou cb].
  unfold interaction_crud.setattrs, interaction_frame; cbn [InteractionUpdate.type
    InteractionUpdate.occurred_at InteractionUpdate.summary InteractionUpdate.outcome
    InteractionUpdate.created_by].
  intros H. slots; try discriminate; injection H as <-; simpl; frame.
Qed.

Lemma proposal_setattrs_frame (u : ProposalUpdate.t) (old edited : Proposal.t) :
  proposal_crud.setattrs old u = Returned edited ->
  proposal_frame u old edited /\ Proposal.updated_at edited = Proposal.updated_at old.
Proof.
  destruct u as [ti de va st ap ex].
  unfold proposal_crud.setattrs, proposal_frame; cbn [ProposalUpdate.title
    ProposalUpdate.description ProposalUpdate.value ProposalUpdate.status
    ProposalUpdate.applied_at ProposalUpdate.expires_at].
  intros H. slots; try discriminate; injection H as <-; simpl; frame.
Qed.

Lemma action_setattrs_frame (u : ActionUpdate.t) (old edited : Action.t) :
  action_crud.setattrs old u = Returned edited ->
  action_frame u old edited
  /\ kept (ActionUpdate.completed_at u) (Action.completed_at old)
          (Action.completed_at edited)
  /\ Action.completed_at edited
     = setattr_as timestamp (ActionUpdate.completed_at u) (Action.completed_at old)
  /\ Action.updated_at edited = Action.updated_at old.
Proof.
  destruct u as [ti de st pr ty du co asg pid iid].
  unfold action_crud.setattrs, action_frame; cbn [ActionUpdate.title
    ActionUpdate.description ActionUpdate.status ActionUpdate.priority
    ActionUpdate.action_type ActionUpdate.due_at ActionUpdate.completed_at
    ActionUpdate.assigned_to ActionUpdate.proposal_id ActionUpdate.interaction_id].
  intros H. slots; try discriminate; injection H as <-; simpl; frame.
Qed.

Lemma get_by_id_key {A} (id : A -> Z) (key : Z) (rows : list A) (x : A) :
  first (filter (fun r => id r =? key) rows) = Some x -> id x = key.
Proof.
  intros H. apply first_filter_some in H. now apply Z.eqb_eq.
Qed.

(** What the attribute loop can raise. *)
Lemma contact_setattrs_raises (u : ContactUpdate.t) (old : Contact.t) (e : exn) :
  contact_crud.setattrs old u = Raised e -> e = IntegrityError.
Proof.
  destruct u as [f l em ph co jt st so ow tg nt na].
  unfold contact_crud.setattrs; cbn [ContactUpdate.first_name ContactUpdate.last_name
    ContactUpdate.status].
  intros H. slots; try discriminate; now injection H as <-.
Qed.

Lemma interaction_setattrs_raises (u : InteractionUpdate.t) (old : Interaction.t)
    (e : exn) :
  interaction_crud.setattrs old u = Raised e -> e = IntegrityError.
Proof.
  destruct u as [ty oc su ou cb].
  unfold interaction_crud.setattrs; cbn [InteractionUpdate.type
    InteractionUpdate.occurred_at InteractionUpdate.summary].
  intros H. slots; try discriminate; now injection H as <-.
Qed.

Lemma proposal_setattrs_raises (u : ProposalUpdate.t) (old : Proposal.t) (e : exn) :
  proposal_crud.setattrs old u = Raised e -> e = IntegrityError.
Proof.
  destruct u as [ti de va st ap ex].
  unfold proposal_crud.setattrs; cbn [ProposalUpdate.title ProposalUpdate.status].
  intros H. slots; try discriminate; now injection H as <-.
Qed.

Lemma action_setattrs_raises (u : ActionUpdate.t) (old : Action.t) (e : exn) :
  action_crud.setattrs old u = Raised e -> e = IntegrityError.
Proof.
  destruct u as [ti de st pr ty du co asg pid iid].
  unfold action_crud.setattrs; cbn [ActionUpdate.title ActionUpdate.status
    ActionUpdate.priority ActionUpdate.action_type].
  intros H. slots; try discriminate; now injection H as <-.
Qed.

(** The ways a commit can end: nothing to send; a value out of range; a
    constraint violated; the row stored. *)
Lemma contact_commit_cases (db : Store) (now : Z) (old : Contact.t)
    (u : ContactUpdate.t) :
  (contact_crud.modified old u = false
   /\ contact_crud.commit_update db now old u = (db, Returned (Some old)))
  \/ (contact_crud.modified old u = true
      /\ ((contact_crud.out_of_range old u = true
           /\ contact_crud.commit_update db now old u = (db, Raised DataError))
          \/ (contact_crud.out_of_range old u = false
              /\ (contact_crud.commit_update db now old u = (db, Raised IntegrityError)
                  \/ exists edited,
                       contact_crud.setattrs old u = Returned edited
                       /\ col_test
                            (fun e => existsb
                                        (fun c => negb (Contact.id c =? Contact.id old)
                                                  && col_test (String.eqb e)
                                                              (Contact.email c))
                                        (contacts db))
                            (Contact.email edited) = false
                       /\ contact_crud.commit_update db now old u
                          = (with_contacts db
                               (update_where_id Contact.id (Contact.id old)
                                  (contact_crud.set_updated_at edited now) (contacts db)),
                             Returned (Some (contact_crud.set_updated_at edited now))))))).
Proof.
  unfold contact_crud.commit_update.
  destruct (contact_crud.modified old u); cbn [negb]; [right|now left].
  split; [reflexivity|].
  destruct (contact_crud.out_of_range old u); [now left|right].
  split; [reflexivity|].
  destruct (contact_crud.setattrs old u) as [edited|e] eqn:Es.
  - match goal with |- context [if ?c then _ else _] => destruct c eqn:Eu end;
      [now left|right].
    exists edited. auto.
  - apply contact_setattrs_raises in Es. subst. now left.
Qed.

Lemma interaction_commit_cases (db : Store) (now : Z) (old : Interaction.t)
    (u : InteractionUpdate.t) :
  (interaction_crud.modified old u = false
   /\ interaction_crud.commit_update db now old u = (db, Returned (Some old)))
  \/ (interaction_crud.modified old u = true
      /\ (interaction_crud.commit_update db now old u = (db, Raised IntegrityError)
          \/ exists edited,
               interaction_crud.setattrs old u = Returned edited
               /\ interaction_crud.commit_update db now old u
                  = (with_interactions db
                       (update_where_id Interaction.id (Interaction.id old)
                          (interaction_crud.set_updated_at edited now) (interactions db)),
                     Returned (Some (interaction_crud.set_updated_at edited now))))).
Proof.
  unfold interaction_crud.commit_update.
  destruct (interaction_crud.modified old u); cbn [negb]; [right|now left].
  split; [reflexivity|].
  destruct (interaction_crud.setattrs old u) as [edited|e] eqn:Es.
  - right. exists edited. auto.
  - apply interaction_setattrs_raises in Es. subst. now left.
Qed.

Lemma proposal_commit_cases (db : Store) (now : Z) (old : Proposal.t)
    (u : ProposalUpdate.t) :
  (proposal_crud.modified old u = false
   /\ proposal_crud.commit_update db now old u = (db, Returned (Some old)))
  \/ (proposal_crud.modified old u = true
      /\ ((proposal_crud.out_of_range old u = true
           /\ proposal_crud.commit_update db now old u = (db, Raised DataError))
          \/ (proposal_crud.out_of_range old u = false
              /\ (proposal_crud.commit_update db now old u = (db, Raised IntegrityError)
                  \/ exists edited,
                       proposal_crud.setattrs old u = Returned edited
                       /\ proposal_crud.commit_update db now old u
                          = (with_proposals db
                               (update_where_id Proposal.id (Proposal.id old)
                                  (proposal_crud.set_updated_at edited now)
                                  (proposals db)),
                             Returned (Some (proposal_crud.set_updated_at edited now))))))).
Proof.
  unfold proposal_crud.commit_update.
  destruct (proposal_crud.modified old u); cbn [negb]; [right|now left].
  split; [reflexivity|].
  destruct (proposal_crud.out_of_range old u); [now left|right].
  split; [reflexivity|].
  destruct (proposal_crud.setattrs old u) as [edited|e] eqn:Es.
  - right. exists edited. auto.
  - apply proposal_setattrs_raises in Es. subst. now left.
Qed.

Lemma action_commit_cases (db : Store) (now : Z) (old : Action.t) (u : ActionUpdate.t) :
  (action_crud.modified old u = false
   /\ action_crud.commit_update db now old u = (db, Returned (Some old)))
  \/ (action_crud.modified old u = true
      /\ ((action_crud.out_of_range old u = true
           /\ action_crud.commit_update db now old u = (db, Raised DataError))
          \/ (action_crud.out_of_range old u = false
              /\ (action_crud.commit_update db now old u = (db, Raised IntegrityError)
                  \/ exists edited,
                       action_crud.setattrs old u = Returned edited
                       /\ references Proposal.id (proposals db)
                            (Action.proposal_id edited) = true
                       /\ references Interaction.id (interactions db)
                            (Action.interaction_id edited) = true
                       /\ action_crud.commit_update db now old u
                          = (with_actions db
                               (update_where_id Action.id (Action.id old)
                                  (action_crud.set_updated_at edited now) (actions db)),
                             Returned (Some (action_crud.set_updated_at edited now))))))).
Proof.
  unfold action_crud.commit_update.
  destruct (action_crud.modified old u); cbn [negb]; [right|now left].
  split; [reflexivity|].
  destruct (action_crud.out_of_range old u); [now left|right].
  split; [reflexivity|].
  destruct (action_crud.setattrs old u) as [edited|e] eqn:Es.
  - match goal with |- context [if ?c then _ else _] => destruct c eqn:Efk end;
      [now left|right].
    apply orb_false_iff in Efk. destruct Efk as [E1 E2].
    apply negb_false_iff in E1. apply negb_false_iff in E2.
    exists edited. auto.
  - apply action_setattrs_raises in Es. subst. now left.
Qed.

Lemma update_contact_frame (db : Store) (now id : Z) (u : ContactUpdate.t)
    (old : Contact.t) :
  contact_crud.get_contact db id = Some old ->
  exists new,
    contact_crud.get_contact (fst (contact_crud.update_contact db now id u)) id = Some new
    /\ contact_frame u old new
    /\ (forall r, snd (contact_crud.update_contact db now id u) = Returned (Some r) ->
                  r = new).
Proof.
  intros Hget. pose proof (get_by_id_key _ _ _ Hget) as Hid.
  unfold contact_crud.update_contact. rewrite Hget. cbv zeta.
  destruct (contact_commit_cases db now old u)
    as [[_ ->]|[_ [[_ ->]|[_ [->|(edited & Es & _ & ->)]]]]].
  - exists old. simpl. repeat split; try exact Hget; try frame.
    intros r H. now injection H as <-.
  - exists old. simpl. repeat split; try exact Hget; try discriminate; try frame.
  - exists old. simpl. repeat split; try exact Hget; try discriminate; try frame.
  - destruct (contact_setattrs_frame _ _ Es) as [Hf _].
    exists (contact_crud.set_updated_at edited now). simpl. split; [|split].
    + unfold contact_crud.get_contact. cbn [contacts with_contacts]. rewrite Hid.
      apply first_filter_updated with (loaded := old); [exact Hget|].
      destruct Hf as [Hf _]. simpl. congruence.
    + exact Hf.
    + intros r H. now injection H as <-.
Qed.

Lemma update_interaction_frame (db : Store) (now id : Z) (u : InteractionUpdate.t)
    (old : Interaction.t) :
  interaction_crud.get_interaction db id = Some old ->
  exists new,
    interaction_crud.get_interaction
      (fst (interaction_crud.update_interaction db now id u)) id = Some new
    /\ interaction_frame u old new
    /\ (forall r, snd (interaction_crud.update_interaction db now id u)
                  = Returned (Some r) -> r = new).
Proof.
  intros Hget. pose proof (get_by_id_key _ _ _ Hget) as Hid.
  unfold interaction_crud.update_interaction. rewrite Hget. cbv zeta.
  destruct (interaction_commit_cases db now old u)
    as [[_ ->]|[_ [->|(edited & Es & ->)]]].
  - exists old. simpl. repeat split; try exact Hget; try frame.
    intros r H. now injection H as <-.
  - exists old. simpl. repeat split; try exact Hget; try discriminate; try frame.
  - destruct (interaction_setattrs_frame _ _ Es) as [Hf _].
    exists (interaction_crud.set_updated_at edited now). simpl. split; [|split].
    + unfold interaction_crud.get_interaction. cbn [interactions with_interactions].
      rewrite Hid.
      apply first_filter_updated with (loaded := old); [exact Hget|].
      destruct Hf as [Hf _]. simpl. congruence.
    + exact Hf.
    + intros r H. now injection H as <-.
Qed.

Lemma update_proposal_frame (db : Store) (now id : Z) (u : ProposalUpdate.t)
    (old : Proposal.t) :
  proposal_crud.get_proposal db id = Some old ->
  exists new,
    proposal_crud.get_proposal (fst (proposal_crud.update_proposal db now id u)) id
    = Some new
    /\ proposal_frame u old new
    /\ (forall r, snd (proposal_crud.update_proposal db now id u) = Returned (Some r) ->
                  r = new).
Proof.
  intros Hget. pose proof (get_by_id_key _ _ _ Hget) as Hid.
  unfold proposal_crud.update_proposal. rewrite Hget. cbv zeta.
  destruct (proposal_commit_cases db now old u)
    as [[_ ->]|[_ [[_ ->]|[_ [->|(edited & Es & ->)]]]]].
  - exists old. simpl. repeat split; try exact Hget; try frame.
    intros r H. now injection H as <-.
  - exists old. simpl. repeat split; try exact Hget; try discriminate; try frame.
  - exists old. simpl. repeat split; try exact Hget; try discriminate; try frame.
  - destruct (proposal_setattrs_frame _ _ Es) as [Hf _].
    exists (proposal_crud.set_updated_at edited now). simpl. split; [|split].
    + unfold proposal_crud.get_proposal. cbn [proposals with_proposals]. rewrite Hid.
      apply first_filter_updated with (loaded := old); [exact Hget|].
      destruct Hf as [Hf _]. simpl. congruence.
    + exact Hf.
    + intros r H. now injection H as <-.
Qed.

Lemma stamped_frame (u : ActionUpdate.t) (old edited : Action.t) (now : Z) :
  action_crud.setattrs old (stamped old now u) = Returned edited ->
  action_frame u old edited.
Proof.
  intros Es. unfold stamped in Es.
  destruct (action_crud.status_is_completed u) eqn:Ec;
    [destruct (Action.completed_at old) eqn:Eo|];
    apply action_setattrs_frame in Es; destruct Es as (Hf & Hk & _).
  - exact Hf.
  - unfold action_frame in *. cbn in Hf.
    repeat match goal with H : _ /\ _ |- _ => destruct H end.
    repeat split; try assumption.
    intros [?|?]; congruence.
  - exact Hf.
Qed.

Lemma update_action_unfold (db : Store) (now db_now id : Z) (u : ActionUpdate.t)
    (old : Action.t) :
  action_crud.get_action db id = Some old ->
  action_crud.update_action db now db_now id u
  = action_crud.commit_update db db_now old (stamped old now u).
Proof. intros Hget. unfold action_crud.update_action. now rewrite Hget. Qed.

Lemma update_action_frame (db : Store) (now db_now id : Z) (u : ActionUpdate.t)
    (old : Action.t) :
  action_crud.get_action db id = Some old ->
  exists new,
    action_crud.get_action (fst (action_crud.update_action db now db_now id u)) id
    = Some new
    /\ action_frame u old new
    /\ (forall r, snd (action_crud.update_action db now db_now id u)
                  = Returned (Some r) -> r = new).
Proof.
  intros Hget. pose proof (get_by_id_key _ _ _ Hget) as Hid.
  rewrite (@update_action_unfold db now db_now id u old Hget).
  destruct (action_commit_cases db db_now old (stamped old now u))
    as [[_ ->]|[_ [[_ ->]|[_ [->|(edited & Es & _ & _ & ->)]]]]].
  - exists old. simpl. repeat split; try exact Hget; try frame.
    intros r H. now injection H as <-.
  - exists old. simpl. repeat split; try exact Hget; try discriminate; try frame.
  - exists old. simpl. repeat split; try exact Hget; try discriminate; try frame.
  - apply stamped_frame in Es.
    exists (action_crud.set_updated_at edited db_now). simpl. split; [|split].
    + unfold action_crud.get_action. cbn [actions with_actions]. rewrite Hid.
      apply first_filter_updated with (loaded := old); [exact Hget|].
      destruct Es as [Hf _]. simpl. congruence.
    + exact Es.
    + intros r H. now injection H as <-.
Qed.

(** C2, as amended.  For every existing entity and every sparse update
    payload, the update leaves every column whose field the payload omits at
    its prior value (an omitted field is never read as "set to null"), and
    [id], [contact_id] and [created_at] with them.  Two columns stand
    outside this frame: [updated_at], which the store refreshes, and the
    [completed_at] of an Action, which an update completing an Action with
    no completion time stamps although the payload omits it. *)
Theorem partial_update_keeps_omitted_fields (db : Store) (now db_now id : Z) :
  (forall u old,
      contact_crud.get_contact db id = Some old ->
      exists new,
        contact_crud.get_contact (fst (contact_crud.update_contact db db_now id u)) id
        = Some new
        /\ contact_frame u old new)
  /\ (forall u old,
         interaction_crud.get_interaction db id = Some old ->
         exists new,
           interaction_crud.get_interaction
             (fst (interaction_crud.update_interaction db db_now id u)) id = Some new
           /\ interaction_frame u old new)
  /\ (forall u old,
         proposal_crud.get_proposal db id = Some old ->
         exists new,
           proposal_crud.get_proposal
             (fst (proposal_crud.update_proposal db db_now id u)) id = Some new
           /\ proposal_frame u old new)
  /\ (forall u old,
         action_crud.get_action db id = Some old ->
         exists new,
           action_crud.get_action
             (fst (action_crud.update_action db now db_now id u)) id = Some new
           /\ action_frame u old new).
Proof.
  repeat split; intros u old Hget.
  - destruct (@update_contact_frame db db_now id u old Hget) as (new & H1 & H2 & _); eauto.
  - destruct (@update_interaction_frame db db_now id u old Hget) as (new & H1 & H2 & _); eauto.
  - destruct (@update_proposal_frame db db_now id u old Hget) as (new & H1 & H2 & _); eauto.
  - destruct (@update_action_frame db now db_now id u old Hget) as (new & H1 & H2 & _); eauto.
Qed.

Lemma partial_update_keeps_omitted_fields_witness :
  (exists new,
      contact_crud.get_contact
        (fst (contact_crud.update_contact sample.db 60 1 sample.clear_company)) 1
      = Some new
      /\ contact_frame sample.clear_company sample.ada new)
  /\ (exists new,
         action_crud.get_action
           (fst (action_crud.update_action sample.db 50 60 1 sample.complete)) 1
         = Some new
         /\ action_frame sample.complete sample.follow_up1 new).
Proof.
  destruct (partial_update_keeps_omitted_fields sample.db 50 60 1) as (Hc & _ & _ & Ha).
  split.
  - apply (Hc sample.clear_company sample.ada). reflexivity.
  - apply (Ha sample.complete sample.follow_up1). reflexivity.
Defined.

(** C2 as stated fails: the payload [{"status": "completed"}] omits
    [completed_at], and the update changes it from null to the current
    time; [updated_at], which no payload can name, changes too. *)
Lemma partial_update_changes_omitted_field :
  action_crud.get_action sample.db 1 = Some sample.follow_up1
  /\ ActionUpdate.completed_at sample.complete = Omitted
  /\ exists new,
       action_crud.get_action
         (fst (action_crud.update_action sample.db 50 60 1 sample.complete)) 1 = Some new
       /\ Action.completed_at sample.follow_up1 = None
       /\ Action.completed_at new = Some 50
       /\ ~ kept (ActionUpdate.completed_at sample.complete)
                 (Action.completed_at sample.follow_up1) (Action.completed_at new)
       /\ Action.updated_at new <> Action.updated_at sample.follow_up1.
Proof.
  split; [reflexivity|]. split; [reflexivity|].
  eexists. split; [vm_compute; reflexivity|].
  split; [reflexivity|]. split; [reflexivity|]. split.
  - intros H. specialize (H eq_refl). discriminate H.
  - discriminate.
Qed.

(** C10. For every Interaction, Proposal and Action and every update
    payload, the [contact_id] of the entity after the update is its
    [contact_id] before: the update schemas have no [contact_id] field, so
    the attribute loop never writes the column.  This holds of the stored
    row and of the row the update returns. *)
Theorem update_keeps_contact_id (db : Store) (now db_now id : Z) :
  (forall u old,
      interaction_crud.get_interaction db id = Some old ->
      exists new,
        interaction_crud.get_interaction
          (fst (interaction_crud.update_interaction db db_now id u)) id = Some new
        /\ Interaction.contact_id new = Interaction.contact_id old
        /\ forall r, snd (interaction_crud.update_interaction db db_now id u)
                     = Returned (Some r) ->
                     Interaction.contact_id r = Interaction.contact_id old)
  /\ (forall u old,
         proposal_crud.get_proposal db id = Some old ->
         exists new,
           proposal_crud.get_proposal
             (fst (proposal_crud.update_proposal db db_now id u)) id = Some new
           /\ Proposal.contact_id new = Proposal.contact_id old
           /\ forall r, snd (proposal_crud.update_proposal db db_now id u)
                        = Returned (Some r) ->
                        Proposal.contact_id r = Proposal.contact_id old)
  /\ (forall u old,
         action_crud.get_action db id = Some old ->
         exists new,
           action_crud.get_action
             (fst (action_crud.update_action db now db_now id u)) id = Some new
           /\ Action.contact_id new = Action.contact_id old
           /\ forall r, snd (action_crud.update_action db now db_now id u)
                        = Returned (Some r) ->
                        Action.contact_id r = Action.contact_id old).
Proof.
  split; [|split]; intros u old Hget.
  - destruct (@update_interaction_frame db db_now id u old Hget) as (new & H1 & H2 & H3).
    exists new. split; [exact H1|]. split; [apply H2|].
    intros r Hr. rewrite (H3 r Hr). apply H2.
  - destruct (@update_proposal_frame db db_now id u old Hget) as (new & H1 & H2 & H3).
    exists new. split; [exact H1|]. split; [apply H2|].
    intros r Hr. rewrite (H3 r Hr). apply H2.
  - destruct (@update_action_frame db now db_now id u old Hget) as (new & H1 & H2 & H3).
    exists new. split; [exact H1|]. split; [apply H2|].
    intros r Hr. rewrite (H3 r Hr). apply H2.
Qed.

Lemma update_keeps_contact_id_witness :
  (exists new,
      interaction_crud.get_interaction
        (fst (interaction_crud.update_interaction sample.db 60 2 sample.signed)) 2
      = Some new
      /\ Interaction.contact_id new = 1)
  /\ (exists new,
         proposal_crud.get_proposal
           (fst (proposal_crud.update_proposal sample.db 60 3 sample.submit)) 3
         = Some new
         /\ Proposal.contact_id new = 1)
  /\ (exists new,
         action_crud.get_action
           (fst (action_crud.update_action sample.db 50 60 2 sample.complete)) 2
         = Some new
         /\ Action.contact_id new = 2).
Proof.
  split; [|split].
  - destruct (update_keeps_contact_id sample.db 50 60 2) as (H & _ & _).
    destruct (H sample.signed sample.mail1 eq_refl) as (new & H1 & H2 & _).
    exists new. split; [exact H1|exact H2].
  - destruct (update_keeps_contact_id sample.db 50 60 3) as (_ & H & _).
    destruct (H sample.submit sample.won1 eq_refl) as (new & H1 & H2 & _).
    exists new. split; [exact H1|exact H2].
  - destruct (update_keeps_contact_id sample.db 50 60 2) as (_ & _ & H).
    destruct (H sample.complete sample.call2 eq_refl) as (new & H1 & H2 & _).
    exists new. split; [exact H1|exact H2].
Defined.

(** The updates of the sample store, run. *)
Example update_interaction_run :
  snd (interaction_crud.update_interaction sample.db 60 2 sample.signed)
  = Returned (Some (Interaction.mk 2 1 InteractionType.email 12 "Sent the offer"
                      (Some "Signed") None 12 60)).
Proof. vm_compute. reflexivity. Qed.

Example update_action_run :
  snd (action_crud.update_action sample.db 50 60 1 sample.complete)
  = Returned (Some (Action.mk 1 1 (Some 1) None "Send the audit plan" None
                      ActionStatus.completed (Some 50) 16 60 (Some 40)
                      ActionType.follow_up None ActionPriority.high)).
Proof. vm_compute. reflexivity. Qed.
(** ** Completing an Action *)







(** A payload that names [completed_at] itself, run on the sample store.
    On an Action completed at 5 the value of the payload is written; on an
    Action not yet completed the stamp of the completion replaces it. *)
Example completing_with_explicit_completed_at :
  (exists new,
      action_crud.update_action sample.db 50 60 3 sample.complete_at_9
      = (with_actions sample.db [sample.follow_up1; sample.call2; new],
         Returned (Some new))
      /\ Action.completed_at sample.done1 = Some 5
      /\ Action.completed_at new = Some 9)
  /\ (exists new,
         action_crud.update_action sample.db 50 60 1 sample.complete_at_9
         = (with_actions sample.db [new; sample.call2; sample.done1],
            Returned (Some new))
         /\ Action.completed_at sample.follow_up1 = None
         /\ Action.completed_at new = Some 50).
Proof.
  split; eexists; (split; [vm_compute; reflexivity|]); split; reflexivity.
Qed.

(** ** Cascading deletes *)

Lemma fold_delete_interactions (l : list Interaction.t) (db : Store) :
  let db' := fold_left delete_interaction_row l db in
  contacts db' = contacts db
  /\ proposals db' = proposals db
  /\ (forall x, In x (interactions db') <->
                In x (interactions db)
                /\ forall i, In i l -> Interaction.id x <> Interaction.id i)
  /\ incl (actions db') (actions db).
Proof.
  revert db. induction l as [|i l IH]; intros db; simpl.
  - repeat split; try tauto; try apply incl_refl.
  - destruct (IH (delete_interaction_row db i)) as (Hc & Hp & Hi & Ha).
    split; [exact Hc|]. split; [exact Hp|]. split.
    + intros x. rewrite Hi. cbn [interactions delete_interaction_row with_interactions
        with_actions]. unfold delete_where_id. rewrite filter_In, negb_true_iff, Z.eqb_neq.
      split.
      * intros ((Hx & Hne) & Hl). split; [exact Hx|].
        intros j [<-|Hj]; auto.
      * intros (Hx & Hl). repeat split; auto.
    + intros a Ha'. apply Ha in Ha'.
      cbn [actions delete_interaction_row with_interactions with_actions] in Ha'.
      now apply filter_In in Ha'.
Qed.

Lemma fold_delete_proposals (l : list Proposal.t) (db : Store) :
  let db' := fold_left delete_proposal_row l db in
  contacts db' = contacts db
  /\ interactions db' = interactions db
  /\ (forall x, In x (proposals db') <->
                In x (proposals db)
                /\ forall p, In p l -> Proposal.id x <> Proposal.id p)
  /\ incl (actions db') (actions db).
Proof.
  revert db. induction l as [|p l IH]; intros db; simpl.
  - repeat split; try tauto; try apply incl_refl.
  - destruct (IH (delete_proposal_row db p)) as (Hc & Hi & Hp & Ha).
    split; [exact Hc|]. split; [exact Hi|]. split.
    + intros x. rewrite Hp. cbn [proposals delete_proposal_row with_proposals
        with_actions]. unfold delete_where_id. rewrite filter_In, negb_true_iff, Z.eqb_neq.
      split.
      * intros ((Hx & Hne) & Hl). split; [exact Hx|].
        intros j [<-|Hj]; auto.
      * intros (Hx & Hl). repeat split; auto.
    + intros a Ha'. apply Ha in Ha'.
      cbn [actions delete_proposal_row with_proposals with_actions] in Ha'.
      now apply filter_In in Ha'.
Qed.

Lemma fk_is_spec (key : Z) (fk : option Z) : fk_is key fk = true <-> fk = Some key.
Proof.
  destruct fk as [k|]; simpl.
  - rewrite Z.eqb_eq. split; congruence.
  - split; discriminate.
Qed.

(** C4. In every store: deleting a Contact removes it together with every
    Interaction, Proposal and Action whose [contact_id] names it; deleting a
    Proposal removes every Action whose [proposal_id] names it and leaves
    the Contacts and the Interactions as they are; deleting an Interaction
    removes every Action whose [interaction_id] names it and leaves the
    Contacts and the Proposals as they are. *)
Theorem delete_cascades (db : Store) :
  (forall key c,
      contact_crud.get_contact db key = Some c ->
      let db' := fst (contact_crud.delete_contact db key) in
      snd (contact_crud.delete_contact db key) = true
      /\ contact_crud.get_contact db' key = None
      /\ (forall i, In i (interactions db) -> Interaction.contact_id i = key ->
                    ~ In i (interactions db'))
      /\ (forall p, In p (proposals db) -> Proposal.contact_id p = key ->
                    ~ In p (proposals db'))
      /\ (forall a, In a (actions db) -> Action.contact_id a = key ->
                    ~ In a (actions db')))
  /\ (forall key p,
         proposal_crud.get_proposal db key = Some p ->
         let db' := fst (proposal_crud.delete_proposal db key) in
         snd (proposal_crud.delete_proposal db key) = true
         /\ proposal_crud.get_proposal db' key = None
         /\ (forall a, In a (actions db) -> Action.proposal_id a = Some key ->
                       ~ In a (actions db'))
         /\ contacts db' = contacts db
         /\ interactions db' = interactions db)
  /\ (forall key i,
         interaction_crud.get_interaction db key = Some i ->
         let db' := fst (interaction_crud.delete_interaction db key) in
         snd (interaction_crud.delete_interaction db key) = true
         /\ interaction_crud.get_interaction db' key = None
         /\ (forall a, In a (actions db) -> Action.interaction_id a = Some key ->
                       ~ In a (actions db'))
         /\ contacts db' = contacts db
         /\ proposals db' = proposals db).
Proof.
  split; [|split].
  - intros key c Hget db'. pose proof (get_by_id_key _ _ _ Hget) as Hid.
    subst db'. unfold contact_crud.delete_contact. rewrite Hget.
    cbn [fst snd]. unfold delete_contact_row. rewrite Hid.
    set (dead_i := filter (fun i => Interaction.contact_id i =? key) (interactions db)).
    destruct (fold_delete_interactions dead_i db) as (Hc1 & Hp1 & Hi1 & Ha1).
    set (db1 := fold_left delete_interaction_row dead_i db) in *.
    set (dead_p := filter (fun p => Proposal.contact_id p =? key) (proposals db1)).
    destruct (fold_delete_proposals dead_p db1) as (Hc2 & Hi2 & Hp2 & Ha2).
    set (db2 := fold_left delete_proposal_row dead_p db1) in *.
    split; [reflexivity|]. split; [|split; [|split]].
    + unfold contact_crud.get_contact. cbn [contacts with_contacts with_actions].
      unfold delete_where_id.
      match goal with |- first ?l = None => destruct l as [|x l'] eqn:E end;
        [reflexivity|].
      assert (Hx : In x (x :: l')) by now left.
      rewrite <- E in Hx. apply filter_In in Hx. destruct Hx as [Hx Hk].
      apply filter_In in Hx. destruct Hx as [_ Hn].
      rewrite Hk in Hn. discriminate.
    + intros i Hin Hk Hin'. cbn [interactions with_contacts with_actions] in Hin'.
      rewrite Hi2 in Hin'. apply Hi1 in Hin'. destruct Hin' as [_ Hne].
      apply (Hne i); [|reflexivity].
      apply filter_In. split; [exact Hin|now apply Z.eqb_eq].
    + intros p Hin Hk Hin'. cbn [proposals with_contacts with_actions] in Hin'.
      apply Hp2 in Hin'. destruct Hin' as [Hin1 Hne].
      apply (Hne p); [|reflexivity].
      apply filter_In. split; [exact Hin1|now apply Z.eqb_eq].
    + intros a Hin Hk Hin'. cbn [actions with_contacts with_actions] in Hin'.
      apply filter_In in Hin'. destruct Hin' as [_ Hn].
      apply negb_true_iff, Z.eqb_neq in Hn. contradiction.
  - intros key p Hget db'. pose proof (get_by_id_key _ _ _ Hget) as Hid.
    subst db'. unfold proposal_crud.delete_proposal. rewrite Hget.
    cbn [fst snd]. unfold delete_proposal_row. rewrite Hid.
    split; [reflexivity|]. split; [|split; [|split; reflexivity]].
    + unfold proposal_crud.get_proposal. cbn [proposals with_proposals with_actions].
      unfold delete_where_id.
      match goal with |- first ?l = None => destruct l as [|x l'] eqn:E end;
        [reflexivity|].
      assert (Hx : In x (x :: l')) by now left.
      rewrite <- E in Hx. apply filter_In in Hx. destruct Hx as [Hx Hk].
      apply filter_In in Hx. destruct Hx as [_ Hn].
      rewrite Hk in Hn. discriminate.
    + intros a Hin Hk Hin'. cbn [actions with_proposals with_actions] in Hin'.
      apply filter_In in Hin'. destruct Hin' as [_ Hn].
      apply negb_true_iff in Hn. apply fk_is_spec in Hk. congruence.
  - intros key i Hget db'. pose proof (get_by_id_key _ _ _ Hget) as Hid.
    subst db'. unfold interaction_crud.delete_interaction. rewrite Hget.
    cbn [fst snd]. unfold delete_interaction_row. rewrite Hid.
    split; [reflexivity|]. split; [|split; [|split; reflexivity]].
    + unfold interaction_crud.get_interaction.
      cbn [interactions with_interactions with_actions].
      unfold delete_where_id.
      match goal with |- first ?l = None => destruct l as [|x l'] eqn:E end;
        [reflexivity|].
      assert (Hx : In x (x :: l')) by now left.
      rewrite <- E in Hx. apply filter_In in Hx. destruct Hx as [Hx Hk].
      apply filter_In in Hx. destruct Hx as [_ Hn].
      rewrite Hk in Hn. discriminate.
    + intros a Hin Hk Hin'. cbn [actions with_interactions with_actions] in Hin'.
      apply filter_In in Hin'. destruct Hin' as [_ Hn].
      apply negb_true_iff in Hn. apply fk_is_spec in Hk. congruence.
Qed.

Lemma delete_cascades_witness :
  fst (contact_crud.delete_contact sample.db 1)
  = mkStore [sample.bob] [sample.note2] [] [sample.call2]
  /\ ~ In sample.call1 (interactions (fst (contact_crud.delete_contact sample.db 1)))
  /\ ~ In sample.follow_up1
         (actions (fst (proposal_crud.delete_proposal sample.db 1)))
  /\ contacts (fst (proposal_crud.delete_proposal sample.db 1)) = contacts sample.db
  /\ ~ In sample.done1
         (actions (fst (interaction_crud.delete_interaction sample.db 1))).
Proof.
  destruct (delete_cascades sample.db) as (Hc & Hp & Hi).
  split; [reflexivity|]. split; [|split; [|split]].
  - destruct (Hc 1 sample.ada eq_refl) as (_ & _ & H & _).
    apply H; [simpl; auto|reflexivity].
  - destruct (Hp 1 sample.draft1 eq_refl) as (_ & _ & H & _).
    apply H; [simpl; auto|reflexivity].
  - destruct (Hp 1 sample.draft1 eq_refl) as (_ & _ & _ & H & _). exact H.
  - destruct (Hi 1 sample.call1 eq_refl) as (_ & _ & H & _).
    apply H; [simpl; auto|reflexivity].
Defined.

(** ** Email uniqueness at the contact routes *)

Lemma first_filter_none {A} (p : A -> bool) (rows : list A) :
  first (filter p rows) = None <-> forall x, In x rows -> p x = false.
Proof.
  split.
  - intros H x Hx. destruct (p x) eqn:E; [|reflexivity].
    assert (Hin : In x (filter p rows)) by (apply filter_In; now split).
    destruct (filter p rows); [contradiction|discriminate].
  - intros H. destruct (filter p rows) as [|y l] eqn:E; [reflexivity|].
    assert (Hy : In y (filter p rows)) by (rewrite E; now left).
    apply filter_In in Hy. destruct Hy as [Hy Hp]. rewrite (H y Hy) in Hp. discriminate.
Qed.

Lemma get_contact_by_email_some (db : Store) (e : string) (c : Contact.t) :
  contact_crud.get_contact_by_email db e = Some c ->
  In c (contacts db) /\ Contact.email c = Some e.
Proof.
  intros H. apply first_filter_some in H. destruct H as [Hin Hp].
  split; [exact Hin|].
  destruct (Contact.email c) as [e'|]; simpl in Hp; [|discriminate].
  apply String.eqb_eq in Hp. now subst.
Qed.

Lemma get_contact_by_email_finds (db : Store) (e : string) (c : Contact.t) :
  In c (contacts db) -> Contact.email c = Some e ->
  exists c', contact_crud.get_contact_by_email db e = Some c'.
Proof.
  intros Hin He. unfold contact_crud.get_contact_by_email.
  match goal with |- context [first ?l] => destruct (first l) as [c'|] eqn:E end;
    [eauto|].
  rewrite first_filter_none in E. specialize (E c Hin).
  rewrite He in E. simpl in E. rewrite String.eqb_refl in E. discriminate.
Qed.

Lemma crud_create_contact_no_http (db : Store) (now new_id : Z) (contact : ContactCreate.t)
    (status_code : Z) :
  snd (contact_crud.create_contact db now new_id contact)
  <> Raised (HTTPException status_code).
Proof.
  unfold contact_crud.create_contact.
  repeat match goal with |- context [if ?c then _ else _] => destruct c end;
    simpl; discriminate.
Qed.

Lemma crud_update_contact_no_http (db : Store) (now id : Z) (u : ContactUpdate.t)
    (status_code : Z) :
  snd (contact_crud.update_contact db now id u) <> Raised (HTTPException status_code).
Proof.
  unfold contact_crud.update_contact.
  destruct (contact_crud.get_contact db id) as [old|]; [|simpl; discriminate].
  cbv zeta.
  destruct (contact_commit_cases db now old u)
    as [[_ ->]|[_ [[_ ->]|[_ [->|(edited & _ & _ & ->)]]]]]; simpl; discriminate.
Qed.

(** When the route raises Conflict, and only then, some other contact
    holds the email the payload supplies. *)
Lemma api_create_conflict_iff (db : Store) (now new_id : Z) (contact : ContactCreate.t) :
  snd (contacts_api.create_contact db now new_id contact) = Raised Conflict <->
  exists e existing,
    ContactCreate.email contact = Some e /\ e <> ""
    /\ In existing (contacts db) /\ Contact.email existing = Some e.
Proof.
  unfold contacts_api.create_contact. split.
  - destruct (truthy_str (ContactCreate.email contact)) as [e|] eqn:Et.
    + apply truthy_str_inv in Et. destruct Et as [Ee Hne].
      destruct (contact_crud.get_contact_by_email db e) as [existing|] eqn:Eg.
      * intros _. apply get_contact_by_email_some in Eg. exists e, existing. tauto.
      * intros H. now apply crud_create_contact_no_http in H.
    + intros H. now apply crud_create_contact_no_http in H.
  - intros (e & existing & Ee & Hne & Hin & He).
    rewrite Ee, (truthy_str_some Hne).
    destruct (@get_contact_by_email_finds db e existing Hin He) as [c' ->]. reflexivity.
Qed.

Lemma api_update_conflict_only_if (db : Store) (now id : Z) (u : ContactUpdate.t) :
  snd (contacts_api.update_contact db now id u) = Raised Conflict ->
  exists e other,
    contacts_api.email_attr u = Some e /\ e <> ""
    /\ In other (contacts db) /\ Contact.email other = Some e /\ Contact.id other <> id.
Proof.
  unfold contacts_api.update_contact.
  destruct (truthy_str (contacts_api.email_attr u)) as [e|] eqn:Et.
  - apply truthy_str_inv in Et. destruct Et as [Ee Hne].
    destruct (contact_crud.get_contact_by_email db e) as [existing|] eqn:Eg.
    + apply get_contact_by_email_some in Eg.
      destruct (Contact.id existing =? id) eqn:Ei; cbn [negb].
      * pose proof (@crud_update_contact_no_http db now id u 400) as Hn.
        destruct (contact_crud.update_contact db now id u) as [db' [[r|]|x]];
          simpl in *; unfold Conflict; intros H; first [discriminate H | (injection H as ->; now elim Hn)].
      * intros _. apply Z.eqb_neq in Ei. exists e, existing. tauto.
    + pose proof (@crud_update_contact_no_http db now id u 400) as Hn.
      destruct (contact_crud.update_contact db now id u) as [db' [[r|]|x]];
        simpl in *; unfold Conflict; intros H; first [discriminate H | (injection H as ->; now elim Hn)].
  - pose proof (@crud_update_contact_no_http db now id u 400) as Hn.
    destruct (contact_crud.update_contact db now id u) as [db' [[r|]|x]];
      simpl in *; unfold Conflict; intros H; first [discriminate H | (injection H as ->; now elim Hn)].
Qed.

Lemma api_update_conflict_if (db : Store) (now id : Z) (u : ContactUpdate.t)
    (e : string) (other : Contact.t) :
  emails_unique db ->
  contacts_api.email_attr u = Some e -> e <> "" ->
  In other (contacts db) -> Contact.email other = Some e -> Contact.id other <> id ->
  contacts_api.update_contact db now id u = (db, Raised Conflict).
Proof.
  intros Hu Ee Hne Hin He Hid. unfold contacts_api.update_contact.
  rewrite Ee, (truthy_str_some Hne).
  destruct (@get_contact_by_email_finds db e other Hin He) as [c' Ec]. rewrite Ec.
  apply get_contact_by_email_some in Ec. destruct Ec as [Hin' He'].
  rewrite (Hu c' other e Hin' Hin He' He).
  apply Z.eqb_neq in Hid. rewrite Hid. reflexivity.
Qed.

(** The unique index is an invariant of the two writes that can touch
    [contacts.email]. *)
Lemma create_contact_keeps_emails_unique (db : Store) (now new_id : Z)
    (contact : ContactCreate.t) :
  emails_unique db ->
  emails_unique (fst (contact_crud.create_contact db now new_id contact)).
Proof.
  intros Hu. unfold contact_crud.create_contact.
  match goal with |- context [if ?c then _ else _] => destruct c end;
    [exact Hu|].
  match goal with |- context [if ?c then _ else _] => destruct c eqn:E end;
    [exact Hu|].
  apply orb_false_iff in E. destruct E as [_ E].
  cbn [fst Contact.email] in *.
  assert (Hfresh : forall c e, In c (contacts db) -> Contact.email c = Some e ->
                               ContactCreate.email contact <> Some e).
  { intros c e Hin He Hn. rewrite Hn in E. cbn [col_test] in E.
    assert (Hex : existsb (fun c => col_test (String.eqb e) (Contact.email c))
                          (contacts db) = true).
    { apply existsb_exists. exists c. split; [exact Hin|].
      rewrite He. simpl. apply String.eqb_refl. }
    congruence. }
  intros c1 c2 e H1 H2 E1 E2. cbn [contacts with_contacts] in H1, H2.
  apply in_app_or in H1. apply in_app_or in H2.
  destruct H1 as [H1|[<-|[]]]; destruct H2 as [H2|[<-|[]]]; cbn [Contact.email] in *.
  - exact (Hu c1 c2 e H1 H2 E1 E2).
  - now elim (Hfresh c1 e H1 E1).
  - now elim (Hfresh c2 e H2 E2).
  - reflexivity.
Qed.

Lemma update_contact_keeps_emails_unique (db : Store) (now id : Z)
    (u : ContactUpdate.t) :
  emails_unique db ->
  emails_unique (fst (contact_crud.update_contact db now id u)).
Proof.
  intros Hu. unfold contact_crud.update_contact.
  destruct (contact_crud.get_contact db id) as [old|] eqn:Hget; [|exact Hu].
  pose proof (get_by_id_key _ _ _ Hget) as Hid. cbv zeta.
  destruct (contact_commit_cases db now old u)
    as [[_ ->]|[_ [[_ ->]|[_ [->|(edited & Es & E & ->)]]]]]; try exact Hu.
  apply contact_setattrs_frame in Es. destruct Es as ((Hk & _) & _).
  cbn [fst].
  assert (Hclash : forall c e, In c (contacts db) -> Contact.id c <> id ->
                               Contact.email c = Some e -> Contact.email edited <> Some e).
  { intros c e Hin Hne He Hn. rewrite Hn in E. cbn [col_test] in E.
    assert (Hex : existsb (fun c => negb (Contact.id c =? Contact.id old)
                                    && col_test (String.eqb e) (Contact.email c))
                          (contacts db) = true).
    { apply existsb_exists. exists c. split; [exact Hin|].
      rewrite He, Hid. apply Z.eqb_neq in Hne. rewrite Hne. simpl.
      apply String.eqb_refl. }
    congruence. }
  assert (Hrow : forall c, In c (update_where_id Contact.id (Contact.id old)
                                  (contact_crud.set_updated_at edited now) (contacts db)) ->
                           (In c (contacts db) /\ Contact.id c <> id)
                           \/ c = contact_crud.set_updated_at edited now).
  { intros c Hin. unfold update_where_id in Hin. apply in_map_iff in Hin.
    destruct Hin as (r & Hr & Hin). rewrite Hid in Hr.
    destruct (Z.eqb_spec (Contact.id r) id); subst; auto. }
  intros c1 c2 e H1 H2 E1 E2. cbn [contacts with_contacts] in H1, H2.
  apply Hrow in H1. apply Hrow in H2.
  destruct H1 as [[H1 N1]| ->]; destruct H2 as [[H2 N2]| ->]; cbn [Contact.email
    contact_crud.set_updated_at] in *.
  - exact (Hu c1 c2 e H1 H2 E1 E2).
  - now elim (Hclash c1 e H1 N1 E1).
  - now elim (Hclash c2 e H2 N2 E2).
  - reflexivity.
Qed.

Lemma only_email_is_identity (c : Contact.t) (e : string) :
  Contact.email c = Some e ->
  contact_crud.setattrs c (only_email e) = Returned c.
Proof.
  destruct c. simpl. intros ->. reflexivity.
Qed.

Lemma only_email_not_modified (c : Contact.t) (e : string) :
  Contact.email c = Some e ->
  contact_crud.modified c (only_email e) = false.
Proof.
  intros He. unfold contact_crud.modified, only_email. simpl. rewrite He. simpl.
  now rewrite String.eqb_refl.
Qed.

(** C5. In every store: creating a contact whose email is that of an
    existing contact fails with Conflict and leaves the store unchanged;
    updating a contact's email to a value held by a different contact fails
    with Conflict; updating a contact's email to its own current email
    succeeds; contacts with absent email never conflict.  Emails are those a
    payload can carry ([EmailStr], hence not empty), and the store obeys the
    unique index on [contacts.email]. *)
Theorem email_uniqueness_at_the_routes (db : Store) (now new_id id : Z) :
  (forall contact e existing,
      ContactCreate.email contact = Some e -> e <> "" ->
      In existing (contacts db) -> Contact.email existing = Some e ->
      contacts_api.create_contact db now new_id contact = (db, Raised Conflict))
  /\ (forall u e other,
         emails_unique db ->
         ContactUpdate.email u = Provided (Some e) -> e <> "" ->
         In other (contacts db) -> Contact.email other = Some e ->
         Contact.id other <> id ->
         contacts_api.update_contact db now id u = (db, Raised Conflict))
  /\ (forall c e,
         emails_unique db ->
         contact_crud.get_contact db id = Some c -> Contact.email c = Some e ->
         contacts_api.update_contact db now id (only_email e) = (db, Returned c)
         /\ forall u, ContactUpdate.email u = Provided (Some e) ->
                      snd (contacts_api.update_contact db now id u) <> Raised Conflict)
  /\ (forall contact,
         ContactCreate.email contact = None
         \/ (forall existing, In existing (contacts db) -> Contact.email existing = None) ->
         snd (contacts_api.create_contact db now new_id contact) <> Raised Conflict)
  /\ (forall u,
         contacts_api.email_attr u = None
         \/ (forall other, In other (contacts db) -> Contact.id other <> id ->
                           Contact.email other = None) ->
         snd (contacts_api.update_contact db now id u) <> Raised Conflict).
Proof.
  split; [|split; [|split; [|split]]].
  - intros contact e existing Ee Hne Hin He.
    unfold contacts_api.create_contact. rewrite Ee, (truthy_str_some Hne).
    destruct (@get_contact_by_email_finds db e existing Hin He) as [c' ->]. reflexivity.
  - intros u e other Hu Ee Hne Hin He Hid.
    apply api_update_conflict_if with (e := e) (other := other); auto.
    unfold contacts_api.email_attr. now rewrite Ee.
  - intros c e Hu Hget He.
    pose proof (first_filter_some _ _ Hget) as [Hin Hk]. apply Z.eqb_eq in Hk.
    split.
    + assert (Hcrud : contact_crud.update_contact db now id (only_email e)
                      = (db, Returned (Some c))).
      { unfold contact_crud.update_contact, contact_crud.commit_update.
        rewrite Hget, (only_email_not_modified c He). reflexivity. }
      unfold contacts_api.update_contact. rewrite Hcrud.
      cbn [contacts_api.email_attr only_email ContactUpdate.email].
      destruct (truthy_str (Some e)) as [e'|] eqn:Et; [|reflexivity].
      apply truthy_str_inv in Et. destruct Et as [Ee _]. injection Ee as <-.
      destruct (contact_crud.get_contact_by_email db e) as [c'|] eqn:Eg; [|reflexivity].
      apply get_contact_by_email_some in Eg. destruct Eg as [Hin' He'].
      rewrite (Hu c' c e Hin' Hin He' He), Hk, Z.eqb_refl. reflexivity.
    + intros u Ee H. apply api_update_conflict_only_if in H.
      destruct H as (e' & other & Ea & _ & Hin' & He' & Hid).
      unfold contacts_api.email_attr in Ea. rewrite Ee in Ea. injection Ea as <-.
      apply Hid. rewrite <- Hk. exact (Hu other c e Hin' Hin He' He).
  - intros contact Hab H. apply api_create_conflict_iff in H.
    destruct H as (e & existing & Ee & _ & Hin & He).
    destruct Hab as [Hab|Hab]; [congruence|]. rewrite (Hab existing Hin) in He. discriminate.
  - intros u Hab H. apply api_update_conflict_only_if in H.
    destruct H as (e & other & Ea & _ & Hin & He & Hid).
    destruct Hab as [Hab|Hab]; [congruence|].
    rewrite (Hab other Hin Hid) in He. discriminate.
Qed.

Lemma sample_emails_unique : emails_unique sample.db.
Proof.
  intros c1 c2 e H1 H2 E1 E2. simpl in H1, H2.
  destruct H1 as [<-|[<-|[]]]; destruct H2 as [<-|[<-|[]]];
    simpl in *; try reflexivity; discriminate.
Qed.

Lemma email_uniqueness_at_the_routes_witness :
  contacts_api.create_contact sample.db 70 3 (sample.new_contact (Some "x@example.com"))
  = (sample.db, Raised Conflict)
  /\ contacts_api.update_contact sample.db 70 2 (only_email "x@example.com")
     = (sample.db, Raised Conflict)
  /\ contacts_api.update_contact sample.db 70 1 (only_email "x@example.com")
     = (sample.db, Returned sample.ada)
  /\ snd (contacts_api.create_contact sample.db 70 3 (sample.new_contact None))
     <> Raised Conflict.
Proof.
  split; [|split; [|split]].
  - destruct (email_uniqueness_at_the_routes sample.db 70 3 1) as (H & _).
    apply (H _ "x@example.com" sample.ada);
      [reflexivity | discriminate | simpl; auto | reflexivity].
  - destruct (email_uniqueness_at_the_routes sample.db 70 3 2) as (_ & H & _).
    apply (H _ "x@example.com" sample.ada);
      [exact sample_emails_unique | reflexivity | discriminate | simpl; auto
       | reflexivity | discriminate].
  - destruct (email_uniqueness_at_the_routes sample.db 70 3 1) as (_ & _ & H & _).
    apply (H sample.ada "x@example.com");
      [exact sample_emails_unique | reflexivity | reflexivity].
  - destruct (email_uniqueness_at_the_routes sample.db 70 3 1) as (_ & _ & _ & H & _).
    apply H. left. reflexivity.
Defined.

(** The contact routes on the sample store, run: a contact without email
    is created; one with a fresh email is created too. *)
Example create_contact_run :
  contacts_api.create_contact sample.db 70 3 (sample.new_contact None)
  = (with_contacts sample.db
       [sample.ada; sample.bob;
        Contact.mk 3 "Cy" "Turing" None None None None ContactStatus.lead None None
          (Some []) None None 70 70],
     Returned (Contact.mk 3 "Cy" "Turing" None None None None ContactStatus.lead None None
                 (Some []) None None 70 70))
  /\ snd (contacts_api.create_contact sample.db 70 3
            (sample.new_contact (Some "y@example.com")))
     = Returned (Contact.mk 3 "Cy" "Turing" (Some "y@example.com") None None None
                   ContactStatus.lead None None (Some []) None None 70 70).
Proof. split; vm_compute; reflexivity. Qed.

(** ** Grouped counts *)

(** C7 fails on the code.  [count_actions_by_type] selects
    [Action.status] while it groups by [Action.action_type]; PostgreSQL
    rejects that statement, so the call raises for every store and scope
    and no mapping from action types to counts is returned. *)
Theorem count_actions_by_type_raises (db : Store) (scan : scan_order)
    (contact_id : option Z) :
  action_crud.count_actions_by_type db scan contact_id = Raised ProgrammingError.
Proof. reflexivity. Qed.

(** Its two siblings on the sample store, run. *)
Example count_actions_siblings_run :
  action_crud.count_actions_by_status sample.db [] None
  = Returned [(ActionStatus.pending, 2); (ActionStatus.completed, 1)]
  /\ action_crud.count_actions_by_status sample.db [1%nat] None
     = Returned [(ActionStatus.completed, 1); (ActionStatus.pending, 2)]
  /\ action_crud.count_actions_by_priority sample.db [] None
     = Returned [(ActionPriority.high, 1); (ActionPriority.urgent, 1)]
  /\ action_crud.count_actions_by_type sample.db [] None = Raised ProgrammingError.
Proof. repeat split. Qed.

Lemma place_map {A B} (h : A -> B) (k : nat) (x : A) (l : list A) :
  place k (h x) (map h l) = map h (place k x l).
Proof.
  revert l; induction k as [|k IH]; intros [|y l]; simpl; try reflexivity.
  now rewrite IH.
Qed.

Lemma read_map {A B} (h : A -> B) (scan : scan_order) (l : list A) :
  read scan (map h l) = map h (read scan l).
Proof.
  revert scan; induction l as [|x l IH]; intros scan; simpl; [reflexivity|].
  now rewrite IH, place_map.
Qed.

Section Grouping.
Context {R K A V : Type} (eqb : K -> K -> bool).
Hypothesis eqb_eq : forall a b, eqb a b = true <-> a = b.
Context (key : R -> K) (aggregate : list R -> A) (f : A -> V) (rows : list R).

Lemma select_group_by_same (col : string) (labels : list K) (scan : scan_order) :
  select_group_by col col key key labels eqb aggregate scan rows
  = Returned (read scan (map (fun g => (g, aggregate (group_rows eqb key rows g)))
                             (occurring eqb key rows labels))).
Proof.
  unfold select_group_by. rewrite String.eqb_refl. do 2 f_equal.
  induction labels as [|g labels IH]; [reflexivity|].
  cbn [flat_map occurring filter]. fold (occurring eqb key rows labels).
  fold (group_rows eqb key rows g).
  destruct (group_rows eqb key rows g) as [|r rest] eqn:E.
  - exact IH.
  - assert (Hr : In r (group_rows eqb key rows g)) by (rewrite E; now left).
    apply filter_In in Hr. destruct Hr as [_ Hr]. apply eqb_eq in Hr.
    cbn [app map]. rewrite IH, Hr, E. reflexivity.
Qed.

Lemma dict_set_fresh (d : dict K V) (k : K) (v : V) :
  ~ In k (map fst d) -> dict_set eqb d k v = d ++ [(k, v)].
Proof.
  induction d as [|[k' v'] d IH]; intros Hk; [reflexivity|].
  simpl in *. destruct (eqb k' k) eqn:E.
  - apply eqb_eq in E. tauto.
  - rewrite IH by tauto. reflexivity.
Qed.

Lemma dict_comprehension_distinct (results : list (K * A)) (d : dict K V) :
  NoDup (map fst d ++ map fst results) ->
  fold_left (fun d kx => dict_set eqb d (fst kx) (f (snd kx))) results d
  = d ++ map (fun kx => (fst kx, f (snd kx))) results.
Proof.
  revert d. induction results as [|[k x] results IH]; intros d Hnd; simpl.
  - now rewrite app_nil_r.
  - rewrite dict_set_fresh.
    + rewrite IH.
      * now rewrite <- app_assoc.
      * rewrite map_app. simpl. now rewrite <- app_assoc.
    + simpl in Hnd. apply NoDup_remove_2 in Hnd.
      intros Hin. apply Hnd. apply in_or_app. now left.
Qed.

Lemma dict_get_present (h : K -> V) (l : list K) (s : K) (default : V) :
  In s l -> dict_get eqb (map (fun g => (g, h g)) l) s default = h s.
Proof.
  induction l as [|g l IH]; intros Hin; [contradiction|].
  simpl. destruct (eqb g s) eqn:E.
  - apply eqb_eq in E. now subst.
  - destruct Hin as [->|Hin]; [|now apply IH].
    assert (eqb s s = true) by now apply eqb_eq. congruence.
Qed.

Lemma dict_get_absent (h : K -> V) (l : list K) (s : K) (default : V) :
  ~ In s l -> dict_get eqb (map (fun g => (g, h g)) l) s default = default.
Proof.
  induction l as [|g l IH]; intros Hin; [reflexivity|].
  simpl in *. destruct (eqb g s) eqn:E.
  - apply eqb_eq in E. tauto.
  - apply IH. tauto.
Qed.

(** A dict with distinct keys reads the same in any order of its items. *)
Lemma dict_get_In (d : dict K V) (k : K) (v default : V) :
  NoDup (map fst d) -> In (k, v) d -> dict_get eqb d k default = v.
Proof.
  induction d as [|[k' v'] d IH]; intros Hnd Hin; [contradiction|].
  simpl in *. inversion Hnd as [|? ? Hn Hd]; subst.
  destruct (eqb k' k) eqn:E.
  - apply eqb_eq in E. subst k'. destruct Hin as [Hin|Hin]; [congruence|].
    elim Hn. apply in_map_iff. exists (k, v). now split.
  - destruct Hin as [Hin|Hin]; [|now apply IH].
    injection Hin as -> _. assert (eqb k k = true) by now apply eqb_eq. congruence.
Qed.

Lemma dict_get_missing (d : dict K V) (k : K) (default : V) :
  ~ In k (map fst d) -> dict_get eqb d k default = default.
Proof.
  induction d as [|[k' v'] d IH]; intros Hin; [reflexivity|].
  simpl in *. destruct (eqb k' k) eqn:E.
  - apply eqb_eq in E. tauto.
  - apply IH. tauto.
Qed.

Lemma dict_get_perm (d d' : dict K V) (k : K) (default : V) :
  NoDup (map fst d) -> Permutation d d' ->
  dict_get eqb d' k default = dict_get eqb d k default.
Proof.
  intros Hnd Hp.
  assert (Hnd' : NoDup (map fst d'))
    by (eapply Permutation_NoDup; [apply Permutation_map, Hp|exact Hnd]).
  destruct (in_dec (fun a b => match bool_dec (eqb a b) true with
                               | left e => left (proj1 (eqb_eq a b) e)
                               | right n => right (fun e => n (proj2 (eqb_eq a b) e))
                               end) k (map fst d)) as [Hin|Hout].
  - apply in_map_iff in Hin. destruct Hin as ([k0 v] & E & Hin). simpl in E. subst k0.
    rewrite (@dict_get_In d k v default Hnd Hin).
    apply dict_get_In; [exact Hnd'|]. now apply (Permutation_in _ Hp).
  - rewrite (@dict_get_missing d k default Hout). apply dict_get_missing.
    intros Hin. apply Hout.
    now apply (Permutation_in _ (Permutation_sym (Permutation_map fst Hp))).
Qed.

(** The dict a grouped query ends in: one item per occurring label, in
    the order in which the database returned the groups. *)
Lemma grouped_dict (col : string) (labels : list K) (scan : scan_order) :
  NoDup labels ->
  (results <- select_group_by col col key key labels eqb aggregate scan rows ;;
   Returned (dict_comprehension eqb f results))
  = Returned (read scan (map (fun g => (g, f (aggregate (group_rows eqb key rows g))))
                             (occurring eqb key rows labels))).
Proof.
  intros Hnd. rewrite select_group_by_same. cbn [bind]. f_equal.
  unfold dict_comprehension. rewrite dict_comprehension_distinct.
  - cbn [app]. rewrite <- !read_map, map_map. reflexivity.
  - cbn [map app]. rewrite <- !read_map, map_map. cbn [fst]. rewrite map_id.
    apply (Permutation_NoDup (Permutation_sym (read_perm scan _))).
    now apply NoDup_filter.
Qed.

Lemma dict_get_grouped (default : V) (labels : list K) (scan : scan_order) (s : K) :
  NoDup labels ->
  In s labels ->
  dict_get eqb (read scan (map (fun g => (g, f (aggregate (group_rows eqb key rows g))))
                               (occurring eqb key rows labels))) s default
  = match group_rows eqb key rows s with
    | [] => default
    | _ :: _ => f (aggregate (group_rows eqb key rows s))
    end.
Proof.
  intros Hnd Hin.
  rewrite dict_get_perm
    with (d := map (fun g => (g, f (aggregate (group_rows eqb key rows g))))
                   (occurring eqb key rows labels));
    [|rewrite map_map; cbn [fst]; rewrite map_id; now apply NoDup_filter
     |apply Permutation_sym, read_perm].
  destruct (group_rows eqb key rows s) as [|r rest] eqn:E.
  - apply dict_get_absent. unfold occurring. rewrite filter_In, E.
    intros [_ H]. discriminate.
  - rewrite dict_get_present with (h := fun g => f (aggregate (group_rows eqb key rows g))).
    + now rewrite E.
    + unfold occurring. rewrite filter_In, E. now split.
Qed.
End Grouping.

(** ** Proposal statistics *)

Lemma ProposalStatus_members_all (s : ProposalStatus.t) : In s ProposalStatus.members.
Proof. destruct s; simpl; tauto. Qed.

Lemma ProposalStatus_members_distinct : NoDup ProposalStatus.members.
Proof.
  unfold ProposalStatus.members.
  repeat (constructor; [simpl; intuition discriminate|]). constructor.
Qed.

Lemma fold_add_shift (l : list Z) (a : Z) : fold_left Z.add l a = a + fold_left Z.add l 0.
Proof.
  revert a. induction l as [|x l IH]; intros a; simpl; [lia|].
  rewrite (IH (a + x)), (IH x). lia.
Qed.

Lemma sum_cons (a : Z) (l : list Z) : sum (a :: l) = a + sum l.
Proof. unfold sum. simpl. apply fold_add_shift. Qed.

Lemma sum_occurring {K} (test : K -> bool) (h : K -> Z) (l : list K) :
  (forall g, test g = false -> h g = 0) ->
  sum (map h (filter test l)) = sum (map h l).
Proof.
  intros H. induction l as [|g l IH]; [reflexivity|].
  simpl. destruct (test g) eqn:E; cbn [map]; rewrite !sum_cons, ?IH; [reflexivity|].
  rewrite (H g E). lia.
Qed.


Lemma sql_sum_from (rows : list Proposal.t) (acc : option Z) :
  fold_left (fun acc r => match Proposal.value r, acc with
                          | Some v, Some s => Some (s + v)
                          | Some v, None => Some v
                          | None, _ => acc
                          end)
            rows acc
  = match non_null_values rows with
    | [] => acc
    | _ :: _ => Some (match acc with Some s => s | None => 0 end
                      + sum (non_null_values rows))
    end.
Proof.
  revert acc. induction rows as [|p rows IH]; intros acc; [reflexivity|].
  cbn [fold_left non_null_values flat_map]. fold (non_null_values rows).
  rewrite IH. destruct (Proposal.value p) as [v|]; cbn [app].
  - rewrite sum_cons.
    destruct (non_null_values rows), acc; f_equal; unfold sum; simpl; lia.
  - reflexivity.
Qed.

Lemma float_or_zero_sql_sum {float} (float_of_decimal : Z -> float) (zero : float)
    (rows : list Proposal.t) :
  proposal_crud.float_or_zero float_of_decimal zero (sql_sum Proposal.value rows)
  = if sum (non_null_values rows) =? 0 then zero
    else float_of_decimal (sum (non_null_values rows)).
Proof.
  unfold sql_sum. rewrite sql_sum_from.
  destruct (non_null_values rows); reflexivity.
Qed.

Lemma sum_perm (l l' : list Z) : Permutation l l' -> sum l = sum l'.
Proof.
  induction 1 as [|x l l' _ IH|x y l|l l' l'' _ IH1 _ IH2];
    rewrite ?sum_cons; try lia; reflexivity.
Qed.

Lemma sum_read (scan : scan_order) (l : list Z) : sum (read scan l) = sum l.
Proof. apply sum_perm, read_perm. Qed.





(** * Further properties of the data-access layer *)

(** ** Pages *)

Lemma offset_limit_inv {A} (skip limit : Z) (rows page : list A) :
  offset_limit skip limit rows = Returned page ->
  0 <= skip /\ 0 <= limit
  /\ page = firstn (Z.to_nat limit) (skipn (Z.to_nat skip) rows).
Proof.
  intros Hp.
  destruct (offset_limit_spec skip limit rows) as [(Hs & Hl & E)|[_ E]];
    rewrite E in Hp; [|discriminate].
  injection Hp as <-. split; [lia|]. split; [lia|reflexivity].
Qed.

Lemma In_firstn_skipn {A} (n m : nat) (rows : list A) (x : A) :
  In x (firstn n (skipn m rows)) -> In x rows.
Proof.
  intros H.
  rewrite <- (firstn_skipn m rows). apply in_or_app. right.
  rewrite <- (firstn_skipn n (skipn m rows)). apply in_or_app. now left.
Qed.

(** What a page of an ordered query is, whatever the query. *)
Lemma page_spec {A} (precedes : A -> A -> bool) (scan : scan_order) (skip limit : Z)
    (rows page : list A) :
  (forall a b, precedes a b = true \/ precedes b a = true) ->
  (forall a b c, precedes a b = true -> precedes b c = true -> precedes a c = true) ->
  offset_limit skip limit (order_by precedes scan rows) = Returned page ->
  0 <= skip /\ 0 <= limit
  /\ (forall x, In x page -> In x rows)
  /\ count page = Z.min limit (Z.max 0 (count rows - skip))
  /\ StronglySorted (fun a b => precedes a b = true) page
  /\ (skip = 0 -> count rows <= limit -> forall x, In x rows -> In x page).
Proof.
  intros Htot Htrans H. apply offset_limit_inv in H. destruct H as (Hs & Hl & ->).
  split; [exact Hs|]. split; [exact Hl|]. split; [|split; [|split]].
  - intros x Hx. apply In_firstn_skipn in Hx.
    now apply (Permutation_in _ (order_by_perm precedes scan rows)).
  - unfold count. rewrite length_firstn, length_skipn.
    rewrite (Permutation_length (order_by_perm precedes scan rows)). lia.
  - apply StronglySorted_firstn, StronglySorted_skipn, order_by_sorted; assumption.
  - intros -> Hc x Hx. simpl. rewrite firstn_all2.
    + now apply (Permutation_in _ (Permutation_sym (order_by_perm precedes scan rows))).
    + rewrite (Permutation_length (order_by_perm precedes scan rows)).
      unfold count in Hc. lia.
Qed.

Lemma offset_limit_total {A} (skip limit : Z) (rows : list A) :
  0 <= skip <= bigint_max -> 0 <= limit <= bigint_max ->
  exists page, offset_limit skip limit rows = Returned page.
Proof.
  intros Hs Hl. rewrite offset_limit_in_range by assumption. eauto.
Qed.

(** X1. The size of a page.  Whenever a list query returns [(page, total)],
    [skip] and [limit] are not negative and the page holds
    [min(limit, max(0, total - skip))] rows: a full page while rows remain,
    the remainder on the last page, nothing past the end. *)
Theorem list_query_page_size
    (ilike : string -> string -> bool)
    (float : Type) (numeric_ge numeric_le : Z -> float -> bool)
    (db : Store) (scan : scan_order) (now skip limit : Z) :
  (forall status search tags page total,
      contact_crud.get_contacts ilike db scan skip limit status search tags
      = Returned (page, total) ->
      0 <= skip /\ 0 <= limit /\ count page = Z.min limit (Z.max 0 (total - skip)))
  /\ (forall contact_id type start_date end_date page total,
         interaction_crud.get_interactions db scan skip limit contact_id type start_date end_date
         = Returned (page, total) ->
         0 <= skip /\ 0 <= limit /\ count page = Z.min limit (Z.max 0 (total - skip)))
  /\ (forall contact_id status min_value max_value page total,
         proposal_crud.get_proposals numeric_ge numeric_le db scan skip limit contact_id status
           min_value max_value = Returned (page, total) ->
         0 <= skip /\ 0 <= limit /\ count page = Z.min limit (Z.max 0 (total - skip)))
  /\ (forall contact_id status priority action_type assigned_to overdue_only page total,
         action_crud.get_actions db scan now skip limit contact_id status priority action_type
           assigned_to overdue_only = Returned (page, total) ->
         0 <= skip /\ 0 <= limit /\ count page = Z.min limit (Z.max 0 (total - skip))).
Proof.
  split; [|split; [|split]]; intros until total; intros H.
  - unfold contact_crud.get_contacts in H.
    destruct (offset_limit skip limit _) as [p|] eqn:E; [|discriminate].
    injection H as <- <-.
    apply page_spec in E; [tauto | apply desc_total | apply desc_trans].
  - unfold interaction_crud.get_interactions in H.
    destruct (offset_limit skip limit _) as [p|] eqn:E; [|discriminate].
    injection H as <- <-.
    apply page_spec in E; [tauto | apply desc_total | apply desc_trans].
  - unfold proposal_crud.get_proposals in H.
    destruct (offset_limit skip limit _) as [p|] eqn:E; [|discriminate].
    injection H as <- <-.
    apply page_spec in E; [tauto | apply desc_total | apply desc_trans].
  - unfold action_crud.get_actions in H.
    destruct (offset_limit skip limit _) as [p|] eqn:E; [|discriminate].
    injection H as <- <-.
    apply page_spec in E; [tauto | exact priority_order_total | exact priority_order_trans].
Qed.

Lemma list_query_page_size_witness :
  count [sample.follow_up1] = Z.min 2 (Z.max 0 (3 - 2)).
Proof.
  destruct (@list_query_page_size texticlike Z Z.geb Z.leb sample.db [] 100 2 2)
    as (_ & _ & _ & H).
  apply (H None None None None None false [sample.follow_up1] 3 eq_refl).
Defined.

(** ** Named queries *)

Lemma desc_nulls_first_total (x y : option Z) :
  proposal_crud.desc_nulls_first x y = true \/ proposal_crud.desc_nulls_first y x = true.
Proof.
  destruct x as [u|], y as [v|]; simpl; auto. rewrite !Z.leb_le. lia.
Qed.

Lemma desc_nulls_first_trans (x y z : option Z) :
  proposal_crud.desc_nulls_first x y = true ->
  proposal_crud.desc_nulls_first y z = true ->
  proposal_crud.desc_nulls_first x z = true.
Proof.
  destruct x as [u|], y as [v|], z as [w|]; simpl; try congruence.
  rewrite !Z.leb_le. lia.
Qed.

(** X2. The expired-proposals query returns only proposals whose
    [expires_at] is set and earlier than [now] and whose status is draft or
    submitted -- a won, lost, ignored or expired proposal never shows up,
    nor one without expiry date --, at most [limit] of them, latest expiry
    first; when [limit] covers the table, it returns all of them. *)
Theorem expired_proposals_are_open_and_past
    (db : Store) (scan : scan_order) (now limit : Z) (page : list Proposal.t) :
  proposal_crud.get_expired_proposals db scan now limit = Returned page ->
  (forall p, In p page ->
     In p (proposals db)
     /\ (Proposal.status p = ProposalStatus.draft
         \/ Proposal.status p = ProposalStatus.submitted)
     /\ exists e, Proposal.expires_at p = Some e /\ e < now)
  /\ count page <= limit
  /\ (forall i j a b, (i < j)%nat ->
        nth_error page i = Some a -> nth_error page j = Some b ->
        exists x y, Proposal.expires_at a = Some x /\ Proposal.expires_at b = Some y
                    /\ y <= x)
  /\ (count (proposals db) <= limit ->
      forall p e, In p (proposals db) ->
        Proposal.status p = ProposalStatus.draft
        \/ Proposal.status p = ProposalStatus.submitted ->
        Proposal.expires_at p = Some e -> e < now ->
        In p page).
Proof.
  intros H. unfold proposal_crud.get_expired_proposals in H.
  apply page_spec in H.
  2:{ intros a b. apply desc_nulls_first_total. }
  2:{ intros a b c. apply desc_nulls_first_trans. }
  destruct H as (_ & Hl & Hin & Hlen & Hsort & Hall).
  assert (Hrow : forall p, In p page ->
            In p (proposals db)
            /\ (Proposal.status p = ProposalStatus.draft
                \/ Proposal.status p = ProposalStatus.submitted)
            /\ exists e, Proposal.expires_at p = Some e /\ e < now).
  { intros p Hp. apply Hin, filter_In in Hp. destruct Hp as [Hp Hf].
    apply andb_true_iff in Hf. destruct Hf as [He Hs].
    apply col_test_true in He. destruct He as (e & He & Hlt). apply Z.ltb_lt in Hlt.
    split; [exact Hp|]. split; [|eauto].
    unfold proposal_crud.in_ in Hs. destruct (Proposal.status p); simpl in Hs;
      auto; discriminate. }
  split; [exact Hrow|]. split; [lia|]. split.
  - intros i j a b Hij Ha Hb.
    pose proof (@StronglySorted_nth _ _ _ Hsort i j a b Hij Ha Hb) as Hab. cbv beta in Hab.
    destruct (Hrow a (nth_error_In _ _ Ha)) as (_ & _ & x & Hx & _).
    destruct (Hrow b (nth_error_In _ _ Hb)) as (_ & _ & y & Hy & _).
    exists x, y. rewrite Hx, Hy in Hab. simpl in Hab. apply Z.leb_le in Hab. auto.
  - intros Hc p e Hp Hs He Hlt. apply Hall; [reflexivity| |].
    + pose proof (filter_length_le
        (fun p => col_test (fun e => e <? now) (Proposal.expires_at p)
                  && proposal_crud.in_ (Proposal.status p)
                       [ProposalStatus.draft; ProposalStatus.submitted])
        (proposals db)) as Hle.
      unfold count in *. lia.
    + apply filter_In. split; [exact Hp|]. apply andb_true_iff. split.
      * rewrite He. simpl. now apply Z.ltb_lt.
      * destruct Hs as [-> | ->]; reflexivity.
Qed.

Lemma expired_proposals_are_open_and_past_witness :
  proposal_crud.get_expired_proposals fixtures.db [] 100 10 = Returned [fixtures.offer_open]
  /\ Proposal.status fixtures.offer_won = ProposalStatus.won
  /\ Proposal.expires_at fixtures.offer_won = Some 50
  /\ count [fixtures.offer_open] <= 10.
Proof.
  split; [reflexivity|]. split; [reflexivity|]. split; [reflexivity|].
  apply (@expired_proposals_are_open_and_past fixtures.db [] 100 10 [fixtures.offer_open]
           eq_refl).
Defined.

Lemma scoped_In {A} (contact_id_of : A -> Z) (contact_id : option Z) (query : list A)
    (x : A) :
  In x match truthy_int contact_id with
       | Some c => filter (fun a => contact_id_of a =? c) query
       | None => query
       end
  <-> In x query /\ forall c, truthy_int contact_id = Some c -> contact_id_of x = c.
Proof.
  destruct (truthy_int contact_id) as [c|].
  - rewrite filter_In, Z.eqb_eq. split.
    + intros [H E]. split; [exact H|]. intros c' Hc. now injection Hc as <-.
    + intros [H E]. split; [exact H|]. now apply E.
  - split; [|tauto]. intros H. split; [exact H|]. discriminate.
Qed.

Lemma scoped_length {A} (contact_id_of : A -> Z) (contact_id : option Z)
    (query : list A) :
  (length match truthy_int contact_id with
          | Some c => filter (fun a => (contact_id_of a =? c)%Z) query
          | None => query
          end <= length query)%nat.
Proof.
  destruct (truthy_int contact_id); [apply filter_length_le|apply Nat.le_refl].
Qed.

(** X3. The three due-date queries on Actions.  Every overdue action is
    pending with a [due_at] earlier than [now]; every upcoming action is
    pending with [now <= due_at <= now + days]; an action without [due_at]
    is in neither; no action is both overdue and upcoming; a scope other
    than 0 restricts both to that contact; and every overdue action is
    among the pending ones when the pending query's [limit] covers the
    table. *)
Theorem due_date_queries
    (db : Store) (scan_overdue scan_upcoming : scan_order) (now days : Z)
    (contact_id : option Z) (limit : Z)
    (overdue upcoming : list Action.t) :
  action_crud.get_overdue_actions db scan_overdue now contact_id limit
  = Returned overdue ->
  action_crud.get_upcoming_actions db scan_upcoming now days contact_id limit
  = Returned upcoming ->
  (forall a, In a overdue ->
     In a (actions db) /\ Action.status a = ActionStatus.pending
     /\ (exists d, Action.due_at a = Some d /\ d < now)
     /\ forall c, contact_id = Some c -> c <> 0 -> Action.contact_id a = c)
  /\ (forall a, In a upcoming ->
        In a (actions db) /\ Action.status a = ActionStatus.pending
        /\ (exists d, Action.due_at a = Some d /\ now <= d <= now + timedelta_days days)
        /\ forall c, contact_id = Some c -> c <> 0 -> Action.contact_id a = c)
  /\ (forall a, In a overdue -> ~ In a upcoming)
  /\ (forall scan limit' pending,
        action_crud.get_pending_actions db scan contact_id limit' = Returned pending ->
        count (actions db) <= limit' ->
        forall a, In a overdue -> In a pending).
Proof.
  intros Ho Hu.
  unfold action_crud.get_overdue_actions in Ho.
  unfold action_crud.get_upcoming_actions in Hu.
  apply page_spec in Ho; [|exact priority_order_total|exact priority_order_trans].
  apply page_spec in Hu; [|exact priority_order_total|exact priority_order_trans].
  destruct Ho as (_ & _ & Ho & _). destruct Hu as (_ & _ & Hu & _).
  assert (Hscope : forall (a : Action.t) c,
             (forall c', truthy_int contact_id = Some c' -> Action.contact_id a = c') ->
             contact_id = Some c -> c <> 0 -> Action.contact_id a = c).
  { intros a c H -> Hc. apply H. unfold truthy_int.
    apply Z.eqb_neq in Hc. now rewrite Hc. }
  assert (Hov : forall a, In a overdue ->
            In a (actions db) /\ Action.status a = ActionStatus.pending
            /\ (exists d, Action.due_at a = Some d /\ d < now)
            /\ forall c, contact_id = Some c -> c <> 0 -> Action.contact_id a = c).
  { intros a Ha. apply Ho, scoped_In in Ha. destruct Ha as [Ha Hs].
    apply filter_In in Ha. destruct Ha as [Ha Hf].
    apply andb_true_iff in Hf. destruct Hf as [Hp Hd].
    apply ActionStatus_eqb_eq in Hp. apply col_test_true in Hd.
    destruct Hd as (d & Hd & Hlt). apply Z.ltb_lt in Hlt.
    repeat split; eauto. }
  assert (Hup : forall a, In a upcoming ->
            In a (actions db) /\ Action.status a = ActionStatus.pending
            /\ (exists d, Action.due_at a = Some d
                          /\ now <= d <= now + timedelta_days days)
            /\ forall c, contact_id = Some c -> c <> 0 -> Action.contact_id a = c).
  { intros a Ha. apply Hu, scoped_In in Ha. destruct Ha as [Ha Hs].
    apply filter_In in Ha. destruct Ha as [Ha Hf].
    apply andb_true_iff in Hf. destruct Hf as [Hf Hd2].
    apply andb_true_iff in Hf. destruct Hf as [Hp Hd1].
    apply ActionStatus_eqb_eq in Hp.
    apply col_test_true in Hd1. destruct Hd1 as (d & Hd & Hge).
    apply col_test_true in Hd2. destruct Hd2 as (d' & Hd' & Hle).
    rewrite Hd in Hd'. injection Hd' as <-.
    apply Z.leb_le in Hge. apply Z.leb_le in Hle.
    repeat split; eauto. }
  split; [exact Hov|]. split; [exact Hup|]. split.
  - intros a Ha Ha'. apply Hov in Ha. apply Hup in Ha'.
    destruct Ha as (_ & _ & (d & Hd & Hlt) & _).
    destruct Ha' as (_ & _ & (d' & Hd' & Hge) & _).
    rewrite Hd in Hd'. injection Hd' as <-. lia.
  - intros scan limit' pending Hp Hc a Ha.
    unfold action_crud.get_pending_actions in Hp.
    apply page_spec in Hp; [|exact priority_order_total|exact priority_order_trans].
    destruct Hp as (_ & _ & _ & _ & _ & Hall).
    apply Hall; [reflexivity| |].
    + pose proof (scoped_length Action.contact_id contact_id
        (filter (fun a => ActionStatus.eqb (Action.status a) ActionStatus.pending)
                (actions db))) as H1.
      pose proof (filter_length_le
        (fun a => ActionStatus.eqb (Action.status a) ActionStatus.pending)
        (actions db)) as H2.
      unfold count in *. lia.
    + apply Ho, scoped_In in Ha. destruct Ha as [Ha Hs].
      apply scoped_In. split; [|exact Hs].
      apply filter_In in Ha. destruct Ha as [Ha Hf].
      apply andb_true_iff in Hf. destruct Hf as [Hf _].
      apply filter_In. now split.
Qed.

Lemma due_date_queries_witness :
  action_crud.get_overdue_actions sample.db [] 45 (Some 1) 10 = Returned [sample.follow_up1]
  /\ action_crud.get_upcoming_actions sample.db [] 45 7 (Some 1) 10 = Returned []
  /\ action_crud.get_upcoming_actions sample.db [] 35 7 None 10 = Returned [sample.follow_up1]
  /\ ~ In sample.follow_up1 []
  /\ Action.contact_id sample.follow_up1 = 1.
Proof.
  split; [reflexivity|]. split; [reflexivity|]. split; [reflexivity|].
  destruct (@due_date_queries sample.db [] [] 45 7 (Some 1) 10 [sample.follow_up1] []
              eq_refl eq_refl) as (Hov & _ & Hdis & _).
  split.
  - apply Hdis. simpl. auto.
  - destruct (Hov sample.follow_up1) as (_ & _ & _ & Hc); [simpl; auto|].
    apply (Hc 1); [reflexivity|discriminate].
Defined.

(** X4. The recent-interactions route returns only interactions that
    occurred at or after [now - days], at most [limit] of them, most recent
    first, and all of them when [limit] covers the table; there is no upper
    bound, so an interaction dated after [now] is recent too. *)
Theorem recent_interactions_window
    (db : Store) (scan : scan_order) (now days limit : Z) (page : list Interaction.t) :
  interactions_api.get_recent_interactions db scan now days limit = Returned page ->
  (forall i, In i page ->
     In i (interactions db) /\ now - timedelta_days days <= Interaction.occurred_at i)
  /\ count page <= limit
  /\ (forall i j a b, (i < j)%nat ->
        nth_error page i = Some a -> nth_error page j = Some b ->
        Interaction.occurred_at b <= Interaction.occurred_at a)
  /\ (count (interactions db) <= limit ->
      forall i, In i (interactions db) ->
        now - timedelta_days days <= Interaction.occurred_at i -> In i page).
Proof.
  unfold interactions_api.get_recent_interactions,
    interaction_crud.get_recent_interactions.
  intros H. apply page_spec in H; [|apply desc_total|apply desc_trans].
  destruct H as (_ & _ & Hin & Hlen & Hsort & Hall).
  split; [|split; [lia|split]].
  - intros i Hi. apply Hin, filter_In in Hi. destruct Hi as [Hi Hf].
    apply Z.leb_le in Hf. now split.
  - intros i j a b Hij Ha Hb.
    pose proof (@StronglySorted_nth _ _ _ Hsort i j a b Hij Ha Hb) as Hab.
    unfold desc in Hab. now apply Z.leb_le in Hab.
  - intros Hc i Hi Hw. apply Hall; [reflexivity| |].
    + pose proof (filter_length_le
        (fun i => now - timedelta_days days <=? Interaction.occurred_at i)
        (interactions db)) as Hle.
      unfold count in *. lia.
    + apply filter_In. split; [exact Hi|now apply Z.leb_le].
Qed.

Lemma recent_interactions_window_witness :
  interactions_api.get_recent_interactions sample.db [] 86400000012 1 2
  = Returned [sample.note2; sample.mail1]
  /\ Interaction.occurred_at sample.mail1 <= Interaction.occurred_at sample.note2.
Proof.
  split; [reflexivity|].
  destruct (@recent_interactions_window sample.db [] 86400000012 1 2
              [sample.note2; sample.mail1] eq_refl) as (_ & _ & H & _).
  apply (H 0%nat 1%nat); [lia|reflexivity|reflexivity].
Defined.

(** *** ILIKE on a pattern [%term%] *)













(** X6. Scoping by contact.  For a contact id other than 0 the
    per-contact queries return exactly the page that the list query returns
    with that contact as its only filter; the by-status queries agree with
    the list query filtered by status.  A [contact_id] of 0 passed to a list
    query is read as no filter at all, whereas the per-contact queries look
    for rows owned by contact 0. *)
Theorem scoped_queries_agree
    (ilike : string -> string -> bool)
    (float : Type) (numeric_ge numeric_le : Z -> float -> bool)
    (db : Store) (scan : scan_order) (now c skip limit : Z) :
  (c <> 0 ->
   interaction_crud.get_interactions_by_contact db scan c skip limit
   = (r <- interaction_crud.get_interactions db scan skip limit (Some c) None None None ;;
      Returned (fst r))
   /\ proposal_crud.get_proposals_by_contact db scan c skip limit
      = (r <- proposal_crud.get_proposals numeric_ge numeric_le db scan skip limit (Some c)
                None None None ;;
         Returned (fst r))
   /\ action_crud.get_actions_by_contact db scan c skip limit
      = (r <- action_crud.get_actions db scan now skip limit (Some c) None None None None
                false ;;
         Returned (fst r)))
  /\ (forall status,
        contact_crud.get_contacts_by_status db scan status skip limit
        = (r <- contact_crud.get_contacts ilike db scan skip limit (Some status) None None ;;
           Returned (fst r)))
  /\ (forall status,
        proposal_crud.get_proposals_by_status db scan status skip limit
        = (r <- proposal_crud.get_proposals numeric_ge numeric_le db scan skip limit None
                  (Some status) None None ;;
           Returned (fst r)))
  /\ interaction_crud.get_interactions db scan skip limit (Some 0) None None None
     = interaction_crud.get_interactions db scan skip limit None None None None
  /\ proposal_crud.get_proposals numeric_ge numeric_le db scan skip limit (Some 0) None None None
     = proposal_crud.get_proposals numeric_ge numeric_le db scan skip limit None None None None
  /\ action_crud.get_actions db scan now skip limit (Some 0) None None None None false
     = action_crud.get_actions db scan now skip limit None None None None None false.
Proof.
  split; [|split; [|split; [|repeat split]]].
  - intros Hc. apply Z.eqb_neq in Hc.
    unfold interaction_crud.get_interactions_by_contact, interaction_crud.get_interactions,
      interaction_crud.get_interactions_query,
      proposal_crud.get_proposals_by_contact, proposal_crud.get_proposals,
      proposal_crud.get_proposals_query,
      action_crud.get_actions_by_contact, action_crud.get_actions,
      action_crud.get_actions_query, truthy_int.
    rewrite Hc. cbv zeta.
    repeat split;
      match goal with |- context [offset_limit ?s ?l ?r] =>
        destruct (offset_limit s l r) end; reflexivity.
  - intros status. unfold contact_crud.get_contacts_by_status, contact_crud.get_contacts,
      contact_crud.get_contacts_query. cbn [truthy_str truthy_list].
    match goal with |- context [offset_limit ?s ?l ?r] =>
      destruct (offset_limit s l r) end; reflexivity.
  - intros status. unfold proposal_crud.get_proposals_by_status,
      proposal_crud.get_proposals, proposal_crud.get_proposals_query. cbn [truthy_int].
    match goal with |- context [offset_limit ?s ?l ?r] =>
      destruct (offset_limit s l r) end; reflexivity.
Qed.

Lemma scoped_queries_agree_witness :
  action_crud.get_actions_by_contact sample.db [] 1 0 10
  = (r <- action_crud.get_actions sample.db [] 100 0 10 (Some 1) None None None None false ;;
     Returned (fst r))
  /\ action_crud.get_actions_by_contact sample.db [] 0 0 10 = Returned []
  /\ fst (items_total (action_crud.get_actions sample.db [] 100 0 10 (Some 0) None None None
                         None false))
     = [sample.call2; sample.done1; sample.follow_up1].
Proof.
  destruct (@scoped_queries_agree texticlike Z Z.geb Z.leb sample.db [] 100 1 0 10)
    as (H & _).
  split; [apply H; discriminate|]. split; reflexivity.
Defined.

(** ** What the filters of the list queries select *)

Lemma list_query_page {A} (precedes : A -> A -> bool) (scan : scan_order)
    (skip limit : Z) (query page : list A) (total : Z) :
  (p <- offset_limit skip limit (order_by precedes scan query) ;;
   Returned (p, count query))
  = Returned (page, total) ->
  total = count query
  /\ (forall x, In x page -> In x query)
  /\ (skip = 0 -> total <= limit -> forall x, In x query -> In x page).
Proof.
  intros H. destruct (offset_limit skip limit _) as [p|] eqn:E; [|discriminate].
  injection H as <- <-. apply offset_limit_inv in E. destruct E as (_ & Hl & ->).
  split; [reflexivity|]. split.
  - intros x Hx. apply In_firstn_skipn in Hx.
    now apply (Permutation_in _ (order_by_perm precedes scan query)).
  - intros -> Hc x Hx. simpl. rewrite firstn_all2.
    + now apply (Permutation_in _ (Permutation_sym (order_by_perm precedes scan query))).
    + rewrite (Permutation_length (order_by_perm precedes scan query)).
      unfold count in Hc. lia.
Qed.

(** X7. The filters of the Interaction and Action list queries are a
    conjunction of the filters supplied: a row is on the returned page only
    if it passes every one of them, and every row that passes them all is on
    the page when the page starts at 0 and [limit] covers the total.  A
    [contact_id] or [assigned_to] of 0 is not applied; the date range of
    interactions is inclusive at both ends; [overdue_only] asks for a
    pending action whose [due_at] is set and earlier than [now]. *)
Theorem interaction_and_action_filters (db : Store) (scan : scan_order)
    (now skip limit : Z) :
  (forall contact_id interaction_type start_date end_date page total,
      interaction_crud.get_interactions db scan skip limit contact_id interaction_type
        start_date end_date = Returned (page, total) ->
      let selected i :=
        In i (interactions db)
        /\ (forall c, contact_id = Some c -> c <> 0 -> Interaction.contact_id i = c)
        /\ (forall t, interaction_type = Some t -> Interaction.type i = t)
        /\ (forall d, start_date = Some d -> d <= Interaction.occurred_at i)
        /\ (forall d, end_date = Some d -> Interaction.occurred_at i <= d) in
      (forall i, In i page -> selected i)
      /\ (skip = 0 -> total <= limit -> forall i, selected i -> In i page))
  /\ (forall contact_id status priority action_type assigned_to overdue_only page total,
         action_crud.get_actions db scan now skip limit contact_id status priority action_type
           assigned_to overdue_only = Returned (page, total) ->
         let selected a :=
           In a (actions db)
           /\ (forall c, contact_id = Some c -> c <> 0 -> Action.contact_id a = c)
           /\ (forall s, status = Some s -> Action.status a = s)
           /\ (forall p, priority = Some p -> Action.priority a = p)
           /\ (forall t, action_type = Some t -> Action.action_type a = t)
           /\ (forall u, assigned_to = Some u -> u <> 0 -> Action.assigned_to a = Some u)
           /\ (overdue_only = true ->
               Action.status a = ActionStatus.pending
               /\ exists d, Action.due_at a = Some d /\ d < now) in
         (forall a, In a page -> selected a)
         /\ (skip = 0 -> total <= limit -> forall a, selected a -> In a page)).
Proof.
  split.
  - intros contact_id interaction_type start_date end_date page total H selected.
    apply list_query_page in H. destruct H as (_ & Hin & Hall). split.
    + intros i Hi. now apply get_interactions_query_In, Hin.
    + intros Hs Hl i Hi. apply Hall; auto. now apply get_interactions_query_In.
  - intros contact_id status priority action_type assigned_to overdue_only page total H
      selected.
    apply list_query_page in H. destruct H as (_ & Hin & Hall). split.
    + intros a Ha. now apply get_actions_query_In, Hin.
    + intros Hs Hl a Ha. apply Hall; auto. now apply get_actions_query_In.
Qed.

Lemma interaction_and_action_filters_witness :
  action_crud.get_actions sample.db [] 100 0 10 None (Some ActionStatus.pending) None None
    None true = Returned ([sample.follow_up1], 1)
  /\ Action.status sample.follow_up1 = ActionStatus.pending
  /\ exists d, Action.due_at sample.follow_up1 = Some d /\ d < 100.
Proof.
  split; [reflexivity|].
  destruct (interaction_and_action_filters sample.db [] 100 0 10) as [_ H].
  destruct (H None (Some ActionStatus.pending) None None None true
              [sample.follow_up1] 1 eq_refl) as [Hsel _].
  destruct (Hsel sample.follow_up1) as (_ & _ & _ & _ & _ & _ & Ho); [simpl; auto|].
  now apply Ho.
Defined.


(** X8. The filters of the Contact and Proposal list queries are a
    conjunction of the filters supplied, in the same sense.  An empty
    search term and an empty tag list are not applied; a tag of the filter
    is looked for by its first 10 characters, which is how the column
    stores a tag; a contact without tags passes no tag filter; a proposal
    without value passes neither a minimum nor a maximum bound. *)
Theorem contact_and_proposal_filters
    (ilike : string -> string -> bool)
    (float : Type) (numeric_ge numeric_le : Z -> float -> bool)
    (db : Store) (scan : scan_order) (skip limit : Z) :
  (forall status search tags page total,
      contact_crud.get_contacts ilike db scan skip limit status search tags
      = Returned (page, total) ->
      let selected c :=
        In c (contacts db)
        /\ (forall s, status = Some s -> Contact.status c = s)
        /\ (forall t, search = Some t -> t <> "" ->
              let pattern := ("%" ++ t ++ "%")%string in
              ilike (Contact.first_name c) pattern = true
              \/ ilike (Contact.last_name c) pattern = true
              \/ (exists e, Contact.email c = Some e /\ ilike e pattern = true)
              \/ (exists e, Contact.company c = Some e /\ ilike e pattern = true))
        /\ (forall ts, tags = Some ts -> ts <> [] ->
              exists column, Contact.tags c = Some column
                             /\ forall t, In t ts -> In (varchar 10 t) column) in
      (forall c, In c page -> selected c)
      /\ (skip = 0 -> total <= limit -> forall c, selected c -> In c page))
  /\ (forall contact_id status min_value max_value page total,
         proposal_crud.get_proposals numeric_ge numeric_le db scan skip limit contact_id status
           min_value max_value = Returned (page, total) ->
         let selected p :=
           In p (proposals db)
           /\ (forall c, contact_id = Some c -> c <> 0 -> Proposal.contact_id p = c)
           /\ (forall s, status = Some s -> Proposal.status p = s)
           /\ (forall b, min_value = Some b ->
                 exists v, Proposal.value p = Some v /\ numeric_ge v b = true)
           /\ (forall b, max_value = Some b ->
                 exists v, Proposal.value p = Some v /\ numeric_le v b = true) in
         (forall p, In p page -> selected p)
         /\ (skip = 0 -> total <= limit -> forall p, selected p -> In p page)).
Proof.
  split.
  - intros status search tags page total H selected.
    apply list_query_page in H. destruct H as (_ & Hin & Hall). split.
    + intros c Hc. now apply (get_contacts_query_In ilike), Hin.
    + intros Hs Hl c Hc. apply Hall; auto. now apply get_contacts_query_In.
  - intros contact_id status min_value max_value page total H selected.
    apply list_query_page in H. destruct H as (_ & Hin & Hall). split.
    + intros p Hp. now apply (get_proposals_query_In numeric_ge numeric_le), Hin.
    + intros Hs Hl p Hp. apply Hall; auto. now apply get_proposals_query_In.
Qed.

(** On the stores of the examples: a proposal found within its bounds, and
    a contact found by the first 10 characters of a longer tag. *)
Lemma contact_and_proposal_filters_witness :
  proposal_crud.get_proposals Z.geb Z.leb fixtures.db [] 0 10 (Some 1) None (Some 100000)
    (Some 600000) = Returned ([fixtures.offer_open; sample.draft1], 2)
  /\ (exists v, Proposal.value sample.draft1 = Some v /\ (v <=? 600000) = true)
  /\ contact_crud.get_contacts texticlike tagged.db [] 0 10 None None
       (Some ["enterprise-customer"]) = Returned ([tagged.eve], 1)
  /\ exists column,
       Contact.tags tagged.eve = Some column
       /\ forall t, In t ["enterprise-customer"] -> In (varchar 10 t) column.
Proof.
  split; [reflexivity|].
  destruct (@contact_and_proposal_filters texticlike Z Z.geb Z.leb fixtures.db [] 0 10)
    as [_ H].
  destruct (H (Some 1) None (Some 100000) (Some 600000)
              [fixtures.offer_open; sample.draft1] 2 eq_refl) as [Hsel _].
  destruct (Hsel sample.draft1) as (_ & _ & _ & _ & Hmax); [simpl; auto|].
  split; [now apply Hmax|]. split; [reflexivity|].
  destruct (@contact_and_proposal_filters texticlike Z Z.geb Z.leb tagged.db [] 0 10)
    as [Hc _].
  destruct (Hc None None (Some ["enterprise-customer"]) [tagged.eve] 1 eq_refl)
    as [Hsel' _].
  destruct (Hsel' tagged.eve) as (_ & _ & _ & Htags); [simpl; auto|].
  apply Htags; [reflexivity|discriminate].
Defined.
(** ** Updates: outcomes and reach *)




(** A value out of range is a change. *)
Lemma overflows_differs {A} (fits : A -> bool) (eqb : A -> A -> bool)
    (slot : field (option A)) (current : option A) :
  overflows fits eqb slot current = true -> differs eqb slot current = true.
Proof. unfold overflows. now intros H%andb_true_iff. Qed.

Lemma contact_out_of_range_modified (old : Contact.t) (u : ContactUpdate.t) :
  contact_crud.out_of_range old u = true -> contact_crud.modified old u = true.
Proof.
  unfold contact_crud.out_of_range, contact_crud.modified.
  intros H%overflows_differs. rewrite H, !orb_true_r. reflexivity.
Qed.

Lemma proposal_out_of_range_modified (old : Proposal.t) (u : ProposalUpdate.t) :
  proposal_crud.out_of_range old u = true -> proposal_crud.modified old u = true.
Proof.
  unfold proposal_crud.out_of_range, proposal_crud.modified.
  intros H%overflows_differs. rewrite H, !orb_true_r. reflexivity.
Qed.

Lemma action_out_of_range_modified (old : Action.t) (u : ActionUpdate.t) :
  action_crud.out_of_range old u = true -> action_crud.modified old u = true.
Proof.
  unfold action_crud.out_of_range, action_crud.modified.
  intros H. apply orb_true_iff in H as [H|H]; [apply orb_true_iff in H as [H|H]|];
    apply overflows_differs in H; rewrite H, ?orb_true_r; reflexivity.
Qed.

(** The stamp does not touch the integers of the payload. *)
Lemma stamped_out_of_range (old : Action.t) (now : Z) (u : ActionUpdate.t) :
  action_crud.out_of_range old (stamped old now u) = action_crud.out_of_range old u.
Proof.
  unfold stamped. destruct (action_crud.status_is_completed u); [|reflexivity].
  destruct (Action.completed_at old); reflexivity.
Qed.

(** The ways an update can end. *)
Lemma update_contact_cases (db : Store) (now key : Z) (u : ContactUpdate.t) :
  (contact_crud.get_contact db key = None
   /\ contact_crud.update_contact db now key u = (db, Returned None))
  \/ exists old,
       contact_crud.get_contact db key = Some old
       /\ ((contact_crud.out_of_range old u = true
            /\ contact_crud.update_contact db now key u = (db, Raised DataError))
           \/ (contact_crud.out_of_range old u = false
               /\ contact_crud.update_contact db now key u = (db, Raised IntegrityError))
           \/ (contact_crud.out_of_range old u = false
               /\ contact_crud.modified old u = false
               /\ contact_crud.update_contact db now key u = (db, Returned (Some old)))
           \/ exists edited,
                Contact.id edited = key
                /\ contact_crud.out_of_range old u = false
                /\ contact_crud.modified old u = true
                /\ contact_crud.setattrs old u = Returned edited
                /\ contact_crud.update_contact db now key u
                   = (with_contacts db
                        (update_where_id Contact.id key
                           (contact_crud.set_updated_at edited now) (contacts db)),
                      Returned (Some (contact_crud.set_updated_at edited now)))).
Proof.
  unfold contact_crud.update_contact.
  destruct (contact_crud.get_contact db key) as [old|] eqn:Hget; [right|now left].
  pose proof (get_by_id_key _ _ _ Hget) as Hid.
  exists old. split; [reflexivity|]. cbv zeta.
  destruct (contact_commit_cases db now old u)
    as [[Hm ->]|[Hm [[Ho ->]|[Ho [->|(edited & Es & _ & ->)]]]]].
  - right; right; left. split; [|now split].
    destruct (contact_crud.out_of_range old u) eqn:Ho; [|reflexivity].
    apply contact_out_of_range_modified in Ho. congruence.
  - left. now split.
  - right; left. now split.
  - right; right; right. exists edited. rewrite Hid.
    pose proof (contact_setattrs_frame _ _ Es) as ((Hk & _) & _).
    repeat split; auto. congruence.
Qed.

Lemma update_interaction_cases (db : Store) (now key : Z) (u : InteractionUpdate.t) :
  (interaction_crud.get_interaction db key = None
   /\ interaction_crud.update_interaction db now key u = (db, Returned None))
  \/ exists old,
       interaction_crud.get_interaction db key = Some old
       /\ (interaction_crud.update_interaction db now key u = (db, Raised IntegrityError)
           \/ (interaction_crud.modified old u = false
               /\ interaction_crud.update_interaction db now key u
                  = (db, Returned (Some old)))
           \/ exists edited,
                Interaction.id edited = key
                /\ interaction_crud.modified old u = true
                /\ interaction_crud.setattrs old u = Returned edited
                /\ interaction_crud.update_interaction db now key u
                   = (with_interactions db
                        (update_where_id Interaction.id key
                           (interaction_crud.set_updated_at edited now) (interactions db)),
                      Returned (Some (interaction_crud.set_updated_at edited now)))).
Proof.
  unfold interaction_crud.update_interaction.
  destruct (interaction_crud.get_interaction db key) as [old|] eqn:Hget;
    [right|now left].
  pose proof (get_by_id_key _ _ _ Hget) as Hid.
  exists old. split; [reflexivity|]. cbv zeta.
  destruct (interaction_commit_cases db now old u)
    as [[Hm ->]|[Hm [->|(edited & Es & ->)]]].
  - right; left. now split.
  - now left.
  - right; right. exists edited. rewrite Hid.
    pose proof (interaction_setattrs_frame _ _ Es) as ((Hk & _) & _).
    repeat split; auto. congruence.
Qed.

Lemma update_proposal_cases (db : Store) (now key : Z) (u : ProposalUpdate.t) :
  (proposal_crud.get_proposal db key = None
   /\ proposal_crud.update_proposal db now key u = (db, Returned None))
  \/ exists old,
       proposal_crud.get_proposal db key = Some old
       /\ ((proposal_crud.out_of_range old u = true
            /\ proposal_crud.update_proposal db now key u = (db, Raised DataError))
           \/ (proposal_crud.out_of_range old u = false
               /\ proposal_crud.update_proposal db now key u
                  = (db, Raised IntegrityError))
           \/ (proposal_crud.out_of_range old u = false
               /\ proposal_crud.modified old u = false
               /\ proposal_crud.update_proposal db now key u = (db, Returned (Some old)))
           \/ exists edited,
                Proposal.id edited = key
                /\ proposal_crud.out_of_range old u = false
                /\ proposal_crud.modified old u = true
                /\ proposal_crud.setattrs old u = Returned edited
                /\ proposal_crud.update_proposal db now key u
                   = (with_proposals db
                        (update_where_id Proposal.id key
                           (proposal_crud.set_updated_at edited now) (proposals db)),
                      Returned (Some (proposal_crud.set_updated_at edited now)))).
Proof.
  unfold proposal_crud.update_proposal.
  destruct (proposal_crud.get_proposal db key) as [old|] eqn:Hget; [right|now left].
  pose proof (get_by_id_key _ _ _ Hget) as Hid.
  exists old. split; [reflexivity|]. cbv zeta.
  destruct (proposal_commit_cases db now old u)
    as [[Hm ->]|[Hm [[Ho ->]|[Ho [->|(edited & Es & ->)]]]]].
  - right; right; left. split; [|now split].
    destruct (proposal_crud.out_of_range old u) eqn:Ho; [|reflexivity].
    apply proposal_out_of_range_modified in Ho. congruence.
  - left. now split.
  - right; left. now split.
  - right; right; right. exists edited. rewrite Hid.
    pose proof (proposal_setattrs_frame _ _ Es) as ((Hk & _) & _).
    repeat split; auto. congruence.
Qed.

Lemma update_action_cases (db : Store) (now db_now key : Z) (u : ActionUpdate.t) :
  (action_crud.get_action db key = None
   /\ action_crud.update_action db now db_now key u = (db, Returned None))
  \/ exists old,
       action_crud.get_action db key = Some old
       /\ ((action_crud.out_of_range old u = true
            /\ action_crud.update_action db now db_now key u = (db, Raised DataError))
           \/ (action_crud.out_of_range old u = false
               /\ action_crud.update_action db now db_now key u
                  = (db, Raised IntegrityError))
           \/ (action_crud.out_of_range old u = false
               /\ action_crud.modified old (stamped old now u) = false
               /\ action_crud.update_action db now db_now key u
                  = (db, Returned (Some old)))
           \/ exists edited,
                Action.id edited = key
                /\ action_crud.out_of_range old u = false
                /\ action_crud.modified old (stamped old now u) = true
                /\ action_crud.setattrs old (stamped old now u) = Returned edited
                /\ references Proposal.id (proposals db) (Action.proposal_id edited) = true
                /\ references Interaction.id (interactions db)
                     (Action.interaction_id edited) = true
                /\ Action.contact_id edited = Action.contact_id old
                /\ action_crud.update_action db now db_now key u
                   = (with_actions db
                        (update_where_id Action.id key
                           (action_crud.set_updated_at edited db_now) (actions db)),
                      Returned (Some (action_crud.set_updated_at edited db_now)))).
Proof.
  destruct (action_crud.get_action db key) as [old|] eqn:Hget; [right|left].
  2:{ split; [reflexivity|]. unfold action_crud.update_action. now rewrite Hget. }
  pose proof (get_by_id_key _ _ _ Hget) as Hid.
  exists old. split; [reflexivity|].
  rewrite (@update_action_unfold db now db_now key u old Hget).
  rewrite <- (stamped_out_of_range old now u).
  destruct (action_commit_cases db db_now old (stamped old now u))
    as [[Hm ->]|[Hm [[Ho ->]|[Ho [->|(edited & Es & Hp & Hi & ->)]]]]].
  - right; right; left. split; [|now split].
    destruct (action_crud.out_of_range old (stamped old now u)) eqn:Ho; [|reflexivity].
    apply action_out_of_range_modified in Ho. congruence.
  - left. now split.
  - right; left. now split.
  - right; right; right. exists edited. rewrite Hid.
    pose proof (stamped_frame _ _ _ Es) as (Hk & Hc & _).
    repeat split; auto. congruence.
Qed.

Lemma first_filter_update_other {A} (id : A -> Z) (key k : Z) (stored : A)
    (rows : list A) :
  k <> key -> id stored = key ->
  first (filter (fun r => id r =? k) (update_where_id id key stored rows))
  = first (filter (fun r => id r =? k) rows).
Proof.
  intros Hk Hid. unfold first. f_equal.
  induction rows as [|r rows IH]; [reflexivity|].
  simpl. destruct (Z.eqb_spec (id r) key) as [E|E].
  - rewrite Hid, E. destruct (Z.eqb_spec key k); [congruence|exact IH].
  - rewrite IH. reflexivity.
Qed.

(** X10. The reach of an update.  Whatever its outcome, an update of the
    row [key] leaves the other three tables as they are, keeps the number of
    rows of its own table, and leaves every row with another id exactly as
    it was. *)
Theorem update_touches_one_row (db : Store) (now db_now key k : Z) :
  k <> key ->
  (forall u,
      let db' := fst (contact_crud.update_contact db db_now key u) in
      contact_crud.get_contact db' k = contact_crud.get_contact db k
      /\ count (contacts db') = count (contacts db)
      /\ interactions db' = interactions db /\ proposals db' = proposals db
      /\ actions db' = actions db)
  /\ (forall u,
         let db' := fst (interaction_crud.update_interaction db db_now key u) in
         interaction_crud.get_interaction db' k = interaction_crud.get_interaction db k
         /\ count (interactions db') = count (interactions db)
         /\ contacts db' = contacts db /\ proposals db' = proposals db
         /\ actions db' = actions db)
  /\ (forall u,
         let db' := fst (proposal_crud.update_proposal db db_now key u) in
         proposal_crud.get_proposal db' k = proposal_crud.get_proposal db k
         /\ count (proposals db') = count (proposals db)
         /\ contacts db' = contacts db /\ interactions db' = interactions db
         /\ actions db' = actions db)
  /\ (forall u,
         let db' := fst (action_crud.update_action db now db_now key u) in
         action_crud.get_action db' k = action_crud.get_action db k
         /\ count (actions db') = count (actions db)
         /\ contacts db' = contacts db /\ interactions db' = interactions db
         /\ proposals db' = proposals db).
Proof.
  intros Hk. split; [|split; [|split]]; intros u db'; subst db'.
  - destruct (update_contact_cases db db_now key u)
      as [[_ ->]|(old & _ & [[_ ->]|[[_ ->]|[(_ & _ & ->)|(edited & Hid & _ & _ & _ & ->)]]])];
      cbn [fst]; try (repeat split; reflexivity).
    split; [|split; [|repeat split]].
    + unfold contact_crud.get_contact. cbn [contacts with_contacts].
      now apply first_filter_update_other.
    + cbn [contacts with_contacts]. unfold count, update_where_id.
      now rewrite length_map.
  - destruct (update_interaction_cases db db_now key u)
      as [[_ ->]|(old & _ & [->|[[_ ->]|(edited & Hid & _ & _ & ->)]])];
      cbn [fst]; try (repeat split; reflexivity).
    split; [|split; [|repeat split]].
    + unfold interaction_crud.get_interaction. cbn [interactions with_interactions].
      now apply first_filter_update_other.
    + cbn [interactions with_interactions]. unfold count, update_where_id.
      now rewrite length_map.
  - destruct (update_proposal_cases db db_now key u)
      as [[_ ->]|(old & _ & [[_ ->]|[[_ ->]|[(_ & _ & ->)|(edited & Hid & _ & _ & _ & ->)]]])];
      cbn [fst]; try (repeat split; reflexivity).
    split; [|split; [|repeat split]].
    + unfold proposal_crud.get_proposal. cbn [proposals with_proposals].
      now apply first_filter_update_other.
    + cbn [proposals with_proposals]. unfold count, update_where_id.
      now rewrite length_map.
  - destruct (update_action_cases db now db_now key u)
      as [[_ ->]|(old & _ & [[_ ->]|[[_ ->]|[(_ & _ & ->)|(edited & Hid & _ & _ & _ & _ & _ & _ & ->)]]])];
      cbn [fst]; try (repeat split; reflexivity).
    split; [|split; [|repeat split]].
    + unfold action_crud.get_action. cbn [actions with_actions].
      now apply first_filter_update_other.
    + cbn [actions with_actions]. unfold count, update_where_id.
      now rewrite length_map.
Qed.

Lemma update_touches_one_row_witness :
  action_crud.get_action
    (fst (action_crud.update_action sample.db 50 60 1 sample.complete)) 2
  = Some sample.call2.
Proof.
  destruct (@update_touches_one_row sample.db 50 60 1 2) as (_ & _ & _ & H);
    [discriminate|].
  destruct (H sample.complete) as [Hget _]. exact Hget.
Defined.
(** ** Updates and deletes: repeating them *)

Lemma contact_setattrs_again (u : ContactUpdate.t) (old edited : Contact.t) (now : Z) :
  contact_crud.setattrs old u = Returned edited ->
  contact_crud.setattrs (contact_crud.set_updated_at edited now) u
  = Returned (contact_crud.set_updated_at edited now).
Proof.
  destruct u as [f l e ph co jt st so ow tg nt na].
  unfold contact_crud.setattrs; cbn [ContactUpdate.first_name ContactUpdate.last_name
    ContactUpdate.email ContactUpdate.phone ContactUpdate.company ContactUpdate.job_title
    ContactUpdate.status ContactUpdate.source ContactUpdate.owner_id ContactUpdate.tags
    ContactUpdate.notes ContactUpdate.next_action].
  intros H. slots; try discriminate; injection H as <-;
    destruct e, ph, co, jt, so, ow, tg as [|[?|]], nt, na as [|[?|]]; reflexivity.
Qed.

Lemma interaction_setattrs_again (u : InteractionUpdate.t) (old edited : Interaction.t)
    (now : Z) :
  interaction_crud.setattrs old u = Returned edited ->
  interaction_crud.setattrs (interaction_crud.set_updated_at edited now) u
  = Returned (interaction_crud.set_updated_at edited now).
Proof.
  destruct u as [ty oc su ou cb].
  unfold interaction_crud.setattrs; cbn [InteractionUpdate.type
    InteractionUpdate.occurred_at InteractionUpdate.summary InteractionUpdate.outcome
    InteractionUpdate.created_by].
  intros H. slots; try discriminate; injection H as <-; destruct ou, cb; reflexivity.
Qed.

Lemma proposal_setattrs_again (u : ProposalUpdate.t) (old edited : Proposal.t) (now : Z) :
  proposal_crud.setattrs old u = Returned edited ->
  proposal_crud.setattrs (proposal_crud.set_updated_at edited now) u
  = Returned (proposal_crud.set_updated_at edited now).
Proof.
  destruct u as [ti de va st ap ex].
  unfold proposal_crud.setattrs; cbn [ProposalUpdate.title ProposalUpdate.description
    ProposalUpdate.value ProposalUpdate.status ProposalUpdate.applied_at
    ProposalUpdate.expires_at].
  intros H. slots; try discriminate; injection H as <-;
    destruct de, va, ap as [|[?|]], ex as [|[?|]]; reflexivity.
Qed.

(** What the unit of work sees when a value that was just written is
    written again. *)
Lemma differs_setattr {A} (eqb : A -> A -> bool) (slot : field (option A))
    (current : option A) :
  (forall x, eqb x x = true) -> differs eqb slot (setattr slot current) = false.
Proof.
  intros Hrefl. destruct slot as [|[v|]]; cbn [setattr differs]; [reflexivity| |reflexivity].
  now rewrite Hrefl.
Qed.

Lemma differs_not_null_setattr {A} (eqb : A -> A -> bool) (slot : field (option A))
    (current v : A) :
  (forall x, eqb x x = true) ->
  setattr_not_null slot current = Returned v -> differs_not_null eqb slot v = false.
Proof.
  intros Hrefl H. destruct slot as [|[w|]]; cbn [setattr_not_null differs_not_null] in *;
    [reflexivity| |discriminate].
  injection H as <-. now rewrite Hrefl.
Qed.

Lemma differs_setattr_as {P A} (store : P -> A) (eqb : P -> A -> bool)
    (slot : field (option P)) (current : option A) :
  differs eqb slot (setattr_as store slot current)
  = match slot with
    | Provided (Some v) => negb (eqb v (store v))
    | _ => false
    end.
Proof. destruct slot as [|[v|]]; reflexivity. Qed.

Lemma differs_not_null_setattr_as {P A} (store : P -> A) (eqb : P -> A -> bool)
    (slot : field (option P)) (current v : A) :
  setattr_not_null_as store slot current = Returned v ->
  differs_not_null eqb slot v
  = match slot with
    | Provided (Some p) => negb (eqb p (store p))
    | _ => false
    end.
Proof.
  intros H. destruct slot as [|[w|]]; cbn [setattr_not_null_as differs_not_null] in *;
    [reflexivity| |discriminate].
  now injection H as <-.
Qed.

(** A datetime written again: naive, it is the time stamp read back. *)
Lemma datetime_again (slot : field (option datetime)) :
  match slot with
  | Provided (Some d) => negb (datetime_eqb d (timestamp d))
  | _ => false
  end = true <-> is_aware slot.
Proof.
  unfold is_aware. destruct slot as [|[[t|t]|]]; cbn [datetime_eqb timestamp]; split;
    try discriminate; try (intros [t' H]; discriminate H).
  - now rewrite Z.eqb_refl.
  - eauto.
  - reflexivity.
Qed.

Lemma naive_not_aware (slot : field (option datetime)) : is_naive slot -> ~ is_aware slot.
Proof. intros Hn [t ->]. destruct (Hn _ eq_refl) as [t' H]. discriminate H. Qed.

Lemma tags_eqb_eq (l1 l2 : list string) : tags_eqb l1 l2 = true <-> l1 = l2.
Proof.
  unfold tags_eqb. destruct (list_eq_dec string_dec l1 l2); split; auto; discriminate.
Qed.

Lemma varchar_fixed (s : string) :
  varchar 10 s = s <-> (String.length s <= 10)%nat.
Proof.
  split; [|apply varchar_short].
  intros H. rewrite <- H. apply varchar_length.
Qed.

Lemma varchar_10_array_fixed (tags : list string) :
  varchar_10_array tags = tags <-> forall t, In t tags -> (String.length t <= 10)%nat.
Proof.
  unfold varchar_10_array. induction tags as [|t tags IH]; simpl.
  - split; [intros _ t []|reflexivity].
  - split.
    + intros H. injection H as Ht Hl. intros t' [<-|Hin].
      * now apply varchar_fixed.
      * now apply IH.
    + intros H. f_equal; [apply varchar_fixed|apply IH]; auto.
Qed.

(** Tags written again: they are what is read back unless one was cut. *)
Lemma tags_again (slot : field (option (list string))) :
  match slot with
  | Provided (Some tags) => negb (tags_eqb tags (varchar_10_array tags))
  | _ => false
  end = true <-> tags_cut slot.
Proof.
  unfold tags_cut. destruct slot as [|[tags|]]; split; try discriminate;
    try (intros (tags' & t & H & _); discriminate H).
  - intros H. apply negb_true_iff in H.
    assert (Hex : Exists (fun t => ~ (String.length t <= 10)%nat) tags).
    { apply neg_Forall_Exists_neg with (P := fun t => (String.length t <= 10)%nat).
      - intros t. destruct (le_dec (String.length t) 10); [now left|now right].
      - intros Hall. rewrite Forall_forall in Hall.
        apply varchar_10_array_fixed in Hall.
        assert (E : tags_eqb tags (varchar_10_array tags) = true)
          by now apply tags_eqb_eq.
        congruence. }
    apply Exists_exists in Hex as (t & Hin & Hlen). exists tags, t.
    repeat split; [exact Hin|lia].
  - intros (tags' & t & E & Hin & Hlen). injection E as <-.
    apply negb_true_iff. destruct (tags_eqb tags (varchar_10_array tags)) eqn:E;
      [|reflexivity].
    apply tags_eqb_eq in E. symmetry in E.
    pose proof (proj1 (varchar_10_array_fixed tags) E t Hin). lia.
Qed.

Lemma tags_fit_not_cut (slot : field (option (list string))) :
  tags_fit slot -> ~ tags_cut slot.
Proof.
  intros Hf (tags & t & E & Hin & Hlen). pose proof (Hf tags t E Hin). lia.
Qed.

Lemma not_true_false (b : bool) (P : Prop) : (b = true <-> P) -> ~ P -> b = false.
Proof. intros H Hn. destruct b; [|reflexivity]. elim Hn. now apply H. Qed.

(** An offset-aware datetime, or a tag that will be cut, is a change
    whatever the row holds. *)
Lemma differs_aware (slot : field (option datetime)) (current : option Z) :
  is_aware slot -> differs datetime_eqb slot current = true.
Proof. intros [t ->]. now destruct current. Qed.

Lemma differs_not_null_aware (slot : field (option datetime)) (current : Z) :
  is_aware slot -> differs_not_null datetime_eqb slot current = true.
Proof. now intros [t ->]. Qed.

Lemma differs_tags_cut (slot : field (option (list string)))
    (current : option (list string)) :
  tags_cut slot -> tags_column current -> differs tags_eqb slot current = true.
Proof.
  intros (tags & t & -> & Hin & Hlen) Hc. destruct current as [column|]; [|reflexivity].
  cbn [differs]. apply negb_true_iff.
  destruct (tags_eqb tags column) eqn:E; [|reflexivity].
  apply tags_eqb_eq in E. subst column. pose proof (Hc tags t eq_refl Hin). lia.
Qed.

(** The row an update stored, seen by the same payload: only the tags and
    the datetimes can differ. *)
Lemma contact_modified_again (u : ContactUpdate.t) (old edited : Contact.t) (now : Z) :
  contact_crud.setattrs old u = Returned edited ->
  (contact_crud.modified (contact_crud.set_updated_at edited now) u = true
   <-> tags_cut (ContactUpdate.tags u) \/ is_aware (ContactUpdate.next_action u))
  /\ contact_crud.out_of_range (contact_crud.set_updated_at edited now) u = false.
Proof.
  destruct u as [f l e ph co jt st so ow tg nt na].
  unfold contact_crud.setattrs, contact_crud.modified, contact_crud.out_of_range, overflows;
    cbn [ContactUpdate.first_name ContactUpdate.last_name
    ContactUpdate.email ContactUpdate.phone ContactUpdate.company ContactUpdate.job_title
    ContactUpdate.status ContactUpdate.source ContactUpdate.owner_id ContactUpdate.tags
    ContactUpdate.notes ContactUpdate.next_action].
  destruct (setattr_not_null f (Contact.first_name old)) as [f'|] eqn:Ef; [|discriminate].
  destruct (setattr_not_null l (Contact.last_name old)) as [l'|] eqn:El; [|discriminate].
  destruct (setattr_not_null st (Contact.status old)) as [st'|] eqn:Est; [|discriminate].
  cbn [bind]. intros H. injection H as <-.
  cbn [contact_crud.set_updated_at Contact.first_name Contact.last_name Contact.email
       Contact.phone Contact.company Contact.job_title Contact.status Contact.source
       Contact.owner_id Contact.tags Contact.notes Contact.next_action].
  rewrite (@differs_not_null_setattr _ String.eqb f _ f' String.eqb_refl Ef),
    (@differs_not_null_setattr _ String.eqb l _ l' String.eqb_refl El),
    (@differs_not_null_setattr _ ContactStatus.eqb st (Contact.status old) st').
  2:{ intros x. now apply ContactStatus_eqb_eq. }
  2:{ exact Est. }
  rewrite !(differs_setattr String.eqb) by apply String.eqb_refl.
  rewrite (differs_setattr Z.eqb) by apply Z.eqb_refl.
  rewrite !differs_setattr_as. cbn [orb andb].
  split; [|reflexivity].
  rewrite orb_true_iff, orb_false_r, tags_again, datetime_again. reflexivity.
Qed.

Lemma interaction_modified_again (u : InteractionUpdate.t) (old edited : Interaction.t)
    (now : Z) :
  interaction_crud.setattrs old u = Returned edited ->
  interaction_crud.modified (interaction_crud.set_updated_at edited now) u = true
  <-> is_aware (InteractionUpdate.occurred_at u).
Proof.
  destruct u as [ty oc su ou cb].
  unfold interaction_crud.setattrs, interaction_crud.modified;
    cbn [InteractionUpdate.type InteractionUpdate.occurred_at InteractionUpdate.summary
         InteractionUpdate.outcome InteractionUpdate.created_by].
  destruct (setattr_not_null ty (Interaction.type old)) as [ty'|] eqn:Ety; [|discriminate].
  destruct (setattr_not_null_as timestamp oc (Interaction.occurred_at old))
    as [oc'|] eqn:Eoc; [|discriminate].
  destruct (setattr_not_null su (Interaction.summary old)) as [su'|] eqn:Esu;
    [|discriminate].
  cbn [bind]. intros H. injection H as <-.
  cbn [interaction_crud.set_updated_at Interaction.type Interaction.occurred_at
       Interaction.summary Interaction.outcome Interaction.created_by].
  rewrite (@differs_not_null_setattr _ InteractionType.eqb ty (Interaction.type old) ty').
  2:{ intros x. now apply InteractionType_eqb_eq. }
  2:{ exact Ety. }
  rewrite (@differs_not_null_setattr_as _ _ timestamp datetime_eqb oc _ oc' Eoc),
    (@differs_not_null_setattr _ String.eqb su _ su' String.eqb_refl Esu).
  rewrite !(differs_setattr String.eqb) by apply String.eqb_refl.
  cbn [orb]. rewrite !orb_false_r. apply datetime_again.
Qed.

Lemma proposal_modified_again (u : ProposalUpdate.t) (old edited : Proposal.t) (now : Z) :
  proposal_crud.setattrs old u = Returned edited ->
  (proposal_crud.modified (proposal_crud.set_updated_at edited now) u = true
   <-> is_aware (ProposalUpdate.applied_at u) \/ is_aware (ProposalUpdate.expires_at u))
  /\ proposal_crud.out_of_range (proposal_crud.set_updated_at edited now) u = false.
Proof.
  destruct u as [ti de va st ap ex].
  unfold proposal_crud.setattrs, proposal_crud.modified, proposal_crud.out_of_range,
    overflows;
    cbn [ProposalUpdate.title ProposalUpdate.description ProposalUpdate.value
         ProposalUpdate.status ProposalUpdate.applied_at ProposalUpdate.expires_at].
  destruct (setattr_not_null ti (Proposal.title old)) as [ti'|] eqn:Eti; [|discriminate].
  destruct (setattr_not_null st (Proposal.status old)) as [st'|] eqn:Est; [|discriminate].
  cbn [bind]. intros H. injection H as <-.
  cbn [proposal_crud.set_updated_at Proposal.title Proposal.description Proposal.value
       Proposal.status Proposal.applied_at Proposal.expires_at].
  rewrite (@differs_not_null_setattr _ String.eqb ti _ ti' String.eqb_refl Eti),
    (@differs_not_null_setattr _ ProposalStatus.eqb st (Proposal.status old) st').
  2:{ intros x. now apply ProposalStatus_eqb_eq. }
  2:{ exact Est. }
  rewrite (differs_setattr String.eqb) by apply String.eqb_refl.
  rewrite (differs_setattr Z.eqb) by apply Z.eqb_refl.
  rewrite !differs_setattr_as. cbn [orb andb].
  split; [|reflexivity].
  rewrite orb_true_iff, !datetime_again. reflexivity.
Qed.

(** The check of the unique email looks at the other rows only, and an
    UPDATE leaves those as they were. *)
Lemma other_rows_after_update {A} (id : A -> Z) (key : Z) (stored : A) (p : A -> bool)
    (rows : list A) :
  id stored = key ->
  existsb (fun c => negb (id c =? key) && p c) (update_where_id id key stored rows)
  = existsb (fun c => negb (id c =? key) && p c) rows.
Proof.
  intros Hid. unfold update_where_id. induction rows as [|r rows IH]; [reflexivity|].
  simpl. rewrite IH. destruct (id r =? key) eqn:E; cbn beta; rewrite ?E; [|reflexivity].
  rewrite Hid, Z.eqb_refl. reflexivity.
Qed.

(** X11. Repeating an update of a Contact, an Interaction or a Proposal:
    the same payload, applied again at any later time to the store the
    first call left, after that call returned a row.  When every datetime
    of the payload is naive and no tag of it is longer than 10 characters,
    the repetition returns that very row, leaves the store as it is and
    does not refresh [updated_at].  When the payload carries an
    offset-aware datetime, or a tag of more than 10 characters for a
    contact whose stored tags are within the column's length, the
    repetition sends its UPDATE again: the row is stored and returned with
    [updated_at] set to the later time and nothing else changed. *)
Theorem repeated_update (db db1 : Store) (now later key : Z) :
  (forall u r,
      contact_crud.update_contact db now key u = (db1, Returned (Some r)) ->
      (tags_fit (ContactUpdate.tags u) -> is_naive (ContactUpdate.next_action u) ->
       contact_crud.update_contact db1 later key u = (db1, Returned (Some r)))
      /\ (is_aware (ContactUpdate.next_action u)
          \/ (tags_cut (ContactUpdate.tags u)
              /\ forall old, contact_crud.get_contact db key = Some old ->
                             tags_column (Contact.tags old)) ->
          contact_crud.update_contact db1 later key u
          = (with_contacts db1
               (update_where_id Contact.id key (contact_crud.set_updated_at r later)
                  (contacts db1)),
             Returned (Some (contact_crud.set_updated_at r later)))))
  /\ (forall u r,
         interaction_crud.update_interaction db now key u = (db1, Returned (Some r)) ->
         (is_naive (InteractionUpdate.occurred_at u) ->
          interaction_crud.update_interaction db1 later key u = (db1, Returned (Some r)))
         /\ (is_aware (InteractionUpdate.occurred_at u) ->
             interaction_crud.update_interaction db1 later key u
             = (with_interactions db1
                  (update_where_id Interaction.id key
                     (interaction_crud.set_updated_at r later) (interactions db1)),
                Returned (Some (interaction_crud.set_updated_at r later)))))
  /\ (forall u r,
         proposal_crud.update_proposal db now key u = (db1, Returned (Some r)) ->
         (is_naive (ProposalUpdate.applied_at u) ->
          is_naive (ProposalUpdate.expires_at u) ->
          proposal_crud.update_proposal db1 later key u = (db1, Returned (Some r)))
         /\ (is_aware (ProposalUpdate.applied_at u)
             \/ is_aware (ProposalUpdate.expires_at u) ->
             proposal_crud.update_proposal db1 later key u
             = (with_proposals db1
                  (update_where_id Proposal.id key (proposal_crud.set_updated_at r later)
                     (proposals db1)),
                Returned (Some (proposal_crud.set_updated_at r later))))).
Proof.
  split; [|split]; intros u r H.
  - unfold contact_crud.update_contact in H.
    destruct (contact_crud.get_contact db key) as [old|] eqn:Hget; [|discriminate].
    pose proof (get_by_id_key _ _ _ Hget) as Hid. cbv zeta in H.
    destruct (contact_commit_cases db now old u)
      as [[Hm E]|[Hm [[Ho E]|[Ho [E|(edited & Es & Hemail & E)]]]]];
      rewrite E in H; try discriminate H; injection H as <- <-.
    + split.
      * intros _ _. unfold contact_crud.update_contact. rewrite Hget. cbv zeta.
        unfold contact_crud.commit_update. now rewrite Hm.
      * intros Hc. exfalso. unfold contact_crud.modified in Hm.
        repeat (apply orb_false_iff in Hm; destruct Hm as [Hm ?]).
        destruct Hc as [Haw|[Hcut Hcol]].
        -- pose proof (differs_aware (Contact.next_action old) Haw). congruence.
        -- pose proof (differs_tags_cut Hcut (Hcol old eq_refl)). congruence.
    + pose proof (contact_setattrs_frame _ _ Es) as ((Hk & _) & _).
      assert (Hget1 : contact_crud.get_contact
                        (with_contacts db
                           (update_where_id Contact.id (Contact.id old)
                              (contact_crud.set_updated_at edited now) (contacts db))) key
                      = Some (contact_crud.set_updated_at edited now)).
      { unfold contact_crud.get_contact. cbn [contacts with_contacts]. rewrite Hid.
        apply first_filter_updated with (loaded := old); [exact Hget|].
        simpl. congruence. }
      destruct (@contact_modified_again u old edited now Es) as [Hmod Hout].
      unfold contact_crud.update_contact. rewrite Hget1. cbv zeta.
      unfold contact_crud.commit_update. split.
      * intros Hf Hn.
        rewrite (not_true_false Hmod); [reflexivity|].
        intros [Hcut|Haw]; [now apply (tags_fit_not_cut Hf)|now apply (naive_not_aware Hn)].
      * intros Hc.
        assert (Hm' : contact_crud.modified (contact_crud.set_updated_at edited now) u
                      = true).
        { apply Hmod. destruct Hc as [Haw|[Hcut _]]; auto. }
        rewrite Hm', Hout, (@contact_setattrs_again u old edited now Es). cbn [negb].
        cbn [contacts with_contacts].
        replace (Contact.id (contact_crud.set_updated_at edited now)) with key
          by (simpl; congruence).
        replace (Contact.email (contact_crud.set_updated_at edited now))
          with (Contact.email edited) by reflexivity.
        rewrite Hid in *.
        assert (Hcheck :
                  col_test
                    (fun e => existsb (fun c => negb (Contact.id c =? key)
                                                && col_test (String.eqb e) (Contact.email c))
                                      (update_where_id Contact.id key
                                         (contact_crud.set_updated_at edited now)
                                         (contacts db)))
                    (Contact.email edited) = false).
        { rewrite <- Hemail. destruct (Contact.email edited) as [e|]; [|reflexivity].
          cbn [col_test].
          apply (@other_rows_after_update _ Contact.id key
                   (contact_crud.set_updated_at edited now)
                   (fun c => col_test (String.eqb e) (Contact.email c))).
          simpl. congruence. }
        rewrite Hcheck. reflexivity.
  - unfold interaction_crud.update_interaction in H.
    destruct (interaction_crud.get_interaction db key) as [old|] eqn:Hget;
      [|discriminate].
    pose proof (get_by_id_key _ _ _ Hget) as Hid. cbv zeta in H.
    destruct (interaction_commit_cases db now old u)
      as [[Hm E]|[Hm [E|(edited & Es & E)]]];
      rewrite E in H; try discriminate H; injection H as <- <-.
    + split.
      * intros _. unfold interaction_crud.update_interaction. rewrite Hget. cbv zeta.
        unfold interaction_crud.commit_update. now rewrite Hm.
      * intros Haw. exfalso. unfold interaction_crud.modified in Hm.
        repeat (apply orb_false_iff in Hm; destruct Hm as [Hm ?]).
        pose proof (differs_not_null_aware (Interaction.occurred_at old) Haw).
        congruence.
    + pose proof (interaction_setattrs_frame _ _ Es) as ((Hk & _) & _).
      assert (Hget1 : interaction_crud.get_interaction
                        (with_interactions db
                           (update_where_id Interaction.id (Interaction.id old)
                              (interaction_crud.set_updated_at edited now)
                              (interactions db))) key
                      = Some (interaction_crud.set_updated_at edited now)).
      { unfold interaction_crud.get_interaction. cbn [interactions with_interactions].
        rewrite Hid. apply first_filter_updated with (loaded := old); [exact Hget|].
        simpl. congruence. }
      pose proof (@interaction_modified_again u old edited now Es) as Hmod.
      unfold interaction_crud.update_interaction. rewrite Hget1. cbv zeta.
      unfold interaction_crud.commit_update. split.
      * intros Hn. rewrite (not_true_false Hmod); [reflexivity|].
        now apply naive_not_aware.
      * intros Haw. apply Hmod in Haw.
        rewrite Haw, (@interaction_setattrs_again u old edited now Es). cbn [negb].
        cbn [interactions with_interactions].
        replace (Interaction.id (interaction_crud.set_updated_at edited now)) with key
          by (simpl; congruence).
        rewrite Hid. reflexivity.
  - unfold proposal_crud.update_proposal in H.
    destruct (proposal_crud.get_proposal db key) as [old|] eqn:Hget; [|discriminate].
    pose proof (get_by_id_key _ _ _ Hget) as Hid. cbv zeta in H.
    destruct (proposal_commit_cases db now old u)
      as [[Hm E]|[Hm [[Ho E]|[Ho [E|(edited & Es & E)]]]]];
      rewrite E in H; try discriminate H; injection H as <- <-.
    + split.
      * intros _ _. unfold proposal_crud.update_proposal. rewrite Hget. cbv zeta.
        unfold proposal_crud.commit_update. now rewrite Hm.
      * intros Hc. exfalso. unfold proposal_crud.modified in Hm.
        repeat (apply orb_false_iff in Hm; destruct Hm as [Hm ?]).
        destruct Hc as [Haw|Haw].
        -- pose proof (differs_aware (Proposal.applied_at old) Haw). congruence.
        -- pose proof (differs_aware (Proposal.expires_at old) Haw). congruence.
    + pose proof (proposal_setattrs_frame _ _ Es) as ((Hk & _) & _).
      assert (Hget1 : proposal_crud.get_proposal
                        (with_proposals db
                           (update_where_id Proposal.id (Proposal.id old)
                              (proposal_crud.set_updated_at edited now) (proposals db))) key
                      = Some (proposal_crud.set_updated_at edited now)).
      { unfold proposal_crud.get_proposal. cbn [proposals with_proposals]. rewrite Hid.
        apply first_filter_updated with (loaded := old); [exact Hget|].
        simpl. congruence. }
      destruct (@proposal_modified_again u old edited now Es) as [Hmod Hout].
      unfold proposal_crud.update_proposal. rewrite Hget1. cbv zeta.
      unfold proposal_crud.commit_update. split.
      * intros Ha He. rewrite (not_true_false Hmod); [reflexivity|].
        intros [Haw|Haw]; [now apply (naive_not_aware Ha)|now apply (naive_not_aware He)].
      * intros Hc. apply Hmod in Hc.
        rewrite Hc, Hout, (@proposal_setattrs_again u old edited now Es). cbn [negb].
        cbn [proposals with_proposals].
        replace (Proposal.id (proposal_crud.set_updated_at edited now)) with key
          by (simpl; congruence).
        rewrite Hid. reflexivity.
Qed.

Lemma repeated_update_witness :
  (exists db1 r,
     proposal_crud.update_proposal sample.db 60 3 sample.submit = (db1, Returned (Some r))
     /\ Proposal.updated_at r = 60
     /\ proposal_crud.update_proposal db1 99 3 sample.submit = (db1, Returned (Some r)))
  /\ (exists db1 r,
        proposal_crud.update_proposal sample.db 60 3 expires_aware
        = (db1, Returned (Some r))
        /\ Proposal.expires_at r = Some 90 /\ Proposal.updated_at r = 60
        /\ snd (proposal_crud.update_proposal db1 99 3 expires_aware)
           = Returned (Some (proposal_crud.set_updated_at r 99)))
  /\ (exists db1 r,
        contact_crud.update_contact sample.db 60 1 retag_long = (db1, Returned (Some r))
        /\ Contact.tags r = Some ["enterprise"; "vip"] /\ Contact.updated_at r = 60
        /\ snd (contact_crud.update_contact db1 99 1 retag_long)
           = Returned (Some (contact_crud.set_updated_at r 99))).
Proof.
  split; [|split].
  - eexists. eexists. split; [vm_compute; reflexivity|]. split; [reflexivity|].
    match goal with |- proposal_crud.update_proposal ?d _ _ _ = (_, Returned (Some ?r)) =>
      destruct (@repeated_update sample.db d 60 99 3) as (_ & _ & H);
      destruct (H sample.submit r) as [Hsame _] end.
    + vm_compute. reflexivity.
    + apply Hsame; intros d E; discriminate E.
  - eexists. eexists. split; [vm_compute; reflexivity|].
    split; [reflexivity|]. split; [reflexivity|].
    match goal with |- snd (proposal_crud.update_proposal ?d _ _ _) = Returned (Some (_ ?r _)) =>
      destruct (@repeated_update sample.db d 60 99 3) as (_ & _ & H);
      destruct (H expires_aware r) as [_ Hagain] end.
    + vm_compute. reflexivity.
    + rewrite Hagain; [reflexivity|]. right. exists 90. reflexivity.
  - eexists. eexists. split; [vm_compute; reflexivity|].
    split; [reflexivity|]. split; [reflexivity|].
    match goal with |- snd (contact_crud.update_contact ?d _ _ _) = Returned (Some (_ ?r _)) =>
      destruct (@repeated_update sample.db d 60 99 1) as (H & _);
      destruct (H retag_long r) as [_ Hagain] end.
    + vm_compute. reflexivity.
    + rewrite Hagain; [reflexivity|]. right. split.
      * exists ["enterprise-customer"; "vip"], "enterprise-customer".
        split; [reflexivity|]. split; [now left|simpl; lia].
      * intros old E. vm_compute in E. injection E as <-.
        intros tags t E Hin. injection E as <-.
        destruct Hin as [<-|[<-|[]]]; simpl; lia.
Defined.
(** An Action stored by an update, seen by the same payload without its
    [completed_at]: only [due_at] can differ. *)
Lemma action_again (ti de : field (option string)) (st : field (option ActionStatus.t))
    (pr : field (option ActionPriority.t)) (ty : field (option ActionType.t))
    (du co : field (option datetime)) (asg pid iid : field (option Z))
    (old edited : Action.t) (t : Z) :
  action_crud.setattrs old (ActionUpdate.mk ti de st pr ty du co asg pid iid)
  = Returned edited ->
  let u := ActionUpdate.mk ti de st pr ty du Omitted asg pid iid in
  let r := action_crud.set_updated_at edited t in
  (action_crud.modified r u = true <-> is_aware du)
  /\ action_crud.out_of_range r u = false
  /\ action_crud.setattrs r u = Returned r.
Proof.
  unfold action_crud.setattrs, action_crud.modified, action_crud.out_of_range, overflows;
    cbn [ActionUpdate.title ActionUpdate.description ActionUpdate.status
         ActionUpdate.priority ActionUpdate.action_type ActionUpdate.due_at
         ActionUpdate.completed_at ActionUpdate.assigned_to ActionUpdate.proposal_id
         ActionUpdate.interaction_id].
  destruct (setattr_not_null ti (Action.title old)) as [ti'|] eqn:Eti; [|discriminate].
  destruct (setattr_not_null st (Action.status old)) as [st'|] eqn:Est; [|discriminate].
  destruct (setattr_not_null pr (Action.priority old)) as [pr'|] eqn:Epr; [|discriminate].
  destruct (setattr_not_null ty (Action.action_type old)) as [ty'|] eqn:Ety;
    [|discriminate].
  cbn [bind]. intros H. injection H as <-.
  cbn [action_crud.set_updated_at Action.title Action.description Action.status
       Action.priority Action.action_type Action.due_at Action.completed_at
       Action.assigned_to Action.proposal_id Action.interaction_id Action.id
       Action.contact_id Action.created_at Action.updated_at].
  rewrite (@differs_not_null_setattr _ String.eqb ti _ ti' String.eqb_refl Eti),
    (@differs_not_null_setattr _ ActionStatus.eqb st (Action.status old) st'),
    (@differs_not_null_setattr _ ActionPriority.eqb pr (Action.priority old) pr'),
    (@differs_not_null_setattr _ ActionType.eqb ty (Action.action_type old) ty');
    try assumption;
    try (intros x; first [now apply ActionStatus_eqb_eq | now apply ActionPriority_eqb_eq
                         | now apply ActionType_eqb_eq]).
  rewrite (differs_setattr String.eqb) by apply String.eqb_refl.
  rewrite !(differs_setattr Z.eqb) by apply Z.eqb_refl.
  rewrite !differs_setattr_as. cbn [orb andb differs]. rewrite !orb_false_r.
  split; [apply datetime_again|]. split; [reflexivity|].
  destruct ti as [|[?|]], st as [|[?|]], pr as [|[?|]], ty as [|[?|]];
    try discriminate;
    cbn [setattr_not_null] in *;
    repeat match goal with E : Returned _ = Returned _ |- _ => injection E as <- end;
    cbn [bind]; destruct de, du as [|[?|]], asg, pid, iid; reflexivity.
Qed.

Lemma stamped_cases (old : Action.t) (now : Z) (u : ActionUpdate.t) :
  (stamped old now u = u
   /\ (action_crud.status_is_completed u = true -> Action.completed_at old <> None))
  \/ (stamped old now u = action_crud.set_completed_at u (Some (aware now))
      /\ action_crud.status_is_completed u = true /\ Action.completed_at old = None).
Proof.
  unfold stamped. destruct (action_crud.status_is_completed u);
    [destruct (Action.completed_at old)|]; auto; left; split; auto; discriminate.
Qed.

(** X12. Repeating an update of an Action whose payload does not supply
    [completed_at]: the same payload, applied again at any later time to
    the store the first call left, after that call returned a row.  When
    [due_at] is omitted, null or a naive datetime, the repetition returns
    that very row and leaves the store as it is: a completion is stamped
    once, and the stamp and [updated_at] stay as the first call set them.
    When [due_at] is an offset-aware datetime, the repetition sends its
    UPDATE again: the row is stored and returned with [updated_at] set to
    the later time of the database and nothing else changed, the stamp
    included. *)
Theorem repeated_action_update
    (db db1 : Store) (now db_now later db_later key : Z) (u : ActionUpdate.t)
    (r : Action.t) :
  ActionUpdate.completed_at u = Omitted ->
  action_crud.update_action db now db_now key u = (db1, Returned (Some r)) ->
  (is_naive (ActionUpdate.due_at u) ->
   action_crud.update_action db1 later db_later key u = (db1, Returned (Some r)))
  /\ (is_aware (ActionUpdate.due_at u) ->
      action_crud.update_action db1 later db_later key u
      = (with_actions db1
           (update_where_id Action.id key (action_crud.set_updated_at r db_later)
              (actions db1)),
         Returned (Some (action_crud.set_updated_at r db_later)))).
Proof.
  intros Hco H.
  destruct (action_crud.get_action db key) as [old|] eqn:Hget.
  2:{ unfold action_crud.update_action in H. rewrite Hget in H. discriminate H. }
  pose proof (get_by_id_key _ _ _ Hget) as Hid.
  rewrite (@update_action_unfold db now db_now key u old Hget) in H.
  destruct (action_commit_cases db db_now old (stamped old now u))
    as [[Hm E]|[Hm [[Ho E]|[Ho [E|(edited & Es & Hp & Hi & E)]]]]];
    rewrite E in H; try discriminate H; injection H as <- <-.
  - assert (Hs : forall t, stamped old t u = u).
    { intros t. destruct (stamped_cases old now u) as [[Ex Hc]|(Ex & Hc & Hn)].
      - unfold stamped. destruct (action_crud.status_is_completed u); [|reflexivity].
        destruct (Action.completed_at old); [reflexivity|]. now elim Hc.
      - exfalso. rewrite Ex in Hm. unfold action_crud.modified in Hm.
        repeat (apply orb_false_iff in Hm; destruct Hm as [Hm ?]).
        match goal with
          X : differs datetime_eqb (ActionUpdate.completed_at _) _ = false |- _ =>
            rewrite Hn in X; destruct u; discriminate X
        end. }
    rewrite (@update_action_unfold db later db_later key u old Hget), Hs.
    rewrite Hs in Hm. split.
    + intros _. unfold action_crud.commit_update. now rewrite Hm.
    + intros Haw. exfalso. unfold action_crud.modified in Hm.
      repeat (apply orb_false_iff in Hm; destruct Hm as [Hm ?]).
      pose proof (differs_aware (Action.due_at old) Haw). congruence.
  - pose proof (stamped_frame _ _ _ Es) as (Hk & _).
    set (row := action_crud.set_updated_at edited db_now).
    set (db' := with_actions db
                  (update_where_id Action.id (Action.id old) row (actions db))).
    assert (Hget1 : action_crud.get_action db' key = Some row).
    { unfold action_crud.get_action, db'. cbn [actions with_actions]. rewrite Hid.
      apply first_filter_updated with (loaded := old); [exact Hget|].
      subst row. simpl. congruence. }
    assert (Hdone : action_crud.status_is_completed u = true ->
                    Action.completed_at row <> None).
    { intros Hc. subst row. cbn [action_crud.set_updated_at Action.completed_at].
      pose proof (action_setattrs_frame _ _ Es) as (_ & _ & Ev & _). rewrite Ev.
      destruct (stamped_cases old now u) as [[Ex Hc']|(Ex & _ & Hn)]; rewrite Ex.
      - rewrite Hco. cbn [setattr_as]. auto.
      - destruct u; cbn. discriminate. }
    assert (Hs : stamped row later u = u).
    { unfold stamped. destruct (action_crud.status_is_completed u); [|reflexivity].
      destruct (Action.completed_at row); [reflexivity|]. now elim Hdone. }
    assert (Hagain : (action_crud.modified row u = true <-> is_aware (ActionUpdate.due_at u))
                     /\ action_crud.out_of_range row u = false
                     /\ action_crud.setattrs row u = Returned row).
    { destruct u as [ti de st pr ty du co asg pid iid].
      cbn [ActionUpdate.completed_at] in Hco. subst co.
      destruct (stamped_cases old now
                  (ActionUpdate.mk ti de st pr ty du Omitted asg pid iid))
        as [[Ex _]|(Ex & _ & _)]; rewrite Ex in Es.
      - exact (@action_again ti de st pr ty du Omitted asg pid iid old edited db_now Es).
      - exact (@action_again ti de st pr ty du (Provided (Some (aware now))) asg pid iid
                 old edited db_now Es). }
    destruct Hagain as (Hmod & Hout & Hset).
    rewrite (@update_action_unfold db' later db_later key u row Hget1), Hs.
    unfold action_crud.commit_update. split.
    + intros Hn. rewrite (not_true_false Hmod); [reflexivity|].
      now apply naive_not_aware.
    + intros Haw. apply Hmod in Haw. rewrite Haw, Hout, Hset. cbn [negb].
      replace (Action.proposal_id row) with (Action.proposal_id edited) by reflexivity.
      replace (Action.interaction_id row) with (Action.interaction_id edited)
        by reflexivity.
      replace (proposals db') with (proposals db) by reflexivity.
      replace (interactions db') with (interactions db) by reflexivity.
      rewrite Hp, Hi. cbn [negb orb].
      replace (Action.id row) with key by (subst row; simpl; congruence).
      reflexivity.
Qed.

Lemma repeated_action_update_witness :
  (exists db1 r,
     action_crud.update_action sample.db 50 60 1 sample.complete
     = (db1, Returned (Some r))
     /\ Action.completed_at r = Some 50
     /\ action_crud.update_action db1 70 80 1 sample.complete = (db1, Returned (Some r)))
  /\ (exists db1 r,
        action_crud.update_action sample.db 50 60 1 complete_due_aware
        = (db1, Returned (Some r))
        /\ Action.completed_at r = Some 50 /\ Action.updated_at r = 60
        /\ snd (action_crud.update_action db1 70 80 1 complete_due_aware)
           = Returned (Some (action_crud.set_updated_at r 80))).
Proof.
  split.
  - eexists. eexists. split; [vm_compute; reflexivity|]. split; [reflexivity|].
    apply (@repeated_action_update sample.db _ 50 60 70 80 1 sample.complete);
      [reflexivity|vm_compute; reflexivity|].
    intros d E. discriminate E.
  - eexists. eexists. split; [vm_compute; reflexivity|].
    split; [reflexivity|]. split; [reflexivity|].
    match goal with |- snd (action_crud.update_action ?d _ _ _ _) = Returned (Some (_ ?r _)) =>
      destruct (@repeated_action_update sample.db d 50 60 70 80 1 complete_due_aware r)
        as [_ Hagain] end.
    + reflexivity.
    + vm_compute. reflexivity.
    + rewrite Hagain; [reflexivity|]. exists 40. reflexivity.
Defined.

(** X13. An update whose payload supplies nothing returns the stored row
    and leaves the store untouched, [updated_at] included, for each of the
    four entities. *)
Theorem empty_update_changes_nothing (db : Store) (now db_now key : Z) :
  (forall old, contact_crud.get_contact db key = Some old ->
     contact_crud.update_contact db db_now key no_contact_change
     = (db, Returned (Some old)))
  /\ (forall old, interaction_crud.get_interaction db key = Some old ->
        interaction_crud.update_interaction db db_now key no_interaction_change
        = (db, Returned (Some old)))
  /\ (forall old, proposal_crud.get_proposal db key = Some old ->
        proposal_crud.update_proposal db db_now key no_proposal_change
        = (db, Returned (Some old)))
  /\ (forall old, action_crud.get_action db key = Some old ->
        action_crud.update_action db now db_now key no_action_change
        = (db, Returned (Some old))).
Proof.
  split; [|split; [|split]]; intros old Hget.
  - unfold contact_crud.update_contact. rewrite Hget. reflexivity.
  - unfold interaction_crud.update_interaction. rewrite Hget. reflexivity.
  - unfold proposal_crud.update_proposal. rewrite Hget. reflexivity.
  - unfold action_crud.update_action. rewrite Hget. reflexivity.
Qed.

Lemma empty_update_changes_nothing_witness :
  contact_crud.update_contact sample.db 60 1 no_contact_change
  = (sample.db, Returned (Some sample.ada))
  /\ action_crud.update_action sample.db 50 60 3 no_action_change
     = (sample.db, Returned (Some sample.done1)).
Proof.
  split.
  - destruct (empty_update_changes_nothing sample.db 50 60 1) as (H & _).
    apply H. reflexivity.
  - destruct (empty_update_changes_nothing sample.db 50 60 3) as (_ & _ & _ & H).
    apply H. reflexivity.
Defined.

Lemma first_filter_deleted {A} (id : A -> Z) (key : Z) (rows : list A) :
  first (filter (fun r => id r =? key) (delete_where_id id key rows)) = None.
Proof.
  apply first_filter_none. intros x Hx. unfold delete_where_id in Hx.
  apply filter_In in Hx. destruct Hx as [_ Hx]. now apply negb_true_iff in Hx.
Qed.

Lemma first_filter_delete_other {A} (id : A -> Z) (key k : Z) (rows : list A) :
  k <> key ->
  first (filter (fun r => id r =? k) (delete_where_id id key rows))
  = first (filter (fun r => id r =? k) rows).
Proof.
  intros Hk. unfold first, delete_where_id. f_equal.
  induction rows as [|r rows IH]; [reflexivity|].
  simpl. destruct (Z.eqb_spec (id r) key) as [E|E]; simpl.
  - rewrite E. destruct (Z.eqb_spec key k); [congruence|exact IH].
  - rewrite IH. reflexivity.
Qed.

Lemma get_contact_after_delete (db : Store) (key : Z) :
  contact_crud.get_contact (fst (contact_crud.delete_contact db key)) key = None.
Proof.
  unfold contact_crud.delete_contact.
  destruct (contact_crud.get_contact db key) as [c|] eqn:Hget; [|exact Hget].
  pose proof (get_by_id_key _ _ _ Hget) as Hid.
  cbn [fst]. unfold delete_contact_row, contact_crud.get_contact.
  cbn [contacts with_contacts with_actions]. rewrite Hid.
  apply first_filter_deleted.
Qed.

Lemma get_interaction_after_delete (db : Store) (key : Z) :
  interaction_crud.get_interaction
    (fst (interaction_crud.delete_interaction db key)) key = None.
Proof.
  unfold interaction_crud.delete_interaction.
  destruct (interaction_crud.get_interaction db key) as [i|] eqn:Hget; [|exact Hget].
  pose proof (get_by_id_key _ _ _ Hget) as Hid.
  cbn [fst]. unfold delete_interaction_row, interaction_crud.get_interaction.
  cbn [interactions with_interactions with_actions]. rewrite Hid.
  apply first_filter_deleted.
Qed.

Lemma get_proposal_after_delete (db : Store) (key : Z) :
  proposal_crud.get_proposal (fst (proposal_crud.delete_proposal db key)) key = None.
Proof.
  unfold proposal_crud.delete_proposal.
  destruct (proposal_crud.get_proposal db key) as [p|] eqn:Hget; [|exact Hget].
  pose proof (get_by_id_key _ _ _ Hget) as Hid.
  cbn [fst]. unfold delete_proposal_row, proposal_crud.get_proposal.
  cbn [proposals with_proposals with_actions]. rewrite Hid.
  apply first_filter_deleted.
Qed.

Lemma get_action_after_delete (db : Store) (key : Z) :
  action_crud.get_action (fst (action_crud.delete_action db key)) key = None.
Proof.
  unfold action_crud.delete_action.
  destruct (action_crud.get_action db key) as [a|] eqn:Hget; [|exact Hget].
  pose proof (get_by_id_key _ _ _ Hget) as Hid.
  cbn [fst]. unfold action_crud.get_action.
  cbn [actions with_actions]. rewrite Hid.
  apply first_filter_deleted.
Qed.

(** X14. Deleting twice.  After a delete of any of the four entities the
    id is not found any more, whether or not it named a row before; a
    second delete of the same id reports False, changes nothing, and its
    route answers 404.  A delete reports True exactly when the id named a
    row. *)
Theorem delete_is_idempotent (db : Store) (key : Z) :
  (let db' := fst (contact_crud.delete_contact db key) in
   contact_crud.get_contact db' key = None
   /\ contact_crud.delete_contact db' key = (db', false)
   /\ contacts_api.delete_contact db' key = (db', Raised (HTTPException 404))
   /\ (snd (contact_crud.delete_contact db key) = true
       <-> contact_crud.get_contact db key <> None))
  /\ (let db' := fst (interaction_crud.delete_interaction db key) in
      interaction_crud.get_interaction db' key = None
      /\ interaction_crud.delete_interaction db' key = (db', false)
      /\ interactions_api.delete_interaction db' key = (db', Raised (HTTPException 404))
      /\ (snd (interaction_crud.delete_interaction db key) = true
          <-> interaction_crud.get_interaction db key <> None))
  /\ (let db' := fst (proposal_crud.delete_proposal db key) in
      proposal_crud.get_proposal db' key = None
      /\ proposal_crud.delete_proposal db' key = (db', false)
      /\ proposals_api.delete_proposal db' key = (db', Raised (HTTPException 404))
      /\ (snd (proposal_crud.delete_proposal db key) = true
          <-> proposal_crud.get_proposal db key <> None))
  /\ (let db' := fst (action_crud.delete_action db key) in
      action_crud.get_action db' key = None
      /\ action_crud.delete_action db' key = (db', false)
      /\ actions_api.delete_action db' key = (db', Raised (HTTPException 404))
      /\ (snd (action_crud.delete_action db key) = true
          <-> action_crud.get_action db key <> None)).
Proof.
  split; [|split; [|split]]; intros db'.
  - pose proof (get_contact_after_delete db key) as Hg. fold db' in Hg.
    split; [exact Hg|]. split; [|split].
    + unfold contact_crud.delete_contact. now rewrite Hg.
    + unfold contacts_api.delete_contact, contact_crud.delete_contact. now rewrite Hg.
    + unfold contact_crud.delete_contact.
      destruct (contact_crud.get_contact db key); simpl; split; congruence.
  - pose proof (get_interaction_after_delete db key) as Hg. fold db' in Hg.
    split; [exact Hg|]. split; [|split].
    + unfold interaction_crud.delete_interaction. now rewrite Hg.
    + unfold interactions_api.delete_interaction, interaction_crud.delete_interaction.
      now rewrite Hg.
    + unfold interaction_crud.delete_interaction.
      destruct (interaction_crud.get_interaction db key); simpl; split; congruence.
  - pose proof (get_proposal_after_delete db key) as Hg. fold db' in Hg.
    split; [exact Hg|]. split; [|split].
    + unfold proposal_crud.delete_proposal. now rewrite Hg.
    + unfold proposals_api.delete_proposal, proposal_crud.delete_proposal.
      now rewrite Hg.
    + unfold proposal_crud.delete_proposal.
      destruct (proposal_crud.get_proposal db key); simpl; split; congruence.
  - pose proof (get_action_after_delete db key) as Hg. fold db' in Hg.
    split; [exact Hg|]. split; [|split].
    + unfold action_crud.delete_action. now rewrite Hg.
    + unfold actions_api.delete_action, action_crud.delete_action. now rewrite Hg.
    + unfold action_crud.delete_action.
      destruct (action_crud.get_action db key); simpl; split; congruence.
Qed.

(** X15. Deleting an Action removes that row only: the other three tables
    are as they were, every action with another id is still found, and the
    contact, proposal and interaction the action pointed to stay. *)
Theorem delete_action_removes_one_row (db : Store) (key k : Z) :
  let db' := fst (action_crud.delete_action db key) in
  contacts db' = contacts db
  /\ interactions db' = interactions db
  /\ proposals db' = proposals db
  /\ (k <> key -> action_crud.get_action db' k = action_crud.get_action db k)
  /\ (forall a, In a (actions db') <-> In a (actions db) /\ Action.id a <> key).
Proof.
  intros db'. subst db'. unfold action_crud.delete_action.
  destruct (action_crud.get_action db key) as [a0|] eqn:Hget; cbn [fst].
  - pose proof (get_by_id_key _ _ _ Hget) as Hid. rewrite Hid.
    split; [reflexivity|]. split; [reflexivity|]. split; [reflexivity|]. split.
    + intros Hk. unfold action_crud.get_action. cbn [actions with_actions].
      now apply first_filter_delete_other.
    + intros a. cbn [actions with_actions]. unfold delete_where_id.
      rewrite filter_In, negb_true_iff, Z.eqb_neq. reflexivity.
  - split; [reflexivity|]. split; [reflexivity|]. split; [reflexivity|].
    split; [reflexivity|].
    intros a. split; [|tauto]. intros Ha. split; [exact Ha|].
    intros E. unfold action_crud.get_action in Hget.
    rewrite first_filter_none in Hget. specialize (Hget a Ha).
    apply Z.eqb_neq in Hget. contradiction.
Qed.

Lemma delete_action_removes_one_row_witness :
  action_crud.get_action (fst (action_crud.delete_action sample.db 1)) 2
  = Some sample.call2.
Proof.
  destruct (@delete_action_removes_one_row sample.db 1 2) as (_ & _ & _ & H & _).
  rewrite H; [reflexivity|discriminate].
Defined.

(** ** Creating rows *)







Lemma negb_true_not (b : bool) (P : Prop) : (b = true <-> P) -> (negb b = true <-> ~ P).
Proof. intros H. destruct b; cbn; split; intuition (auto; discriminate). Qed.



Lemma range_checks_pass (checks : list bool) :
  (forall b, In b checks -> b = true) -> existsb negb checks = false.
Proof.
  induction checks as [|b checks IH]; [reflexivity|]. intros H. simpl.
  rewrite (H b (or_introl eq_refl)), IH; [reflexivity|]. intros c Hc. apply H. now right.
Qed.



(** ** Integrity constraints as invariants of the writes *)

Lemma references_spec {A} (id : A -> Z) (rows : list A) (fk : option Z) :
  references id rows fk = true <-> forall k, fk = Some k -> exists x, In x rows /\ id x = k.
Proof.
  destruct fk as [k|]; simpl.
  - rewrite existsb_exists. split.
    + intros (x & Hx & E) k' Hk. injection Hk as <-. apply Z.eqb_eq in E. eauto.
    + intros H. destruct (H k eq_refl) as (x & Hx & E). exists x. split; [exact Hx|].
      now apply Z.eqb_eq.
  - split; [discriminate|reflexivity].
Qed.

Lemma references_after_update {A} (id : A -> Z) (key : Z) (stored : A) (rows : list A)
    (fk : option Z) :
  id stored = key ->
  references id rows fk = true ->
  references id (update_where_id id key stored rows) fk = true.
Proof.
  intros Hid. rewrite !references_spec. intros H k Hk.
  destruct (H k Hk) as (x & Hx & E).
  destruct (Z.eqb_spec (id x) key) as [Ek|Ek].
  - exists stored. split; [|congruence].
    unfold update_where_id. apply in_map_iff. exists x. split; [|exact Hx].
    apply Z.eqb_eq in Ek. now rewrite Ek.
  - exists x. split; [|exact E].
    unfold update_where_id. apply in_map_iff. exists x. split; [|exact Hx].
    apply Z.eqb_neq in Ek. now rewrite Ek.
Qed.

Lemma references_after_append {A} (id : A -> Z) (row : A) (rows : list A)
    (fk : option Z) :
  references id rows fk = true -> references id (rows ++ [row]) fk = true.
Proof.
  rewrite !references_spec. intros H k Hk. destruct (H k Hk) as (x & Hx & E).
  exists x. split; [|exact E]. apply in_or_app. now left.
Qed.

Lemma references_after_delete {A} (id : A -> Z) (key : Z) (rows : list A)
    (fk : option Z) :
  fk <> Some key ->
  references id rows fk = true ->
  references id (delete_where_id id key rows) fk = true.
Proof.
  intros Hne. rewrite !references_spec. intros H k Hk. destruct (H k Hk) as (x & Hx & E).
  exists x. split; [|exact E]. unfold delete_where_id. apply filter_In.
  split; [exact Hx|]. apply negb_true_iff, Z.eqb_neq. congruence.
Qed.

Lemma ids_after_update {A} (id : A -> Z) (key : Z) (stored : A) (rows : list A) :
  id stored = key -> map id (update_where_id id key stored rows) = map id rows.
Proof.
  intros Hid. unfold update_where_id. rewrite map_map. apply map_ext.
  intros r. destruct (Z.eqb_spec (id r) key); congruence.
Qed.

Lemma NoDup_ids_filter {A} (id : A -> Z) (p : A -> bool) (rows : list A) :
  NoDup (map id rows) -> NoDup (map id (filter p rows)).
Proof.
  induction rows as [|r rows IH]; simpl; intros H; [constructor|].
  inversion H as [|? ? Hn Hd]; subst.
  destruct (p r); [|now apply IH]. simpl. constructor; [|now apply IH].
  intros Hin. apply Hn. apply in_map_iff in Hin. destruct Hin as (x & E & Hx).
  apply filter_In in Hx. apply in_map_iff. exists x. tauto.
Qed.

Lemma NoDup_ids_append {A} (id : A -> Z) (row : A) (rows : list A) :
  existsb (fun r => id r =? id row) rows = false ->
  NoDup (map id rows) -> NoDup (map id (rows ++ [row])).
Proof.
  intros Hfresh Hnd. rewrite map_app. simpl.
  apply NoDup_app; [exact Hnd|repeat constructor; simpl; tauto|].
  intros k Hk [<-|[]]. apply in_map_iff in Hk. destruct Hk as (x & E & Hx).
  assert (existsb (fun r => id r =? id row) rows = true).
  { apply existsb_exists. exists x. split; [exact Hx|now apply Z.eqb_eq]. }
  congruence.
Qed.

Lemma fold_invariant {A} (P : Store -> Prop) (f : Store -> A -> Store) (l : list A)
    (db : Store) :
  (forall d x, P d -> P (f d x)) -> P db -> P (fold_left f l db).
Proof.
  intros Hf. revert db. induction l as [|x l IH]; intros db H; simpl; auto.
Qed.

Lemma delete_interaction_row_keeps_pk (db : Store) (i : Interaction.t) :
  pk_unique db -> pk_unique (delete_interaction_row db i).
Proof.
  intros (Hc & Hi & Hp & Ha). unfold delete_interaction_row, pk_unique.
  cbn [contacts interactions proposals actions with_interactions with_actions].
  repeat split; auto; now apply NoDup_ids_filter.
Qed.

Lemma delete_proposal_row_keeps_pk (db : Store) (p : Proposal.t) :
  pk_unique db -> pk_unique (delete_proposal_row db p).
Proof.
  intros (Hc & Hi & Hp & Ha). unfold delete_proposal_row, pk_unique.
  cbn [contacts interactions proposals actions with_proposals with_actions].
  repeat split; auto; now apply NoDup_ids_filter.
Qed.

Lemma delete_contact_row_keeps_pk (db : Store) (c : Contact.t) :
  pk_unique db -> pk_unique (delete_contact_row db c).
Proof.
  intros H. unfold delete_contact_row.
  match goal with |- context [fold_left delete_proposal_row ?lp
                                (fold_left delete_interaction_row ?li db)] =>
    assert (H2 : pk_unique (fold_left delete_proposal_row lp
                              (fold_left delete_interaction_row li db)))
  end.
  { apply fold_invariant; [intros; now apply delete_proposal_row_keeps_pk|].
    apply fold_invariant; [intros; now apply delete_interaction_row_keeps_pk|exact H]. }
  destruct H2 as (Hc & Hi & Hp & Ha). unfold pk_unique.
  cbn [contacts interactions proposals actions with_contacts with_actions].
  repeat split; auto; now apply NoDup_ids_filter.
Qed.

(** X18. Primary keys.  A store in which no two rows of a table share an
    id stays so under every write of the data-access layer: the four
    creates, the four updates and the four deletes, cascades included. *)
Theorem writes_keep_primary_keys (db : Store) (now db_now key : Z) :
  pk_unique db ->
  (forall contact, pk_unique (fst (contact_crud.create_contact db now key contact)))
  /\ (forall interaction,
        pk_unique (fst (interaction_crud.create_interaction db now key interaction)))
  /\ (forall proposal, pk_unique (fst (proposal_crud.create_proposal db now key proposal)))
  /\ (forall action, pk_unique (fst (action_crud.create_action db now key action)))
  /\ (forall u, pk_unique (fst (contact_crud.update_contact db db_now key u)))
  /\ (forall u, pk_unique (fst (interaction_crud.update_interaction db db_now key u)))
  /\ (forall u, pk_unique (fst (proposal_crud.update_proposal db db_now key u)))
  /\ (forall u, pk_unique (fst (action_crud.update_action db now db_now key u)))
  /\ pk_unique (fst (contact_crud.delete_contact db key))
  /\ pk_unique (fst (interaction_crud.delete_interaction db key))
  /\ pk_unique (fst (proposal_crud.delete_proposal db key))
  /\ pk_unique (fst (action_crud.delete_action db key)).
Proof.
  intros H. pose proof H as (Hc & Hi & Hp & Ha).
  repeat match goal with |- _ /\ _ => split end.
  - intros contact. unfold contact_crud.create_contact.
    match goal with |- pk_unique (fst (if ?c then _ else _)) => destruct c end;
      [exact H|].
    match goal with |- pk_unique (fst (if ?c then _ else _)) => destruct c eqn:E end;
      [exact H|].
    apply orb_false_iff in E. destruct E as [E _].
    unfold pk_unique. cbn [fst contacts interactions proposals actions with_contacts].
    repeat split; auto. now apply NoDup_ids_append.
  - intros interaction. unfold interaction_crud.create_interaction.
    match goal with |- pk_unique (fst (if ?c then _ else _)) => destruct c end;
      [exact H|].
    match goal with |- pk_unique (fst (if ?c then _ else _)) => destruct c eqn:E end;
      [exact H|].
    apply orb_false_iff in E. destruct E as [E _].
    unfold pk_unique. cbn [fst contacts interactions proposals actions with_interactions].
    repeat split; auto. now apply NoDup_ids_append.
  - intros proposal. unfold proposal_crud.create_proposal.
    match goal with |- pk_unique (fst (if ?c then _ else _)) => destruct c end;
      [exact H|].
    match goal with |- pk_unique (fst (if ?c then _ else _)) => destruct c eqn:E end;
      [exact H|].
    apply orb_false_iff in E. destruct E as [E _].
    unfold pk_unique. cbn [fst contacts interactions proposals actions with_proposals].
    repeat split; auto. now apply NoDup_ids_append.
  - intros action. unfold action_crud.create_action.
    match goal with |- pk_unique (fst (if ?c then _ else _)) => destruct c end;
      [exact H|].
    match goal with |- pk_unique (fst (if ?c then _ else _)) => destruct c eqn:E end;
      [exact H|].
    repeat (apply orb_false_iff in E; destruct E as [E _]).
    unfold pk_unique. cbn [fst contacts interactions proposals actions with_actions].
    repeat split; auto. now apply NoDup_ids_append.
  - intros u. destruct (update_contact_cases db db_now key u)
      as [[_ ->]|(old & _ & [[_ ->]|[[_ ->]|[(_ & _ & ->)|(edited & Hid & _ & _ & _ & ->)]]])];
      try exact H.
    unfold pk_unique. cbn [fst contacts interactions proposals actions with_contacts].
    repeat split; auto. now rewrite ids_after_update.
  - intros u. destruct (update_interaction_cases db db_now key u)
      as [[_ ->]|(old & _ & [->|[[_ ->]|(edited & Hid & _ & _ & ->)]])];
      try exact H.
    unfold pk_unique. cbn [fst contacts interactions proposals actions with_interactions].
    repeat split; auto. now rewrite ids_after_update.
  - intros u. destruct (update_proposal_cases db db_now key u)
      as [[_ ->]|(old & _ & [[_ ->]|[[_ ->]|[(_ & _ & ->)|(edited & Hid & _ & _ & _ & ->)]]])];
      try exact H.
    unfold pk_unique. cbn [fst contacts interactions proposals actions with_proposals].
    repeat split; auto. now rewrite ids_after_update.
  - intros u. destruct (update_action_cases db now db_now key u)
      as [[_ ->]|(old & _ & [[_ ->]|[[_ ->]|[(_ & _ & ->)
                           |(edited & Hid & _ & _ & _ & _ & _ & _ & ->)]]])];
      try exact H.
    unfold pk_unique. cbn [fst contacts interactions proposals actions with_actions].
    repeat split; auto. now rewrite ids_after_update.
  - unfold contact_crud.delete_contact.
    destruct (contact_crud.get_contact db key); [|exact H].
    now apply delete_contact_row_keeps_pk.
  - unfold interaction_crud.delete_interaction.
    destruct (interaction_crud.get_interaction db key); [|exact H].
    now apply delete_interaction_row_keeps_pk.
  - unfold proposal_crud.delete_proposal.
    destruct (proposal_crud.get_proposal db key); [|exact H].
    now apply delete_proposal_row_keeps_pk.
  - unfold action_crud.delete_action.
    destruct (action_crud.get_action db key); [|exact H].
    unfold pk_unique. cbn [fst contacts interactions proposals actions with_actions].
    repeat split; auto. now apply NoDup_ids_filter.
Qed.

Lemma sample_pk_unique : pk_unique sample.db.
Proof.
  unfold pk_unique. simpl.
  repeat split; repeat (constructor; [simpl; intuition discriminate|]); constructor.
Qed.

Lemma writes_keep_primary_keys_witness :
  pk_unique (fst (contact_crud.delete_contact sample.db 1))
  /\ pk_unique (fst (action_crud.create_action sample.db 70 1
                       (payloads.task 1 None ActionStatus.pending))).
Proof.
  destruct (@writes_keep_primary_keys sample.db 70 60 1 sample_pk_unique)
    as (_ & _ & _ & Hc & _ & _ & _ & _ & Hd & _).
  split; [exact Hd|apply Hc].
Defined.

Lemma In_update_where_id {A} (id : A -> Z) (key : Z) (stored x : A) (rows : list A) :
  In x (update_where_id id key stored rows) -> In x rows \/ x = stored.
Proof.
  unfold update_where_id. intros H. apply in_map_iff in H.
  destruct H as (r & E & Hr). destruct (id r =? key); subst; auto.
Qed.

Lemma delete_interaction_row_keeps_fk (db : Store) (i : Interaction.t) :
  fk_consistent db -> fk_consistent (delete_interaction_row db i).
Proof.
  intros (Hi & Hp & Ha). unfold delete_interaction_row, fk_consistent.
  cbn [contacts interactions proposals actions with_interactions with_actions].
  split; [|split].
  - intros x Hx. apply filter_In in Hx. now apply Hi.
  - exact Hp.
  - intros a Hin. apply filter_In in Hin. destruct Hin as [Hin Hf].
    destruct (Ha a Hin) as (H1 & H2 & H3). split; [exact H1|]. split; [exact H2|].
    apply references_after_delete; [|exact H3].
    intros E. apply negb_true_iff in Hf. apply fk_is_spec in E. congruence.
Qed.

Lemma delete_proposal_row_keeps_fk (db : Store) (p : Proposal.t) :
  fk_consistent db -> fk_consistent (delete_proposal_row db p).
Proof.
  intros (Hi & Hp & Ha). unfold delete_proposal_row, fk_consistent.
  cbn [contacts interactions proposals actions with_proposals with_actions].
  split; [|split].
  - exact Hi.
  - intros x Hx. apply filter_In in Hx. now apply Hp.
  - intros a Hin. apply filter_In in Hin. destruct Hin as [Hin Hf].
    destruct (Ha a Hin) as (H1 & H2 & H3). split; [exact H1|]. split; [|exact H3].
    apply references_after_delete; [|exact H2].
    intros E. apply negb_true_iff in Hf. apply fk_is_spec in E. congruence.
Qed.

Lemma delete_contact_row_keeps_fk (db : Store) (c : Contact.t) :
  fk_consistent db -> fk_consistent (delete_contact_row db c).
Proof.
  intros H. unfold delete_contact_row.
  set (key := Contact.id c).
  set (dead_i := filter (fun i => Interaction.contact_id i =? key) (interactions db)).
  destruct (fold_delete_interactions dead_i db) as (Hc1 & Hp1 & Hi1 & _).
  assert (F1 : fk_consistent (fold_left delete_interaction_row dead_i db)).
  { apply fold_invariant; [intros; now apply delete_interaction_row_keeps_fk|exact H]. }
  set (db1 := fold_left delete_interaction_row dead_i db) in *.
  set (dead_p := filter (fun p => Proposal.contact_id p =? key) (proposals db1)).
  destruct (fold_delete_proposals dead_p db1) as (Hc2 & Hi2 & Hp2 & _).
  assert (F2 : fk_consistent (fold_left delete_proposal_row dead_p db1)).
  { apply fold_invariant; [intros; now apply delete_proposal_row_keeps_fk|exact F1]. }
  set (db2 := fold_left delete_proposal_row dead_p db1) in *.
  destruct F2 as (Fi & Fp & Fa). unfold fk_consistent.
  cbn [contacts interactions proposals actions with_contacts with_actions].
  split; [|split].
  - intros x Hx. apply references_after_delete; [|now apply Fi].
    intros E. injection E as E.
    rewrite Hi2 in Hx. apply Hi1 in Hx. destruct Hx as [Hx Hne].
    apply (Hne x); [|reflexivity].
    apply filter_In. split; [exact Hx|now apply Z.eqb_eq].
  - intros x Hx. apply references_after_delete; [|now apply Fp].
    intros E. injection E as E.
    apply Hp2 in Hx. destruct Hx as [Hx Hne].
    apply (Hne x); [|reflexivity].
    apply filter_In. split; [exact Hx|now apply Z.eqb_eq].
  - intros a Hin. apply filter_In in Hin. destruct Hin as [Hin Hf].
    destruct (Fa a Hin) as (H1 & H2 & H3). split; [|split; assumption].
    apply references_after_delete; [|exact H1].
    intros E. injection E as E. apply negb_true_iff, Z.eqb_neq in Hf. contradiction.
Qed.

(** X19. Foreign keys.  A store in which every [contact_id],
    [proposal_id] and [interaction_id] names an existing row stays so under
    every write of the data-access layer: a create or an update that would
    leave a dangling reference is refused, and a delete takes the rows that
    refer to the deleted one with it. *)
Theorem writes_keep_foreign_keys (db : Store) (now db_now key : Z) :
  fk_consistent db ->
  (forall contact, fk_consistent (fst (contact_crud.create_contact db now key contact)))
  /\ (forall interaction,
        fk_consistent (fst (interaction_crud.create_interaction db now key interaction)))
  /\ (forall proposal,
        fk_consistent (fst (proposal_crud.create_proposal db now key proposal)))
  /\ (forall action, fk_consistent (fst (action_crud.create_action db now key action)))
  /\ (forall u, fk_consistent (fst (contact_crud.update_contact db db_now key u)))
  /\ (forall u, fk_consistent (fst (interaction_crud.update_interaction db db_now key u)))
  /\ (forall u, fk_consistent (fst (proposal_crud.update_proposal db db_now key u)))
  /\ (forall u, fk_consistent (fst (action_crud.update_action db now db_now key u)))
  /\ fk_consistent (fst (contact_crud.delete_contact db key))
  /\ fk_consistent (fst (interaction_crud.delete_interaction db key))
  /\ fk_consistent (fst (proposal_crud.delete_proposal db key))
  /\ fk_consistent (fst (action_crud.delete_action db key)).
Proof.
  intros H. pose proof H as (Hi & Hp & Ha).
  repeat match goal with |- _ /\ _ => split end.
  - intros contact. unfold contact_crud.create_contact.
    match goal with |- fk_consistent (fst (if ?c then _ else _)) => destruct c end;
      [exact H|].
    match goal with |- fk_consistent (fst (if ?c then _ else _)) => destruct c end;
      [exact H|].
    unfold fk_consistent. cbn [fst contacts interactions proposals actions with_contacts].
    split; [|split].
    + intros x Hx. now apply references_after_append, Hi.
    + intros x Hx. now apply references_after_append, Hp.
    + intros a Hin. destruct (Ha a Hin) as (H1 & H2 & H3).
      split; [now apply references_after_append|now split].
  - intros interaction. unfold interaction_crud.create_interaction.
    match goal with |- fk_consistent (fst (if ?c then _ else _)) => destruct c end;
      [exact H|].
    match goal with |- fk_consistent (fst (if ?c then _ else _)) => destruct c eqn:E end;
      [exact H|].
    apply orb_false_iff in E. destruct E as [_ E]. apply negb_false_iff in E.
    unfold fk_consistent.
    cbn [fst contacts interactions proposals actions with_interactions].
    split; [|split].
    + intros x Hx. apply in_app_or in Hx. destruct Hx as [Hx|[<-|[]]]; auto.
    + exact Hp.
    + intros a Hin. destruct (Ha a Hin) as (H1 & H2 & H3).
      split; [exact H1|]. split; [exact H2|now apply references_after_append].
  - intros proposal. unfold proposal_crud.create_proposal.
    match goal with |- fk_consistent (fst (if ?c then _ else _)) => destruct c end;
      [exact H|].
    match goal with |- fk_consistent (fst (if ?c then _ else _)) => destruct c eqn:E end;
      [exact H|].
    apply orb_false_iff in E. destruct E as [_ E]. apply negb_false_iff in E.
    unfold fk_consistent.
    cbn [fst contacts interactions proposals actions with_proposals].
    split; [|split].
    + exact Hi.
    + intros x Hx. apply in_app_or in Hx. destruct Hx as [Hx|[<-|[]]]; auto.
    + intros a Hin. destruct (Ha a Hin) as (H1 & H2 & H3).
      split; [exact H1|]. split; [now apply references_after_append|exact H3].
  - intros action. unfold action_crud.create_action.
    match goal with |- fk_consistent (fst (if ?c then _ else _)) => destruct c end;
      [exact H|].
    match goal with |- fk_consistent (fst (if ?c then _ else _)) => destruct c eqn:E end;
      [exact H|].
    apply orb_false_iff in E. destruct E as [E E3]. apply negb_false_iff in E3.
    apply orb_false_iff in E. destruct E as [E E2]. apply negb_false_iff in E2.
    apply orb_false_iff in E. destruct E as [_ E1]. apply negb_false_iff in E1.
    unfold fk_consistent.
    cbn [fst contacts interactions proposals actions with_actions].
    split; [exact Hi|]. split; [exact Hp|].
    intros a Hin. apply in_app_or in Hin. destruct Hin as [Hin|[<-|[]]]; auto.
  - intros u. destruct (update_contact_cases db db_now key u)
      as [[_ ->]|(old & _ & [[_ ->]|[[_ ->]|[(_ & _ & ->)|(edited & Hid & _ & _ & _ & ->)]]])];
      try exact H.
    unfold fk_consistent. cbn [fst contacts interactions proposals actions with_contacts].
    split; [|split].
    + intros x Hx. apply references_after_update; [exact Hid|now apply Hi].
    + intros x Hx. apply references_after_update; [exact Hid|now apply Hp].
    + intros a Hin. destruct (Ha a Hin) as (H1 & H2 & H3).
      split; [now apply references_after_update|now split].
  - intros u.
    destruct (update_interaction_cases db db_now key u)
      as [[_ E]|(old & Hget & [E|[[_ E]|(edited & Hid & _ & _ & E)]])];
      rewrite E; try exact H.
    destruct (@update_interaction_frame db db_now key u old Hget) as (new & Hn & Hf & _).
    rewrite E in Hn. cbn [fst] in Hn. unfold interaction_crud.get_interaction in Hn.
    cbn [interactions with_interactions] in Hn.
    assert (Hst : Interaction.id (interaction_crud.set_updated_at edited db_now) = key)
      by exact Hid.
    rewrite (@first_filter_updated _ Interaction.id key _ old _ Hget Hst) in Hn.
    injection Hn as <-. destruct Hf as (_ & Hcid & _).
    unfold fk_consistent.
    cbn [fst contacts interactions proposals actions with_interactions].
    split; [|split].
    + intros x Hx. apply In_update_where_id in Hx. destruct Hx as [Hx| ->]; auto.
      rewrite Hcid. apply Hi. now apply (first_filter_some _ _ Hget).
    + exact Hp.
    + intros a Hin. destruct (Ha a Hin) as (H1 & H2 & H3).
      split; [exact H1|]. split; [exact H2|].
      now apply references_after_update.
  - intros u.
    destruct (update_proposal_cases db db_now key u)
      as [[_ E]|(old & Hget & [[_ E]|[[_ E]|[(_ & _ & E)|(edited & Hid & _ & _ & _ & E)]]])];
      rewrite E; try exact H.
    destruct (@update_proposal_frame db db_now key u old Hget) as (new & Hn & Hf & _).
    rewrite E in Hn. cbn [fst] in Hn. unfold proposal_crud.get_proposal in Hn.
    cbn [proposals with_proposals] in Hn.
    assert (Hst : Proposal.id (proposal_crud.set_updated_at edited db_now) = key)
      by exact Hid.
    rewrite (@first_filter_updated _ Proposal.id key _ old _ Hget Hst) in Hn.
    injection Hn as <-. destruct Hf as (_ & Hcid & _).
    unfold fk_consistent.
    cbn [fst contacts interactions proposals actions with_proposals].
    split; [|split].
    + exact Hi.
    + intros x Hx. apply In_update_where_id in Hx. destruct Hx as [Hx| ->]; auto.
      rewrite Hcid. apply Hp. now apply (first_filter_some _ _ Hget).
    + intros a Hin. destruct (Ha a Hin) as (H1 & H2 & H3).
      split; [exact H1|]. split; [|exact H3].
      now apply references_after_update.
  - intros u.
    destruct (update_action_cases db now db_now key u)
      as [[_ E]|(old & Hget & [[_ E]|[[_ E]|[(_ & _ & E)
                           |(edited & Hid & _ & _ & _ & Hrp & Hri & Hcid & E)]]])];
      rewrite E; try exact H.
    unfold fk_consistent.
    cbn [fst contacts interactions proposals actions with_actions].
    split; [exact Hi|]. split; [exact Hp|].
    intros a Hin. apply In_update_where_id in Hin. destruct Hin as [Hin| ->]; auto.
    cbn [Action.contact_id Action.proposal_id Action.interaction_id
      action_crud.set_updated_at].
    split; [|now split]. rewrite Hcid.
    apply Ha. now apply (first_filter_some _ _ Hget).
  - unfold contact_crud.delete_contact.
    destruct (contact_crud.get_contact db key); [|exact H].
    now apply delete_contact_row_keeps_fk.
  - unfold interaction_crud.delete_interaction.
    destruct (interaction_crud.get_interaction db key); [|exact H].
    now apply delete_interaction_row_keeps_fk.
  - unfold proposal_crud.delete_proposal.
    destruct (proposal_crud.get_proposal db key); [|exact H].
    now apply delete_proposal_row_keeps_fk.
  - unfold action_crud.delete_action.
    destruct (action_crud.get_action db key); [|exact H].
    unfold fk_consistent. cbn [fst contacts interactions proposals actions with_actions].
    split; [exact Hi|]. split; [exact Hp|].
    intros a Hin. apply filter_In in Hin. now apply Ha.
Qed.

Lemma sample_fk_consistent : fk_consistent sample.db.
Proof.
  unfold fk_consistent. simpl.
  repeat split; intros;
    repeat match goal with
           | H : _ \/ _ |- _ => destruct H as [<-|H]
           | H : False |- _ => destruct H
           end; reflexivity.
Qed.

Lemma writes_keep_foreign_keys_witness :
  fk_consistent (fst (contact_crud.delete_contact sample.db 1))
  /\ fk_consistent (fst (action_crud.update_action sample.db 50 60 2 sample.complete)).
Proof.
  destruct (@writes_keep_foreign_keys sample.db 50 60 1 sample_fk_consistent)
    as (_ & _ & _ & _ & _ & _ & _ & _ & Hd & _).
  destruct (@writes_keep_foreign_keys sample.db 50 60 2 sample_fk_consistent)
    as (_ & _ & _ & _ & _ & _ & _ & Hu & _).
  split; [exact Hd|apply Hu].
Defined.

(** X20. The unique index on emails.  A store in which no two contacts
    share an email stays so under every write that touches contacts: create
    and update, in the data-access layer and through the routes, and
    delete. *)
Theorem writes_keep_unique_emails (db : Store) (now key : Z) :
  emails_unique db ->
  (forall contact, emails_unique (fst (contact_crud.create_contact db now key contact)))
  /\ (forall u, emails_unique (fst (contact_crud.update_contact db now key u)))
  /\ (forall contact, emails_unique (fst (contacts_api.create_contact db now key contact)))
  /\ (forall u, emails_unique (fst (contacts_api.update_contact db now key u)))
  /\ emails_unique (fst (contact_crud.delete_contact db key)).
Proof.
  intros H. split; [|split; [|split; [|split]]].
  - intros contact. now apply create_contact_keeps_emails_unique.
  - intros u. now apply update_contact_keeps_emails_unique.
  - intros contact. unfold contacts_api.create_contact.
    destruct (truthy_str _) as [e|];
      [destruct (contact_crud.get_contact_by_email db e); [exact H|]|];
      now apply create_contact_keeps_emails_unique.
  - intros u. unfold contacts_api.update_contact.
    match goal with |- context [if ?c then _ else _] => destruct c end; [exact H|].
    pose proof (@update_contact_keeps_emails_unique db now key u H) as Hu.
    destruct (contact_crud.update_contact db now key u) as [db' [[r|]|e]]; exact Hu.
  - unfold contact_crud.delete_contact.
    destruct (contact_crud.get_contact db key) as [c|]; [|exact H].
    cbn [fst]. unfold delete_contact_row.
    intros c1 c2 e H1 H2 E1 E2.
    cbn [contacts with_contacts with_actions] in H1, H2.
    apply filter_In in H1. apply filter_In in H2.
    destruct H1 as [H1 _]. destruct H2 as [H2 _].
    match type of H1 with In _ (contacts (fold_left delete_proposal_row ?lp
                                           (fold_left delete_interaction_row ?li db))) =>
      destruct (fold_delete_interactions li db) as (Hc1 & _);
      destruct (fold_delete_proposals lp (fold_left delete_interaction_row li db))
        as (Hc2 & _)
    end.
    rewrite Hc2, Hc1 in H1, H2. exact (H c1 c2 e H1 H2 E1 E2).
Qed.

Lemma writes_keep_unique_emails_witness :
  emails_unique
    (fst (contacts_api.create_contact sample.db 70 3
            (sample.new_contact (Some "y@example.com"))))
  /\ emails_unique (fst (contact_crud.update_contact sample.db 70 2
                           (only_email "z@example.com"))).
Proof.
  destruct (@writes_keep_unique_emails sample.db 70 3 sample_emails_unique)
    as (_ & _ & Hc & _).
  destruct (@writes_keep_unique_emails sample.db 70 2 sample_emails_unique)
    as (_ & Hu & _).
  split; [apply Hc|apply Hu].
Defined.

(** ** Grouped counts, in general *)

Section Counting.
Context {R K : Type} (eqb : K -> K -> bool).
Hypothesis eqb_eq : forall a b, eqb a b = true <-> a = b.
Context (key : R -> K) (labels : list K).
Hypothesis labels_distinct : NoDup labels.
Hypothesis labels_all : forall k, In k labels.

Lemma sum_map_add {A} (f h : A -> Z) (l : list A) :
  sum (map (fun x => f x + h x) l) = sum (map f l) + sum (map h l).
Proof.
  induction l as [|x l IH]; [reflexivity|].
  cbn [map]. rewrite !sum_cons, IH. lia.
Qed.

Lemma sum_zeros {A} (l : list A) : sum (map (fun _ => 0) l) = 0.
Proof.
  induction l as [|x l IH]; [reflexivity|]. cbn [map]. now rewrite sum_cons, IH.
Qed.

Lemma sum_indicator (k : K) (l : list K) :
  NoDup l ->
  sum (map (fun g => if eqb k g then 1 else 0) l) = if existsb (fun g => eqb k g) l then 1 else 0.
Proof.
  induction 1 as [|g l Hn Hd IH]; [reflexivity|].
  cbn [map existsb]. rewrite sum_cons, IH.
  destruct (eqb k g) eqn:E; simpl.
  - apply eqb_eq in E. subst.
    destruct (existsb (fun g0 => eqb g g0) l) eqn:Ei; [|reflexivity].
    apply existsb_exists in Ei. destruct Ei as (x & Hx & Ex).
    apply eqb_eq in Ex. subst. contradiction.
  - reflexivity.
Qed.

Lemma labels_have (k : K) : existsb (fun g => eqb k g) labels = true.
Proof.
  apply existsb_exists. exists k. split; [apply labels_all|now apply eqb_eq].
Qed.

Lemma count_partition (rows : list R) :
  sum (map (fun g => count (group_rows eqb key rows g)) labels) = count rows.
Proof.
  induction rows as [|r rows IH].
  - unfold group_rows, count. cbn [filter length Z.of_nat]. apply sum_zeros.
  - transitivity (sum (map (fun g => (if eqb (key r) g then 1 else 0)
                                     + count (group_rows eqb key rows g)) labels)).
    + f_equal. apply map_ext. intros g. unfold group_rows, count. cbn [filter].
      destruct (eqb (key r) g); cbn [length]; lia.
    + rewrite sum_map_add, IH, (sum_indicator _ labels_distinct), labels_have.
      unfold count. cbn [length]. lia.
Qed.

Lemma grouped_counts_intro (col : string) (scan : scan_order) (rows : list R) :
  exists d,
    (results <- select_group_by col col key key labels eqb (@count R) scan rows ;;
     Returned (dict_comprehension eqb (fun c => c) results)) = Returned d
    /\ grouped_counts eqb key rows d.
Proof.
  eexists. split; [now apply grouped_dict|].
  unfold grouped_counts.
  set (items := map (fun g => (g, count (group_rows eqb key rows g)))
                    (occurring eqb key rows labels)).
  assert (Hkeys : map fst items = occurring eqb key rows labels).
  { unfold items. rewrite map_map. cbn [fst]. apply map_id. }
  assert (Hperm : Permutation (map fst (read scan items))
                              (occurring eqb key rows labels)).
  { rewrite <- Hkeys. apply Permutation_map, read_perm. }
  split; [|split; [|split]].
  - apply (Permutation_NoDup (Permutation_sym Hperm)). now apply NoDup_filter.
  - intros g. transitivity (In g (occurring eqb key rows labels)).
    { split; apply Permutation_in; [exact Hperm|exact (Permutation_sym Hperm)]. }
    unfold occurring. rewrite filter_In. split.
    + intros [_ H]. destruct (group_rows eqb key rows g) as [|r rest] eqn:E;
        [discriminate|].
      assert (Hr : In r (group_rows eqb key rows g)) by (rewrite E; now left).
      apply filter_In in Hr. destruct Hr as [Hr Hk]. apply eqb_eq in Hk. eauto.
    + intros (r & Hr & Hk). split; [apply labels_all|].
      assert (Hin : In r (group_rows eqb key rows g)).
      { apply filter_In. split; [exact Hr|now apply eqb_eq]. }
      destruct (group_rows eqb key rows g); [contradiction|reflexivity].
  - intros g. unfold items.
    rewrite (@dict_get_grouped _ _ _ _ eqb eqb_eq key (@count R) (fun c => c) rows 0
               labels scan g labels_distinct (labels_all g)).
    fold (group_rows eqb key rows g).
    destruct (group_rows eqb key rows g); reflexivity.
  - unfold values. rewrite <- read_map, sum_read. unfold items.
    rewrite map_map. cbn [snd]. unfold occurring.
    rewrite sum_occurring.
    + apply count_partition.
    + intros g Hg. destruct (group_rows eqb key rows g); [reflexivity|discriminate].
Qed.
End Counting.

Lemma ContactStatus_members_all (s : ContactStatus.t) : In s ContactStatus.members.
Proof. destruct s; simpl; tauto. Qed.

Lemma ContactStatus_members_distinct : NoDup ContactStatus.members.
Proof.
  unfold ContactStatus.members.
  repeat (constructor; [simpl; intuition discriminate|]). constructor.
Qed.

Lemma InteractionType_members_all (s : InteractionType.t) : In s InteractionType.members.
Proof. destruct s; simpl; tauto. Qed.

Lemma InteractionType_members_distinct : NoDup InteractionType.members.
Proof.
  unfold InteractionType.members.
  repeat (constructor; [simpl; intuition discriminate|]). constructor.
Qed.

Lemma ActionStatus_members_all (s : ActionStatus.t) : In s ActionStatus.members.
Proof. destruct s; simpl; tauto. Qed.

Lemma ActionStatus_members_distinct : NoDup ActionStatus.members.
Proof.
  unfold ActionStatus.members.
  repeat (constructor; [simpl; intuition discriminate|]). constructor.
Qed.

Lemma ActionPriority_members_all (s : ActionPriority.t) : In s ActionPriority.members.
Proof. destruct s; simpl; tauto. Qed.

Lemma ActionPriority_members_distinct : NoDup ActionPriority.members.
Proof.
  unfold ActionPriority.members.
  repeat (constructor; [simpl; intuition discriminate|]). constructor.
Qed.

Lemma action_counts_spec (db : Store) (scan scan' : scan_order) (contact_id : option Z) :
  (exists d,
      action_crud.count_actions_by_status db scan contact_id = Returned d
      /\ grouped_counts ActionStatus.eqb Action.status
           (in_scope Action.contact_id contact_id (actions db)) d)
  /\ (exists d,
         action_crud.count_actions_by_priority db scan' contact_id = Returned d
         /\ grouped_counts ActionPriority.eqb Action.priority
              (in_scope Action.contact_id contact_id
                 (filter (fun a => ActionStatus.eqb (Action.status a) ActionStatus.pending)
                         (actions db))) d).
Proof.
  split.
  - exact (@grouped_counts_intro _ _ ActionStatus.eqb ActionStatus_eqb_eq Action.status ActionStatus.members
             ActionStatus_members_distinct ActionStatus_members_all "status" scan
             (in_scope Action.contact_id contact_id (actions db))).
  - exact (@grouped_counts_intro _ _ ActionPriority.eqb ActionPriority_eqb_eq Action.priority ActionPriority.members
             ActionPriority_members_distinct ActionPriority_members_all "priority" scan'
             (in_scope Action.contact_id contact_id
                (filter (fun a => ActionStatus.eqb (Action.status a) ActionStatus.pending)
                        (actions db)))).
Qed.

(** X21. The grouped counts are sparse and exact.  Each of
    [count_contacts_by_status], [count_interactions_by_type],
    [count_proposals_by_status], [count_actions_by_status] and
    [count_actions_by_priority] returns a dict whose keys are exactly the
    values that occur among the rows in scope -- a value without rows is
    absent, not mapped to 0 --, each mapped to the number of rows that have
    it, the counts adding up to the number of rows in scope.  The priority
    count looks at pending actions only. *)
Theorem grouped_counts_are_sparse_and_exact (db : Store) (scan : scan_order)
    (contact_id : option Z) :
  (exists d,
      contact_crud.count_contacts_by_status db scan = Returned d
      /\ grouped_counts ContactStatus.eqb Contact.status (contacts db) d)
  /\ (exists d,
         interaction_crud.count_interactions_by_type db scan contact_id = Returned d
         /\ grouped_counts InteractionType.eqb Interaction.type
              (in_scope Interaction.contact_id contact_id (interactions db)) d)
  /\ (exists d,
         proposal_crud.count_proposals_by_status db scan contact_id = Returned d
         /\ grouped_counts ProposalStatus.eqb Proposal.status
              (in_scope Proposal.contact_id contact_id (proposals db)) d)
  /\ (exists d,
         action_crud.count_actions_by_status db scan contact_id = Returned d
         /\ grouped_counts ActionStatus.eqb Action.status
              (in_scope Action.contact_id contact_id (actions db)) d)
  /\ (exists d,
         action_crud.count_actions_by_priority db scan contact_id = Returned d
         /\ grouped_counts ActionPriority.eqb Action.priority
              (in_scope Action.contact_id contact_id
                 (filter (fun a => ActionStatus.eqb (Action.status a) ActionStatus.pending)
                         (actions db))) d).
Proof.
  split; [|split; [|split; [|split]]].
  - exact (@grouped_counts_intro _ _ ContactStatus.eqb ContactStatus_eqb_eq Contact.status ContactStatus.members
             ContactStatus_members_distinct ContactStatus_members_all "status" scan
             (contacts db)).
  - exact (@grouped_counts_intro _ _ InteractionType.eqb InteractionType_eqb_eq Interaction.type InteractionType.members
             InteractionType_members_distinct InteractionType_members_all "type" scan
             (in_scope Interaction.contact_id contact_id (interactions db))).
  - exact (@grouped_counts_intro _ _ ProposalStatus.eqb ProposalStatus_eqb_eq Proposal.status ProposalStatus.members
             ProposalStatus_members_distinct ProposalStatus_members_all "status" scan
             (in_scope Proposal.contact_id contact_id (proposals db))).
  - exact (@grouped_counts_intro _ _ ActionStatus.eqb ActionStatus_eqb_eq Action.status ActionStatus.members
             ActionStatus_members_distinct ActionStatus_members_all "status" scan
             (in_scope Action.contact_id contact_id (actions db))).
  - exact (@grouped_counts_intro _ _ ActionPriority.eqb ActionPriority_eqb_eq Action.priority ActionPriority.members
             ActionPriority_members_distinct ActionPriority_members_all "priority" scan
             (in_scope Action.contact_id contact_id
                (filter (fun a => ActionStatus.eqb (Action.status a) ActionStatus.pending)
                        (actions db)))).
Qed.

Lemma filter_filter_length {A} (p q : A -> bool) (l : list A) :
  length (filter p (filter q l)) = length (filter q (filter p l)).
Proof.
  induction l as [|x l IH]; [reflexivity|].
  simpl. destruct (q x) eqn:Eq, (p x) eqn:Ep; simpl; rewrite ?Eq, ?Ep; simpl; lia.
Qed.

(** X22. The priority breakdown adds up to the pending count: for one and
    the same scope, the counts that [count_actions_by_priority] returns sum
    to the number that [count_actions_by_status] reports for pending
    (0 when it has no pending key). *)
Theorem priority_counts_sum_to_pending (db : Store)
    (scan_status scan_priority : scan_order) (contact_id : option Z)
    (by_status : dict ActionStatus.t Z) (by_priority : dict ActionPriority.t Z) :
  action_crud.count_actions_by_status db scan_status contact_id = Returned by_status ->
  action_crud.count_actions_by_priority db scan_priority contact_id
  = Returned by_priority ->
  sum (values by_priority) = dict_get ActionStatus.eqb by_status ActionStatus.pending 0.
Proof.
  intros Hs Hp.
  destruct (action_counts_spec db scan_status scan_priority contact_id)
    as ((d1 & E1 & _ & _ & Hget & _) & (d2 & E2 & _ & _ & _ & Hsum)).
  rewrite Hs in E1. injection E1 as <-. rewrite Hp in E2. injection E2 as <-.
  rewrite Hsum, Hget. unfold in_scope, count.
  destruct (truthy_int contact_id); [|reflexivity].
  now rewrite filter_filter_length.
Qed.

Lemma priority_counts_sum_to_pending_witness :
  sum (values [(ActionPriority.high, 1); (ActionPriority.urgent, 1)])
  = dict_get ActionStatus.eqb
      [(ActionStatus.pending, 2); (ActionStatus.completed, 1)] ActionStatus.pending 0.
Proof.
  apply (@priority_counts_sum_to_pending sample.db [] [] None); reflexivity.
Defined.

Lemma interaction_counts_spec (db : Store) (scan : scan_order) (contact_id : option Z) :
  exists d,
    interaction_crud.count_interactions_by_type db scan contact_id = Returned d
    /\ grouped_counts InteractionType.eqb Interaction.type
         (in_scope Interaction.contact_id contact_id (interactions db)) d.
Proof.
  exact (@grouped_counts_intro _ _ InteractionType.eqb InteractionType_eqb_eq
           Interaction.type InteractionType.members InteractionType_members_distinct
           InteractionType_members_all "type" scan
           (in_scope Interaction.contact_id contact_id (interactions db))).
Qed.

Lemma contact_counts_spec (db : Store) (scan : scan_order) :
  exists d,
    contact_crud.count_contacts_by_status db scan = Returned d
    /\ grouped_counts ContactStatus.eqb Contact.status (contacts db) d.
Proof.
  exact (@grouped_counts_intro _ _ ContactStatus.eqb ContactStatus_eqb_eq
           Contact.status ContactStatus.members ContactStatus_members_distinct
           ContactStatus_members_all "status" scan (contacts db)).
Qed.

(** X23. The statistics routes.  The contact statistics report the number
    of contacts as total, beside the sparse count by status.  The
    interaction and proposal statistics answer 404 when a [contact_id]
    other than 0 names no contact; a [contact_id] of 0 gives the same
    answer as no [contact_id]; and for an existing contact, or none, the
    interaction statistics report the number of interactions in scope as
    total, beside the sparse count by type. *)
Theorem statistics_routes
    (float : Type) (float_of_decimal : Z -> float) (zero : float)
    (number : Type) (sum_floats : list float -> number)
    (db : Store) (scan scan_counts scan_totals : scan_order) (contact_id : option Z) :
  (exists stats,
      contacts_api.get_contact_stats db scan = Returned stats
      /\ contacts_api.total stats = count (contacts db)
      /\ grouped_counts ContactStatus.eqb Contact.status (contacts db)
           (contacts_api.by_status stats))
  /\ (forall c, contact_id = Some c -> c <> 0 -> contact_crud.get_contact db c = None ->
        interactions_api.get_interaction_stats db scan contact_id
        = Raised (HTTPException 404)
        /\ proposals_api.get_proposal_stats float_of_decimal zero sum_floats db
             scan_counts scan_totals contact_id
           = Raised (HTTPException 404))
  /\ interactions_api.get_interaction_stats db scan (Some 0)
     = interactions_api.get_interaction_stats db scan None
  /\ proposals_api.get_proposal_stats float_of_decimal zero sum_floats db
       scan_counts scan_totals (Some 0)
     = proposals_api.get_proposal_stats float_of_decimal zero sum_floats db
         scan_counts scan_totals None
  /\ ((forall c, contact_id = Some c -> c <> 0 -> contact_crud.get_contact db c <> None) ->
      exists stats,
        interactions_api.get_interaction_stats db scan contact_id = Returned stats
        /\ interactions_api.total stats
           = count (in_scope Interaction.contact_id contact_id (interactions db))
        /\ grouped_counts InteractionType.eqb Interaction.type
             (in_scope Interaction.contact_id contact_id (interactions db))
             (interactions_api.by_type stats)).
Proof.
  split; [|split; [|split; [|split]]].
  - unfold contacts_api.get_contact_stats.
    destruct (contact_counts_spec db scan) as (d & -> & Hd). cbn [bind].
    eexists. split; [reflexivity|]. cbn [contacts_api.total contacts_api.by_status].
    split; [apply Hd|exact Hd].
  - intros c -> Hc Hget.
    unfold interactions_api.get_interaction_stats, proposals_api.get_proposal_stats,
      truthy_int.
    apply Z.eqb_neq in Hc. rewrite Hc, Hget. split; reflexivity.
  - reflexivity.
  - reflexivity.
  - intros Hex. unfold interactions_api.get_interaction_stats.
    assert (Hguard : match truthy_int contact_id with
                     | Some c => match contact_crud.get_contact db c with
                                 | None => Raised (HTTPException 404)
                                 | Some _ => Returned tt
                                 end
                     | None => Returned tt
                     end = Returned tt).
    { destruct (truthy_int contact_id) as [c|] eqn:Et; [|reflexivity].
      apply truthy_int_some in Et. destruct Et as [Ec Hc].
      specialize (Hex c Ec Hc).
      destruct (contact_crud.get_contact db c); [reflexivity|congruence]. }
    rewrite Hguard. cbn [bind].
    destruct (interaction_counts_spec db scan contact_id) as (d & -> & Hd). cbn [bind].
    eexists. split; [reflexivity|].
    cbn [interactions_api.total interactions_api.by_type].
    split; [apply Hd|exact Hd].
Qed.

Lemma statistics_routes_witness :
  interactions_api.get_interaction_stats sample.db [] (Some 9) = Raised (HTTPException 404)
  /\ exists stats,
       interactions_api.get_interaction_stats sample.db [] (Some 1) = Returned stats
       /\ interactions_api.total stats = 2.
Proof.
  split.
  - destruct (@statistics_routes Z (fun v => v) 0 Z sum sample.db [] [] [] (Some 9))
      as (_ & H & _).
    apply (H 9); [reflexivity|discriminate|reflexivity].
  - destruct (@statistics_routes Z (fun v => v) 0 Z sum sample.db [] [] [] (Some 1))
      as (_ & _ & _ & _ & H).
    destruct H as (stats & Hs & Ht & _).
    { intros c E _. injection E as <-. discriminate. }
    exists stats. split; [exact Hs|]. rewrite Ht. reflexivity.
Defined.

(** X24. The raw sum of proposal values by status has the same keys as
    the count by status -- the statuses that occur in scope, each once, and
    only those; the two dicts may list them in different orders -- and
    maps each to the float of the exact sum of the values of its
    proposals: a status whose proposals all lack a value is present, with
    0.0. *)
Theorem total_value_by_status_has_the_keys_of_the_counts
    (float : Type) (float_of_decimal : Z -> float) (zero : float)
    (db : Store) (scan_counts scan_totals : scan_order) (contact_id : option Z) :
  let rows := in_scope Proposal.contact_id contact_id (proposals db) in
  exists counts totals,
    proposal_crud.count_proposals_by_status db scan_counts contact_id = Returned counts
    /\ proposal_crud.get_total_value_by_status float_of_decimal zero db scan_totals
         contact_id
       = Returned totals
    /\ NoDup (map fst totals)
    /\ NoDup (map fst counts)
    /\ (forall s, In s (map fst totals) <-> In s (map fst counts))
    /\ (forall s, In s (map fst totals) <-> exists p, In p rows /\ Proposal.status p = s)
    /\ (forall s, In s (map fst totals) ->
          dict_get ProposalStatus.eqb totals s zero
          = if sum (non_null_values (with_status s rows)) =? 0 then zero
            else float_of_decimal (sum (non_null_values (with_status s rows)))).
Proof.
  intros rows.
  destruct (@grouped_counts_intro _ _ ProposalStatus.eqb ProposalStatus_eqb_eq
              Proposal.status ProposalStatus.members ProposalStatus_members_distinct
              ProposalStatus_members_all "status" scan_counts rows)
    as (counts & Hc & Hg).
  pose proof (@grouped_dict _ _ _ _ ProposalStatus.eqb ProposalStatus_eqb_eq
                Proposal.status (sql_sum Proposal.value)
                (proposal_crud.float_or_zero float_of_decimal zero) rows "status"
                ProposalStatus.members scan_totals ProposalStatus_members_distinct)
    as Ht.
  exists counts. eexists. split; [exact Hc|]. split; [exact Ht|].
  destruct Hg as (Hnd & Hkeys & _).
  set (items := map (fun g => (g, proposal_crud.float_or_zero float_of_decimal
                                    zero (sql_sum Proposal.value
                                            (group_rows ProposalStatus.eqb
                                               Proposal.status rows g))))
                    (occurring ProposalStatus.eqb Proposal.status rows
                               ProposalStatus.members)).
  assert (Hperm : Permutation (map fst (read scan_totals items))
                              (occurring ProposalStatus.eqb Proposal.status rows
                                         ProposalStatus.members)).
  { transitivity (map fst items); [apply Permutation_map, read_perm|].
    unfold items. rewrite map_map. cbn [fst]. now rewrite map_id. }
  assert (Hocc : forall s,
             In s (map fst (read scan_totals items))
             <-> exists p, In p rows /\ Proposal.status p = s).
  { intros s. transitivity (In s (occurring ProposalStatus.eqb Proposal.status rows
                                            ProposalStatus.members)).
    { split; apply Permutation_in; [exact Hperm|exact (Permutation_sym Hperm)]. }
    unfold occurring. rewrite filter_In. split.
    - intros [_ H].
      destruct (group_rows ProposalStatus.eqb Proposal.status rows s) as [|r rest] eqn:E;
        [discriminate|].
      assert (Hr : In r (group_rows ProposalStatus.eqb Proposal.status rows s))
        by (rewrite E; now left).
      apply filter_In in Hr. destruct Hr as [Hr Hk].
      apply ProposalStatus_eqb_eq in Hk. eauto.
    - intros (r & Hr & Hk). split; [apply ProposalStatus_members_all|].
      assert (Hin : In r (group_rows ProposalStatus.eqb Proposal.status rows s)).
      { apply filter_In. split; [exact Hr|now apply ProposalStatus_eqb_eq]. }
      destruct (group_rows ProposalStatus.eqb Proposal.status rows s);
        [contradiction|reflexivity]. }
  split; [|split; [exact Hnd|split; [|split]]].
  - apply (Permutation_NoDup (Permutation_sym Hperm)).
    apply NoDup_filter, ProposalStatus_members_distinct.
  - intros s. rewrite Hocc. symmetry. apply Hkeys.
  - exact Hocc.
  - intros s Hs. unfold items.
    rewrite (@dict_get_grouped _ _ _ _ ProposalStatus.eqb ProposalStatus_eqb_eq
               Proposal.status (sql_sum Proposal.value)
               (proposal_crud.float_or_zero float_of_decimal zero) rows zero
               ProposalStatus.members scan_totals s ProposalStatus_members_distinct
               (ProposalStatus_members_all s)).
    unfold with_status. rewrite <- float_or_zero_sql_sum.
    destruct (group_rows ProposalStatus.eqb Proposal.status rows s); reflexivity.
Qed.

(** ** Exactly what a cascade removes *)

Lemma fold_delete_interactions_actions (l : list Interaction.t) (db : Store) (a : Action.t) :
  In a (actions (fold_left delete_interaction_row l db))
  <-> In a (actions db)
      /\ forall i, In i l -> Action.interaction_id a <> Some (Interaction.id i).
Proof.
  revert db. induction l as [|i l IH]; intros db; simpl.
  - split; [|tauto]. intros H. split; [exact H|]. intros i [].
  - rewrite IH. cbn [actions delete_interaction_row with_interactions with_actions].
    rewrite filter_In, negb_true_iff. split.
    + intros ((H & Hf) & Hl). split; [exact H|].
      intros j [<-|Hj]; [|now apply Hl].
      intros E. apply fk_is_spec in E. congruence.
    + intros (H & Hl). split; [split; [exact H|]|].
      * destruct (fk_is (Interaction.id i) (Action.interaction_id a)) eqn:E;
          [|reflexivity].
        apply fk_is_spec in E. now elim (Hl i (or_introl eq_refl)).
      * intros j Hj. apply Hl. now right.
Qed.

Lemma fold_delete_proposals_actions (l : list Proposal.t) (db : Store) (a : Action.t) :
  In a (actions (fold_left delete_proposal_row l db))
  <-> In a (actions db)
      /\ forall p, In p l -> Action.proposal_id a <> Some (Proposal.id p).
Proof.
  revert db. induction l as [|p l IH]; intros db; simpl.
  - split; [|tauto]. intros H. split; [exact H|]. intros p [].
  - rewrite IH. cbn [actions delete_proposal_row with_proposals with_actions].
    rewrite filter_In, negb_true_iff. split.
    + intros ((H & Hf) & Hl). split; [exact H|].
      intros j [<-|Hj]; [|now apply Hl].
      intros E. apply fk_is_spec in E. congruence.
    + intros (H & Hl). split; [split; [exact H|]|].
      * destruct (fk_is (Proposal.id p) (Action.proposal_id a)) eqn:E; [|reflexivity].
        apply fk_is_spec in E. now elim (Hl p (or_introl eq_refl)).
      * intros j Hj. apply Hl. now right.
Qed.

Lemma NoDup_ids_inj {A} (id : A -> Z) (rows : list A) (x y : A) :
  NoDup (map id rows) -> In x rows -> In y rows -> id x = id y -> x = y.
Proof.
  induction rows as [|r rows IH]; simpl; intros Hnd Hx Hy E; [contradiction|].
  inversion Hnd as [|? ? Hn Hd]; subst.
  destruct Hx as [<-|Hx], Hy as [<-|Hy]; auto.
  - elim Hn. rewrite E. now apply in_map.
  - elim Hn. rewrite <- E. now apply in_map.
Qed.

(** X25. What deleting a contact removes, and nothing more.  In a store
    with unique ids, after the delete a contact is present exactly when it
    was present and is not the deleted one; an interaction or a proposal
    exactly when it was present and belongs to another contact; an action
    exactly when it was present, belongs to another contact and points to
    no proposal and no interaction of the deleted contact. *)
Theorem delete_contact_removes_exactly (db : Store) (key : Z) (c : Contact.t) :
  pk_unique db ->
  contact_crud.get_contact db key = Some c ->
  let db' := fst (contact_crud.delete_contact db key) in
  (forall x, In x (contacts db') <-> In x (contacts db) /\ Contact.id x <> key)
  /\ (forall i, In i (interactions db') <->
                In i (interactions db) /\ Interaction.contact_id i <> key)
  /\ (forall p, In p (proposals db') <->
                In p (proposals db) /\ Proposal.contact_id p <> key)
  /\ (forall a, In a (actions db') <->
                In a (actions db) /\ Action.contact_id a <> key
                /\ (forall p, In p (proposals db) -> Proposal.contact_id p = key ->
                      Action.proposal_id a <> Some (Proposal.id p))
                /\ (forall i, In i (interactions db) -> Interaction.contact_id i = key ->
                      Action.interaction_id a <> Some (Interaction.id i))).
Proof.
  intros (_ & Hpi & Hpp & _) Hget db'. subst db'.
  pose proof (get_by_id_key _ _ _ Hget) as Hid.
  unfold contact_crud.delete_contact. rewrite Hget. cbn [fst].
  unfold delete_contact_row. rewrite Hid.
  set (dead_i := filter (fun i => Interaction.contact_id i =? key) (interactions db)).
  destruct (fold_delete_interactions dead_i db) as (Hc1 & Hp1 & Hi1 & _).
  pose proof (fold_delete_interactions_actions dead_i db) as Ha1.
  set (db1 := fold_left delete_interaction_row dead_i db) in *.
  set (dead_p := filter (fun p => Proposal.contact_id p =? key) (proposals db1)).
  destruct (fold_delete_proposals dead_p db1) as (Hc2 & Hi2 & Hp2 & _).
  pose proof (fold_delete_proposals_actions dead_p db1) as Ha2.
  set (db2 := fold_left delete_proposal_row dead_p db1) in *.
  cbn [contacts interactions proposals actions with_contacts with_actions].
  split; [|split; [|split]].
  - intros x. unfold delete_where_id.
    rewrite filter_In, negb_true_iff, Z.eqb_neq, Hc2, Hc1. reflexivity.
  - intros i. rewrite Hi2, Hi1. split.
    + intros [Hin Hne]. split; [exact Hin|]. intros E.
      apply (Hne i); [|reflexivity].
      apply filter_In. split; [exact Hin|now apply Z.eqb_eq].
    + intros [Hin Hk]. split; [exact Hin|]. intros j Hj E.
      apply filter_In in Hj. destruct Hj as [Hj Hjk]. apply Z.eqb_eq in Hjk.
      rewrite (NoDup_ids_inj Interaction.id _ i j Hpi Hin Hj E) in Hk. contradiction.
  - intros p. rewrite Hp2. subst dead_p. rewrite Hp1. split.
    + intros [Hin Hne]. split; [exact Hin|]. intros E.
      apply (Hne p); [|reflexivity].
      apply filter_In. split; [exact Hin|now apply Z.eqb_eq].
    + intros [Hin Hk]. split; [exact Hin|]. intros j Hj E.
      apply filter_In in Hj. destruct Hj as [Hj Hjk]. apply Z.eqb_eq in Hjk.
      rewrite (NoDup_ids_inj Proposal.id _ p j Hpp Hin Hj E) in Hk. contradiction.
  - intros a. rewrite filter_In, negb_true_iff, Z.eqb_neq, Ha2, Ha1.
    subst dead_p dead_i. rewrite Hp1. split.
    + intros (((Hin & Hi) & Hp) & Hk). split; [exact Hin|]. split; [exact Hk|]. split.
      * intros p Hp' Hpk. apply Hp. apply filter_In. split; [exact Hp'|now apply Z.eqb_eq].
      * intros i Hi' Hik. apply Hi. apply filter_In. split; [exact Hi'|now apply Z.eqb_eq].
    + intros (Hin & Hk & Hp & Hi). split; [split; [split; [exact Hin|]|]|exact Hk].
      * intros i Hi'. apply filter_In in Hi'. destruct Hi' as [Hi' E].
        apply Z.eqb_eq in E. now apply Hi.
      * intros p Hp'. apply filter_In in Hp'. destruct Hp' as [Hp' E].
        apply Z.eqb_eq in E. now apply Hp.
Qed.

Lemma delete_contact_removes_exactly_witness :
  In sample.bob (contacts (fst (contact_crud.delete_contact sample.db 1)))
  /\ In sample.note2 (interactions (fst (contact_crud.delete_contact sample.db 1)))
  /\ ~ In sample.draft1 (proposals (fst (contact_crud.delete_contact sample.db 1))).
Proof.
  destruct (@delete_contact_removes_exactly sample.db 1 sample.ada sample_pk_unique
              eq_refl) as (Hc & Hi & Hp & _).
  split; [|split].
  - apply Hc. split; [simpl; auto|discriminate].
  - apply Hi. split; [simpl; auto|discriminate].
  - intros H. apply Hp in H. destruct H as [_ H]. now apply H.
Defined.

(** ** The page number of a list route *)

(** X26. The proposal list route hands back the page and the total of the
    list query, the [limit] as page size, and a page number that starts at
    1: with a positive [limit] it is the one page [n] for which
    [(n - 1) * limit <= skip < n * limit], so the requests at
    [skip = 0, limit, 2 * limit, ...] are pages 1, 2, 3, ...; with
    [limit = 0] it is 1. *)
Theorem list_proposals_page_number
    (float : Type) (numeric_ge numeric_le : Z -> float -> bool)
    (db : Store) (scan : scan_order) (skip limit : Z) (contact_id : option Z)
    (status : option ProposalStatus.t) (min_value max_value : option float)
    (response : proposals_api.ProposalListResponse.t) :
  proposals_api.list_proposals numeric_ge numeric_le db scan skip limit contact_id status
    min_value max_value = Returned response ->
  let page := proposals_api.ProposalListResponse.page response in
  proposal_crud.get_proposals numeric_ge numeric_le db scan skip limit contact_id status
    min_value max_value
  = Returned (proposals_api.ProposalListResponse.items response,
              proposals_api.ProposalListResponse.total response)
  /\ proposals_api.ProposalListResponse.page_size response = limit
  /\ 1 <= page
  /\ (limit = 0 -> page = 1)
  /\ (0 < limit -> (page - 1) * limit <= skip < page * limit)
  /\ (forall k, 0 < limit -> skip = k * limit -> page = k + 1).
Proof.
  intros H. cbv zeta. unfold proposals_api.list_proposals in H.
  destruct (proposal_crud.get_proposals _ _ _ _ _ _ _ _ _ _) as [[items total]|e] eqn:Eq;
    [|discriminate].
  assert (Hs : 0 <= skip /\ 0 <= limit).
  { unfold proposal_crud.get_proposals in Eq.
    destruct (offset_limit skip limit _) as [p|] eqn:Eo; [|discriminate].
    apply offset_limit_inv in Eo. tauto. }
  cbn [bind] in H. injection H as <-.
  cbn [proposals_api.ProposalListResponse.page proposals_api.ProposalListResponse.items
    proposals_api.ProposalListResponse.total
    proposals_api.ProposalListResponse.page_size].
  unfold proposals_api.page_number.
  split; [reflexivity|]. split; [reflexivity|].
  destruct (Z.ltb_spec 0 limit) as [Hl|Hl].
  - assert (Hd : 0 <= skip / limit) by (apply Z.div_pos; lia).
    pose proof (Z.mul_div_le skip limit Hl) as H1.
    pose proof (Z.mul_succ_div_gt skip limit Hl) as H2.
    split; [lia|]. split; [lia|]. split; [intros _; nia|].
    intros k _ ->. rewrite Z.div_mul by lia. reflexivity.
  - split; [lia|]. split; [reflexivity|]. split; [lia|]. intros k Hk. lia.
Qed.

Lemma list_proposals_page_number_witness :
  exists response,
    proposals_api.list_proposals Z.geb Z.leb sample.db [] 2 2 None None None None
    = Returned response
    /\ proposals_api.ProposalListResponse.page response = 2
    /\ proposals_api.ProposalListResponse.items response = [sample.draft1].
Proof.
  eexists. split; [reflexivity|]. split; [|reflexivity].
  match goal with |- proposals_api.ProposalListResponse.page ?r = _ =>
    destruct (@list_proposals_page_number Z Z.geb Z.leb sample.db [] 2 2 None None None None
                r eq_refl) as (_ & _ & _ & _ & _ & H) end.
  apply (H 1); [lia|reflexivity].
Defined.

(** ** The order of the named Action queries *)

(** X27. The four named Action queries -- by contact, pending, overdue
    and upcoming -- return their rows in the order of the Action list:
    priority descending (urgent first), then [due_at] ascending with null
    last; and each returns at most [limit] rows. *)
Theorem named_action_queries_ordered
    (db : Store) (scan : scan_order) (now days skip limit : Z) (contact_id : option Z)
    (c : Z) (page : list Action.t) :
  action_crud.get_actions_by_contact db scan c skip limit = Returned page
  \/ action_crud.get_pending_actions db scan contact_id limit = Returned page
  \/ action_crud.get_overdue_actions db scan now contact_id limit = Returned page
  \/ action_crud.get_upcoming_actions db scan now days contact_id limit = Returned page ->
  count page <= limit
  /\ forall i j a b, (i < j)%nat ->
       nth_error page i = Some a -> nth_error page j = Some b -> before_or_level a b.
Proof.
  intros H.
  assert (Hp : exists s rows,
             offset_limit s limit (order_by action_crud.priority_desc_due_at_asc scan rows)
             = Returned page).
  { destruct H as [H|[H|[H|H]]]; eauto. }
  destruct Hp as (s & rows & Hp).
  apply page_spec in Hp; [|exact priority_order_total|exact priority_order_trans].
  destruct Hp as (_ & _ & _ & Hlen & Hsort & _). split; [lia|].
  intros i j a b Hij Ha Hb. apply precedes_before_or_level.
  exact (@StronglySorted_nth _ _ _ Hsort i j a b Hij Ha Hb).
Qed.

Lemma named_action_queries_ordered_witness :
  action_crud.get_pending_actions sample.db [] None 5
  = Returned [sample.call2; sample.follow_up1]
  /\ before_or_level sample.call2 sample.follow_up1.
Proof.
  split; [reflexivity|].
  destruct (@named_action_queries_ordered sample.db [] 100 7 0 5 None 1
              [sample.call2; sample.follow_up1]) as [_ H].
  { right; left. reflexivity. }
  apply (H 0%nat 1%nat); [lia|reflexivity|reflexivity].
Defined.

(** ** Reading one row by its id *)

Lemma get_by_id_iff {A} (id : A -> Z) (key : Z) (rows : list A) (x : A) :
  NoDup (map id rows) ->
  first (filter (fun r => id r =? key) rows) = Some x <-> In x rows /\ id x = key.
Proof.
  intros Hnd. split.
  - intros H. split; [now apply first_filter_some in H|now apply get_by_id_key in H].
  - intros [Hx E].
    destruct (first (filter (fun r => id r =? key) rows)) as [y|] eqn:G.
    + f_equal. pose proof (@get_by_id_key _ id key rows y G) as Ey.
      apply first_filter_some in G. destruct G as [Hy _].
      apply (@NoDup_ids_inj _ id rows y x Hnd Hy Hx). congruence.
    + rewrite first_filter_none in G. specialize (G x Hx). cbv beta in G.
      apply Z.eqb_neq in G. contradiction.
Qed.

Lemma get_by_id_missing {A} (id : A -> Z) (key : Z) (rows : list A) :
  first (filter (fun r => id r =? key) rows) = None <-> ~ In key (map id rows).
Proof.
  rewrite first_filter_none. split.
  - intros H Hin. apply in_map_iff in Hin. destruct Hin as (x & E & Hx).
    specialize (H x Hx). cbv beta in H. apply Z.eqb_neq in H. contradiction.
  - intros H x Hx. apply Z.eqb_neq. intros E. apply H. rewrite <- E. now apply in_map.
Qed.

(** X28. The four read-one routes.  In a store whose primary keys are
    unique, a route returns a row exactly when it is the row of its table
    with the id of the path, and it answers 404 exactly when the table has
    no row with this id; it raises nothing else. *)
Theorem get_routes_find_the_row (db : Store) (key : Z) :
  pk_unique db ->
  ((forall c, contacts_api.get_contact db key = Returned c
              <-> In c (contacts db) /\ Contact.id c = key)
   /\ (forall e, contacts_api.get_contact db key = Raised e
                 <-> e = HTTPException 404 /\ ~ In key (map Contact.id (contacts db))))
  /\ ((forall i, interactions_api.get_interaction db key = Returned i
                 <-> In i (interactions db) /\ Interaction.id i = key)
      /\ (forall e, interactions_api.get_interaction db key = Raised e
                    <-> e = HTTPException 404
                        /\ ~ In key (map Interaction.id (interactions db))))
  /\ ((forall p, proposals_api.get_proposal db key = Returned p
                 <-> In p (proposals db) /\ Proposal.id p = key)
      /\ (forall e, proposals_api.get_proposal db key = Raised e
                    <-> e = HTTPException 404
                        /\ ~ In key (map Proposal.id (proposals db))))
  /\ ((forall a, actions_api.get_action db key = Returned a
                 <-> In a (actions db) /\ Action.id a = key)
      /\ (forall e, actions_api.get_action db key = Raised e
                    <-> e = HTTPException 404 /\ ~ In key (map Action.id (actions db)))).
Proof.
  intros (Hc & Hi & Hp & Ha).
  assert (G : forall A (id : A -> Z) (rows : list A) (r : outcome A),
             NoDup (map id rows) ->
             r = match first (filter (fun x => id x =? key) rows) with
                 | None => Raised (HTTPException 404)
                 | Some x => Returned x
                 end ->
             (forall x, r = Returned x <-> In x rows /\ id x = key)
             /\ (forall e, r = Raised e
                           <-> e = HTTPException 404 /\ ~ In key (map id rows))).
  { intros A id rows r Hnd ->.
    pose proof (fun x => @get_by_id_iff _ id key rows x Hnd) as Hsome.
    pose proof (@get_by_id_missing _ id key rows) as Hnone.
    destruct (first (filter (fun x => id x =? key) rows)) as [y|].
    - split.
      + intros x. rewrite <- Hsome. split; [intros E; injection E as ->; reflexivity|].
        intros E; injection E as ->; reflexivity.
      + intros e. split; [discriminate|]. intros [_ N]. apply Hnone in N. discriminate.
    - split.
      + intros x. rewrite <- Hsome. split; discriminate.
      + intros e. split.
        * intros E. injection E as <-. split; [reflexivity|]. now apply Hnone.
        * intros [-> _]. reflexivity. }
  split; [exact (G _ Contact.id (contacts db) _ Hc eq_refl)|].
  split; [exact (G _ Interaction.id (interactions db) _ Hi eq_refl)|].
  split; [exact (G _ Proposal.id (proposals db) _ Hp eq_refl)|].
  exact (G _ Action.id (actions db) _ Ha eq_refl).
Qed.

Lemma get_routes_find_the_row_witness :
  contacts_api.get_contact sample.db 2 = Returned sample.bob
  /\ actions_api.get_action sample.db 99 = Raised (HTTPException 404).
Proof.
  destruct (@get_routes_find_the_row sample.db 2 sample_pk_unique) as ((Hc & _) & _).
  destruct (@get_routes_find_the_row sample.db 99 sample_pk_unique) as (_ & _ & _ & _ & Ha).
  split.
  - apply Hc. split; [simpl; tauto|reflexivity].
  - apply Ha. split; [reflexivity|]. simpl. lia.
Defined.
